(** * Speech orchestration hook [useSpeechSynthesis]: a shallow embedding

    The hook keeps four pieces of React state ([isMuted], [isSpeaking],
    [spokenText], [mouthShape]), three refs ([utteranceQueue],
    [onEndCallback], [mouthShapeInterval]) and the voice list, and talks
    to [window.speechSynthesis].  Every handler of the hook is embedded as
    a function on a record holding these fields, together with a log of
    what crossed the boundary to the platform and to the caller.  [speak]
    reads [isMuted] and [voices] from the render that created it, and an
    [onEnd] callback may call back into the hook while it runs: both are
    part of the embedding ([speakFrom], [processQueueWith]).

    A string holds its text in UTF-8, as the string literals of this
    file do; a state setter takes effect when the handler that called it
    returns. *)

From Stdlib Require Import List String Ascii Bool Arith Lia.
From Stdlib Require QArith.
Import ListNotations.
Local Open Scope string_scope.
Local Open Scope list_scope.

(** ** String primitives used by the hook *)

Definition utf8 (bytes : list nat) : string :=
  string_of_list_ascii (map ascii_of_nat bytes).

(** What [String.prototype.trim] strips and [\s] matches: the code
    points of WhiteSpace and LineTerminator of ECMAScript, each as its
    UTF-8 bytes. *)
Definition whiteSpace : list string :=
  map utf8
    [[9]; [10]; [11]; [12]; [13]; [32];      (* TAB, LF, VT, FF, CR, SPACE *)
     [194; 160];                             (* U+00A0 *)
     [225; 154; 128];                        (* U+1680 *)
     [226; 128; 128]; [226; 128; 129]; [226; 128; 130]; [226; 128; 131];
     [226; 128; 132]; [226; 128; 133]; [226; 128; 134]; [226; 128; 135];
     [226; 128; 136]; [226; 128; 137]; [226; 128; 138];   (* U+2000 to U+200A *)
     [226; 128; 168]; [226; 128; 169];       (* U+2028, U+2029 *)
     [226; 128; 175];                        (* U+202F *)
     [226; 129; 159];                        (* U+205F *)
     [227; 128; 128];                        (* U+3000 *)
     [239; 187; 191]].                       (* U+FEFF *)

(** [s] is one white space character. *)
Definition isWhiteSpace (s : string) : bool := existsb (String.eqb s) whiteSpace.

(** A white space character takes one, two or three bytes. *)
Fixpoint trimStart (s : string) : string :=
  match s with
  | EmptyString => s
  | String a s1 =>
      if isWhiteSpace (String a "") then trimStart s1
      else match s1 with
           | EmptyString => s
           | String b s2 =>
               if isWhiteSpace (String a (String b "")) then trimStart s2
               else match s2 with
                    | EmptyString => s
                    | String c s3 =>
                        if isWhiteSpace (String a (String b (String c "")))
                        then trimStart s3
                        else s
                    end
           end
  end.

(** What is left of [String c s'] is [c] before what is left of [s'],
    unless that is one white space character as a whole. *)
Fixpoint trimEnd (s : string) : string :=
  match s with
  | EmptyString => EmptyString
  | String c s' =>
      let t := String c (trimEnd s') in
      if isWhiteSpace t then EmptyString else t
  end.

Definition trim (s : string) : string := trimEnd (trimStart s).

(** The white space character [s] begins with, taken off. *)
Definition leadingWhiteSpace (s : string) : option string :=
  match s with
  | EmptyString => None
  | String a s1 =>
      if isWhiteSpace (String a "") then Some s1
      else match s1 with
           | EmptyString => None
           | String b s2 =>
               if isWhiteSpace (String a (String b "")) then Some s2
               else match s2 with
                    | EmptyString => None
                    | String c s3 =>
                        if isWhiteSpace (String a (String b (String c "")))
                        then Some s3
                        else None
                    end
           end
  end.

(** [s] is made of white space characters and nothing else. *)
Inductive OnlyWhiteSpace : string -> Prop :=
| OnlyWhiteSpace_empty : OnlyWhiteSpace ""
| OnlyWhiteSpace_more (w s : string) :
    In w whiteSpace -> OnlyWhiteSpace s -> OnlyWhiteSpace (w ++ s).

(** A byte that occurs in some white space character. *)
Definition whiteSpaceByte (c : ascii) : bool :=
  existsb (fun w => existsb (Ascii.eqb c) (list_ascii_of_string w)) whiteSpace.

(** [c.toLowerCase()] on an ASCII character. *)
Definition lowerChar (c : ascii) : ascii :=
  let n := nat_of_ascii c in
  if ((65 <=? n) && (n <=? 90))%nat then ascii_of_nat (n + 32) else c.

Fixpoint toLowerCase (s : string) : string :=
  match s with
  | EmptyString => EmptyString
  | String c s' => String (lowerChar c) (toLowerCase s')
  end.

(** [s.startsWith(p)] *)
Definition startsWith (s p : string) : bool := String.prefix p s.

(** [s.includes(sub)] *)
Fixpoint includes (s sub : string) : bool :=
  startsWith s sub ||
  match s with
  | EmptyString => false
  | String _ s' => includes s' sub
  end.

(** [s.split('-')[0]]: everything before the first dash. *)
Fixpoint splitDashHead (s : string) : string :=
  match s with
  | EmptyString => EmptyString
  | String c s' => if Ascii.eqb c "-"%char then EmptyString else String c (splitDashHead s')
  end.

(** [parts.join(' ')] *)
Definition joinSpace (parts : list string) : string := String.concat " " parts.

(** ** Voices and voice selection *)

(** The two fields of a [SpeechSynthesisVoice] the hook reads.  The
    platform reports no separate gender field: the hook looks for the
    gender word inside [name]. *)
Record Voice := mkVoice { name : string; vlang : string }.

Inductive InterviewerGender := male | female.

Definition genderWord (g : InterviewerGender) : string :=
  match g with male => "male" | female => "female" end.

Definition voice_eqb (a b : Voice) : bool :=
  String.eqb (name a) (name b) && String.eqb (vlang a) (vlang b).

Definition voiceCandidates (voices : list Voice) (bcp47Lang : string) : list Voice :=
  filter (fun v => startsWith (vlang v) (splitDashHead bcp47Lang)) voices.

Definition exactMatch (bcp47Lang : string) (v : Voice) : bool :=
  String.eqb (vlang v) bcp47Lang.

Definition genderFiltered (voices : list Voice) (bcp47Lang : string)
    (g : InterviewerGender) : list Voice :=
  filter (fun v => includes (toLowerCase (name v)) (genderWord g))
         (voiceCandidates voices bcp47Lang).

(** The "Find best voice" block of [speak]: [None] is [undefined], in
    which case [utterance.voice] is left to the platform default. *)
Definition bestVoice (voices : list Voice) (bcp47Lang : string)
    (desiredGender : option InterviewerGender) : option Voice :=
  let best := find (exactMatch bcp47Lang) (voiceCandidates voices bcp47Lang) in
  match desiredGender with
  | Some g =>
      match genderFiltered voices bcp47Lang g with
      | [] => best
      | first :: _ =>
          match find (exactMatch bcp47Lang) (genderFiltered voices bcp47Lang g) with
          | Some v => Some v
          | None => Some first
          end
      end
  | None => best
  end.

(** The selection rule as the specification words it for the ungendered
    case: exact match among the candidates, else the first candidate,
    else no voice. *)
Definition bestVoice_exact_else_first (voices : list Voice) (bcp47Lang : string)
    : option Voice :=
  match find (exactMatch bcp47Lang) (voiceCandidates voices bcp47Lang) with
  | Some v => Some v
  | None => hd_error (voiceCandidates voices bcp47Lang)
  end.

(** ** The hook's state and its boundary *)

(** A [SpeechSynthesisUtterance] as [speak] builds it.  The three
    lifecycle handlers are the same closures for every utterance and are
    embedded below as [utterance_onstart], [utterance_onend] and
    [utterance_onerror]. *)
Record Utterance := mkUtterance {
  utext : string;
  ulang : string;
  uvoice : option Voice
}.

(** An [onEnd] closure, known only by its identity. *)
Definition Callback := nat.

(** The handle [window.setInterval] returns. *)
Definition TimerId := nat.

(** What crosses the boundary of the hook, in the order it happens. *)
Inductive LogEntry :=
| SynthSpeak (u : Utterance)   (* window.speechSynthesis.speak(u) *)
| SynthCancel                  (* window.speechSynthesis.cancel() *)
| Invoked (cb : Callback)      (* an onEnd callback was run *)
| Completed (u : Utterance).   (* the platform fired end or error for u *)

Record State := mkState {
  isMuted : bool;
  isSpeaking : bool;
  spokenText : string;
  mouthShape : string;
  utteranceQueue : list Utterance;
  onEndCallback : option Callback;
  mouthShapeInterval : option TimerId;
  voices : list Voice;
  log : list LogEntry
}.

(** The part of the state the hook returns to the UI. *)
Record EngineState := mkEngineState {
  es_isSpeaking : bool;
  es_mouthShape : string;
  es_spokenText : string;
  es_isMuted : bool
}.

Definition observable (st : State) : EngineState :=
  mkEngineState (isSpeaking st) (mouthShape st) (spokenText st) (isMuted st).

Definition MOUTH_SHAPES : list string := ["A"; "B"; "C"; "D"; "E"; "F"; "G"; "H"].

(** State on first render: the [useState] and [useRef] initial values. *)
Definition initial : State :=
  mkState false false "" "X" [] None None [] [].

Definition setIsMuted (b : bool) (st : State) : State :=
  mkState b (isSpeaking st) (spokenText st) (mouthShape st) (utteranceQueue st)
          (onEndCallback st) (mouthShapeInterval st) (voices st) (log st).

Definition setIsSpeaking (b : bool) (st : State) : State :=
  mkState (isMuted st) b (spokenText st) (mouthShape st) (utteranceQueue st)
          (onEndCallback st) (mouthShapeInterval st) (voices st) (log st).

Definition setSpokenText (t : string) (st : State) : State :=
  mkState (isMuted st) (isSpeaking st) t (mouthShape st) (utteranceQueue st)
          (onEndCallback st) (mouthShapeInterval st) (voices st) (log st).

Definition setMouthShape (m : string) (st : State) : State :=
  mkState (isMuted st) (isSpeaking st) (spokenText st) m (utteranceQueue st)
          (onEndCallback st) (mouthShapeInterval st) (voices st) (log st).

Definition setUtteranceQueue (q : list Utterance) (st : State) : State :=
  mkState (isMuted st) (isSpeaking st) (spokenText st) (mouthShape st) q
          (onEndCallback st) (mouthShapeInterval st) (voices st) (log st).

Definition setOnEndCallback (cb : option Callback) (st : State) : State :=
  mkState (isMuted st) (isSpeaking st) (spokenText st) (mouthShape st) (utteranceQueue st)
          cb (mouthShapeInterval st) (voices st) (log st).

Definition setMouthShapeInterval (t : option TimerId) (st : State) : State :=
  mkState (isMuted st) (isSpeaking st) (spokenText st) (mouthShape st) (utteranceQueue st)
          (onEndCallback st) t (voices st) (log st).

Definition setVoices (vs : list Voice) (st : State) : State :=
  mkState (isMuted st) (isSpeaking st) (spokenText st) (mouthShape st) (utteranceQueue st)
          (onEndCallback st) (mouthShapeInterval st) vs (log st).

Definition record (e : LogEntry) (st : State) : State :=
  mkState (isMuted st) (isSpeaking st) (spokenText st) (mouthShape st) (utteranceQueue st)
          (onEndCallback st) (mouthShapeInterval st) (voices st) (log st ++ [e]).

(** [if (mouthShapeInterval.current) { clearInterval(...); ... = null }]:
    a cleared timer never ticks again, which [interval_tick] reads off
    [mouthShapeInterval]. *)
Definition clearMouthShapeInterval (st : State) : State :=
  match mouthShapeInterval st with
  | Some _ => setMouthShapeInterval None st
  | None => st
  end.

(** [if (cb) cb()] *)
Definition invokeIfProvided (cb : option Callback) (st : State) : State :=
  match cb with
  | Some c => record (Invoked c) st
  | None => st
  end.

(** [processQueue], where [running cb] is what the calls that callback
    [cb] makes into the hook while it runs do to the state: the
    callback is run first, and [onEndCallback.current = undefined] comes
    after it has returned. *)
Definition processQueueWith (running : Callback -> State -> State) (st : State) : State :=
  match utteranceQueue st with
  | utterance :: rest =>
      record (SynthSpeak utterance) (setUtteranceQueue rest st)
  | [] =>
      let st := setIsSpeaking false st in
      let st := setMouthShape "X" st in
      let st := clearMouthShapeInterval st in
      match onEndCallback st with
      | Some cb => setOnEndCallback None (running cb (record (Invoked cb) st))
      | None => st
      end
  end.

(** [processQueue] when the callback it runs, if any, makes no call
    into the hook.  That is also what the call at the end of [speak]
    does, which finds the queue filled and runs no callback. *)
Definition processQueue (st : State) : State :=
  processQueueWith (fun _ st => st) st.

(** What [speak] closes over, [useCallback] listing [isMuted] and
    [voices] among its dependencies: their values in the render that
    created this [speak].  ([globalLanguage], the argument of the hook,
    is the same in every render here.) *)
Record Captured := mkCaptured {
  captured_isMuted : bool;
  captured_voices : list Voice
}.

(** The render of the state as it is: the [speak] it creates is the
    one the hook returns until [isMuted] or [voices] change again. *)
Definition lastRender (st : State) : Captured := mkCaptured (isMuted st) (voices st).

(** [hasSpeechSynthesis] is the truth value of [window.speechSynthesis]. *)
Definition cancel (hasSpeechSynthesis : bool) (st : State) : State :=
  let st := setUtteranceQueue [] st in
  let st := setOnEndCallback None st in
  let st := clearMouthShapeInterval st in
  let st := setIsSpeaking false st in
  let st := setMouthShape "X" st in
  if hasSpeechSynthesis then record SynthCancel st else st.

(** [timer] is the handle the new [window.setInterval] returns; the
    previous interval, if any, is cleared first. *)
Definition utterance_onstart (timer : TimerId) (st : State) : State :=
  setMouthShapeInterval (Some timer) (clearMouthShapeInterval st).

(** The interval callback; [r] is [Math.floor(Math.random() * 8)]. *)
Definition interval_tick (timer : TimerId) (r : nat) (st : State) : State :=
  match mouthShapeInterval st with
  | Some t =>
      if Nat.eqb t timer
      then setMouthShape (nth (r mod List.length MOUTH_SHAPES) MOUTH_SHAPES "X") st
      else st
  | None => st
  end.

Definition utterance_onend (st : State) : State := processQueue st.

(** The error value is only passed to [debug]. *)
Definition utterance_onerror (e : string) (st : State) : State := processQueue st.

Definition toggleMute (hasSpeechSynthesis : bool) (st : State) : State :=
  let nextState := negb (isMuted st) in
  let st := if nextState then cancel hasSpeechSynthesis st else st in
  setIsMuted nextState st.

Definition handleVoicesChanged (availableVoices : list Voice) (st : State) : State :=
  setVoices availableVoices st.

(** [s.text && s.text.trim().length > 0] *)
Definition hasText (t : string) : bool :=
  negb (String.eqb t "") && (0 <? String.length (trim t))%nat.

Section Hook.

(** The application languages and their platform locale table live in
    [../translations], which is not part of the sources at hand: they
    are parameters here.  [bcp47LanguageMap] has an entry for every
    [Language]. *)
Variable Language : Type.
Variable bcp47LanguageMap : Language -> string.
Variable globalLanguage : Language.
Variable hasSpeechSynthesis : bool.

Record SpeechSegment := mkSegment { text : string; lang : Language }.

Inductive TextOrSegments :=
| Text (t : string)
| Segments (l : list SpeechSegment).

(** The third argument of [speak]: [Language | InterviewerGender]. *)
Inductive LangOrGender :=
| IsLanguage (l : Language)
| IsGender (g : InterviewerGender).

Definition desiredGender (langOrGender : LangOrGender) : option InterviewerGender :=
  match langOrGender with
  | IsGender g => Some g
  | IsLanguage _ => None
  end.

(** [segments] before the filter: a string becomes one segment in the
    language given as third argument, or in [globalLanguage] when that
    argument is a gender and so not a key of [bcp47LanguageMap]. *)
Definition requestSegments (textOrSegments : TextOrSegments)
    (langOrGender : LangOrGender) : list SpeechSegment :=
  match textOrSegments with
  | Text t =>
      let l := match langOrGender with
               | IsLanguage l => l
               | IsGender _ => globalLanguage
               end in
      [mkSegment t l]
  | Segments l => l
  end.

(** [segments] after [segments.filter(s => s.text && s.text.trim().length > 0)]. *)
Definition normalize (textOrSegments : TextOrSegments) (langOrGender : LangOrGender)
    : list SpeechSegment :=
  filter (fun s => hasText (text s)) (requestSegments textOrSegments langOrGender).

(** One turn of the [for (const segment of segments)] loop. *)
Definition makeUtterance (vs : list Voice) (langOrGender : LangOrGender)
    (segment : SpeechSegment) : Utterance :=
  let bcp47Lang := bcp47LanguageMap (lang segment) in
  mkUtterance (text segment) bcp47Lang
              (bestVoice vs bcp47Lang (desiredGender langOrGender)).

(** The utterances a request is turned into, in queue order. *)
Definition requestUtterances (vs : list Voice) (textOrSegments : TextOrSegments)
    (langOrGender : LangOrGender) : list Utterance :=
  map (makeUtterance vs langOrGender) (normalize textOrSegments langOrGender).

(** The [speak] created by render [r], called in state [st]: the
    guard reads the [isMuted] and the loop the [voices] of [r], not
    those of [st].  [speaking] is what [window.speechSynthesis.speaking]
    reads as when [speak] reaches its last statement. *)
Definition speakFrom (r : Captured) (textOrSegments : TextOrSegments)
    (onEnd : option Callback) (langOrGender : LangOrGender) (speaking : bool)
    (st : State) : State :=
  if captured_isMuted r || negb hasSpeechSynthesis then
    invokeIfProvided onEnd st
  else
    let st := cancel hasSpeechSynthesis st in
    let segments := normalize textOrSegments langOrGender in
    match segments with
    | [] => invokeIfProvided onEnd st
    | _ :: _ =>
        let fullOriginalText := joinSpace (map text segments) in
        let st := setSpokenText fullOriginalText st in
        let st := setIsSpeaking true st in
        let st := setMouthShape "A" st in
        let st := setOnEndCallback onEnd st in
        let st := setUtteranceQueue
                    (utteranceQueue st ++
                     map (makeUtterance (captured_voices r) langOrGender) segments) st in
        if negb speaking then processQueue st else st
    end.

(** The [speak] of the latest render. *)
Definition speak (textOrSegments : TextOrSegments) (onEnd : option Callback)
    (langOrGender : LangOrGender) (speaking : bool) (st : State) : State :=
  speakFrom (lastRender st) textOrSegments onEnd langOrGender speaking st.

(** A call an [onEnd] callback makes into the hook while it runs: to
    a [speak] it holds, or to [cancel].  Where a callback that a call
    to [speak] runs before returning makes calls itself, they follow in
    the list.  ([toggleMute] is not among the calls: it queues a state
    update, and when the updater runs is up to React; it is an event of
    its own.) *)
Inductive Call :=
| CallSpeak (r : Captured) (textOrSegments : TextOrSegments) (onEnd : option Callback)
            (langOrGender : LangOrGender) (speaking : bool)
| CallCancel.

Definition call (k : Call) (st : State) : State :=
  match k with
  | CallSpeak r t onEnd lg speaking => speakFrom r t onEnd lg speaking st
  | CallCancel => cancel hasSpeechSynthesis st
  end.

Definition calls (ks : list Call) (st : State) : State :=
  fold_left (fun st k => call k st) ks st.

(** What can happen to the hook when every [speak] called is the one of
    the latest render and no [onEnd] callback calls back into the hook:
    calls from the UI and callbacks from the platform. *)
Inductive Event :=
| Speak (textOrSegments : TextOrSegments) (onEnd : option Callback)
        (langOrGender : LangOrGender) (speaking : bool)
| Cancel
| ToggleMute
| Unmount
| VoicesChanged (availableVoices : list Voice)
| OnStart (u : Utterance) (timer : TimerId)
| OnEnd (u : Utterance)
| OnError (u : Utterance) (e : string)
| Tick (timer : TimerId) (r : nat).

Definition step (ev : Event) (st : State) : State :=
  match ev with
  | Speak t onEnd lg speaking => speak t onEnd lg speaking st
  | Cancel => cancel hasSpeechSynthesis st
  | ToggleMute => toggleMute hasSpeechSynthesis st
  | Unmount => cancel hasSpeechSynthesis st
  | VoicesChanged vs => handleVoicesChanged vs st
  | OnStart _ timer => utterance_onstart timer st
  | OnEnd u => utterance_onend (record (Completed u) st)
  | OnError u e => utterance_onerror e (record (Completed u) st)
  | Tick timer r => interval_tick timer r st
  end.

Fixpoint run (evs : list Event) (st : State) : State :=
  match evs with
  | [] => st
  | ev :: rest => run rest (step ev st)
  end.

(** Everything that can happen to the hook.  [SpeakFrom r] is a call
    to a [speak] that closed over [r]: the caller may have kept it from
    an earlier render, or may call it before the hook has rendered
    again.  [OnEndCalling u during] and [OnErrorCalling u e during] are
    the end and the error of unit [u] when the callback that
    [processQueue] runs, if it runs one, makes the calls [during]
    before it returns. *)
Inductive Action :=
| Plain (ev : Event)
| SpeakFrom (r : Captured) (textOrSegments : TextOrSegments) (onEnd : option Callback)
            (langOrGender : LangOrGender) (speaking : bool)
| OnEndCalling (u : Utterance) (during : list Call)
| OnErrorCalling (u : Utterance) (e : string) (during : list Call).

Definition act (a : Action) (st : State) : State :=
  match a with
  | Plain ev => step ev st
  | SpeakFrom r t onEnd lg speaking => speakFrom r t onEnd lg speaking st
  | OnEndCalling u during | OnErrorCalling u _ during =>
      processQueueWith (fun _ => calls during) (record (Completed u) st)
  end.

Fixpoint perform (acts : list Action) (st : State) : State :=
  match acts with
  | [] => st
  | a :: rest => perform rest (act a st)
  end.

End Hook.

Arguments mkSegment {Language}.
Arguments text {Language}.
Arguments lang {Language}.
Arguments Text {Language}.
Arguments Segments {Language}.
Arguments IsLanguage {Language}.
Arguments IsGender {Language}.
Arguments Speak {Language}.
Arguments Cancel {Language}.
Arguments ToggleMute {Language}.
Arguments Unmount {Language}.
Arguments VoicesChanged {Language}.
Arguments OnStart {Language}.
Arguments OnEnd {Language}.
Arguments OnError {Language}.
Arguments Tick {Language}.
Arguments CallSpeak {Language}.
Arguments CallCancel {Language}.
Arguments Plain {Language}.
Arguments SpeakFrom {Language}.
Arguments OnEndCalling {Language}.
Arguments OnErrorCalling {Language}.

(** ** Reading the log *)

Definition option_eqb {A} (eqb : A -> A -> bool) (a b : option A) : bool :=
  match a, b with
  | Some x, Some y => eqb x y
  | None, None => true
  | _, _ => false
  end.

Definition utterance_eqb (a b : Utterance) : bool :=
  String.eqb (utext a) (utext b) && String.eqb (ulang a) (ulang b) &&
  option_eqb voice_eqb (uvoice a) (uvoice b).

(** What [if (onEnd) onEnd()] adds to the log. *)
Definition onEndLog (onEnd : option Callback) : list LogEntry :=
  match onEnd with
  | Some cb => [Invoked cb]
  | None => []
  end.

(** The callbacks that were run, oldest first. *)
Fixpoint invoked (l : list LogEntry) : list Callback :=
  match l with
  | [] => []
  | Invoked cb :: r => cb :: invoked r
  | _ :: r => invoked r
  end.

Definition occ (cb : Callback) (l : list Callback) : nat :=
  count_occ Nat.eq_dec l cb.

Definition timesFired (cb : Callback) (st : State) : nat :=
  occ cb (invoked (log st)).

Definition stored (st : State) : list Callback :=
  match onEndCallback st with
  | Some cb => [cb]
  | None => []
  end.

(** The unit whose lifecycle is open on the platform side after [l]:
    handed over, neither completed nor cancelled. *)
Definition inFlightStep (open : option Utterance) (e : LogEntry) : option Utterance :=
  match e with
  | SynthSpeak u => Some u
  | SynthCancel => None
  | Completed u =>
      match open with
      | Some v => if utterance_eqb u v then None else open
      | None => None
      end
  | Invoked _ => open
  end.

Definition inFlight (l : list LogEntry) : option Utterance :=
  fold_left inFlightStep l None.

(** Units handed to the platform and then wiped by a later
    [SynthCancel], and units handed over since the last one. *)
Fixpoint handedFrom (cancelled live : list Utterance) (l : list LogEntry)
    : list Utterance * list Utterance :=
  match l with
  | [] => (cancelled, live)
  | SynthSpeak u :: r => handedFrom cancelled (live ++ [u]) r
  | SynthCancel :: r => handedFrom (cancelled ++ live) [] r
  | _ :: r => handedFrom cancelled live r
  end.

Definition cancelledUnits (l : list LogEntry) : list Utterance := fst (handedFrom [] [] l).
Definition liveUnits (l : list LogEntry) : list Utterance := snd (handedFrom [] [] l).

(** [u] belongs to a request that was cancelled or superseded. *)
Definition isStale (u : Utterance) (l : list LogEntry) : bool :=
  existsb (utterance_eqb u) (cancelledUnits l) &&
  negb (existsb (utterance_eqb u) (liveUnits l)).

(** No unit is handed to the platform while the one handed before it is
    still open. *)
Fixpoint sequentialFrom (open : option Utterance) (l : list LogEntry) : bool :=
  match l with
  | [] => true
  | SynthSpeak u :: r =>
      match open with
      | Some _ => false
      | None => sequentialFrom (Some u) r
      end
  | e :: r => sequentialFrom (inFlightStep open e) r
  end.

Definition sequential (l : list LogEntry) : bool := sequentialFrom None l.

(** The log of units played one after the other, each to completion. *)
Definition played (us : list Utterance) : list LogEntry :=
  flat_map (fun u => [SynthSpeak u; Completed u]) us.

Section Schedules.

Variable Language : Type.
Variable bcp47LanguageMap : Language -> string.
Variable globalLanguage : Language.
Variable hasSpeechSynthesis : bool.

Definition callbackOf (ev : Event Language) : list Callback :=
  match ev with
  | Speak _ (Some cb) _ _ => [cb]
  | _ => []
  end.

Definition callbacksOf (evs : list (Event Language)) : list Callback :=
  flat_map callbackOf evs.

Definition isSpeakCall (ev : Event Language) : bool :=
  match ev with
  | Speak _ _ _ _ => true
  | _ => false
  end.

Definition isCompletion (ev : Event Language) : bool :=
  match ev with
  | OnEnd _ | OnError _ _ => true
  | _ => false
  end.

Definition completions (evs : list (Event Language)) : nat :=
  List.length (filter isCompletion evs).

(** An event the platform may deliver while a request plays
    undisturbed: lifecycle events of the unit in flight, interval
    ticks, voice list changes. *)
Definition undisturbedEvent (ev : Event Language) (st : State) : bool :=
  match ev with
  | OnStart u _ | OnEnd u | OnError u _ =>
      match inFlight (log st) with
      | Some v => utterance_eqb u v
      | None => false
      end
  | Tick _ _ | VoicesChanged _ => true
  | Speak _ _ _ _ | Cancel | ToggleMute | Unmount => false
  end.

Fixpoint undisturbed (evs : list (Event Language)) (st : State) : bool :=
  match evs with
  | [] => true
  | ev :: rest =>
      undisturbedEvent ev st &&
      undisturbed rest (step Language bcp47LanguageMap globalLanguage hasSpeechSynthesis ev st)
  end.

(** The stale event rule as the specification words it: an end event
    of a cancelled or superseded unit changes neither [isSpeaking] nor
    [mouthShape]. *)
Definition staleEventsDiscarded : Prop :=
  forall (evs : list (Event Language)) (u : Utterance),
    let st := run Language bcp47LanguageMap globalLanguage hasSpeechSynthesis evs initial in
    let st' := step Language bcp47LanguageMap globalLanguage hasSpeechSynthesis (OnEnd u) st in
    isStale u (log st) = true ->
    isSpeaking st' = isSpeaking st /\ mouthShape st' = mouthShape st.

(** The ordering rule as the specification words it: whatever
    happens, no unit is started before the unit started before it has
    ended or failed. *)
Definition alwaysSequential : Prop :=
  forall evs : list (Event Language),
    sequential
      (log (run Language bcp47LanguageMap globalLanguage hasSpeechSynthesis evs initial))
    = true.

Definition callbackOfCall (k : Call Language) : list Callback :=
  match k with
  | CallSpeak _ _ (Some cb) _ _ => [cb]
  | _ => []
  end.

Definition callbacksOfCalls (ks : list (Call Language)) : list Callback :=
  flat_map callbackOfCall ks.

Definition callbackOfAction (a : Action Language) : list Callback :=
  match a with
  | Plain ev => callbackOf ev
  | SpeakFrom _ _ (Some cb) _ _ => [cb]
  | SpeakFrom _ _ None _ _ => []
  | OnEndCalling _ during | OnErrorCalling _ _ during => callbacksOfCalls during
  end.

Definition callbacksOfActions (acts : list (Action Language)) : list Callback :=
  flat_map callbackOfAction acts.

(** The [speak] called was created by a render that saw the [isMuted]
    the hook has now. *)
Definition seesMute (r : Captured) (st : State) : bool :=
  Bool.eqb (captured_isMuted r) (isMuted st).

Definition callSeesMute (st : State) (k : Call Language) : bool :=
  match k with
  | CallSpeak r _ _ _ _ => seesMute r st
  | CallCancel => true
  end.

(** No call into the hook changes [isMuted], so the calls a callback
    makes while it runs all find the [isMuted] of [st]. *)
Definition actionSeesMute (a : Action Language) (st : State) : bool :=
  match a with
  | Plain _ => true
  | SpeakFrom r _ _ _ _ => seesMute r st
  | OnEndCalling _ during | OnErrorCalling _ _ during => forallb (callSeesMute st) during
  end.

(** Along the run, every [speak] that is called saw the [isMuted] of
    the moment of the call. *)
Fixpoint allSeeMute (acts : list (Action Language)) (st : State) : bool :=
  match acts with
  | [] => true
  | a :: rest =>
      actionSeesMute a st &&
      allSeeMute rest (act Language bcp47LanguageMap globalLanguage hasSpeechSynthesis a st)
  end.

(** Whether a call to [speak] gets past its guard and normalizes to at
    least one segment. *)
Definition speakSucceeds (t : TextOrSegments Language) (lg : LangOrGender Language)
    (st : State) : bool :=
  negb (isMuted st) && hasSpeechSynthesis &&
  match normalize Language globalLanguage t lg with
  | [] => false
  | _ :: _ => true
  end.

End Schedules.

Arguments callbackOf {Language}.
Arguments callbackOfCall {Language}.
Arguments callbacksOfCalls {Language}.
Arguments callbackOfAction {Language}.
Arguments callbacksOfActions {Language}.
Arguments callSeesMute {Language}.
Arguments actionSeesMute {Language}.
Arguments callbacksOf {Language}.
Arguments isCompletion {Language}.
Arguments isSpeakCall {Language}.
Arguments completions {Language}.

(** ** A concrete instance for closed examples *)

(** Modelled from the spec: the [Language] type and [bcp47LanguageMap]
    of [../translations], which is not among the sources.  The spec
    documents one entry, application code "en" to platform tag "en-US",
    and "en" is the default third argument of [speak]. *)
Inductive SampleLanguage := en.

Definition sampleMap (l : SampleLanguage) : string :=
  match l with en => "en-US" end.

Abbreviation sampleStep := (step SampleLanguage sampleMap en true).
Abbreviation sampleRun := (run SampleLanguage sampleMap en true).
Abbreviation sampleSpeak := (speak SampleLanguage sampleMap en true).
Abbreviation sampleSpeakFrom := (speakFrom SampleLanguage sampleMap en true).
Abbreviation sampleAct := (act SampleLanguage sampleMap en true).
Abbreviation samplePerform := (perform SampleLanguage sampleMap en true).
Abbreviation sampleUtterances :=
  (requestUtterances SampleLanguage sampleMap en).

Definition sampleUtterance (t : string) : Utterance := mkUtterance t "en-US" None.

(** A request for "alpha" superseded by a request for "beta". *)
Definition alphaThenBeta : list (Event SampleLanguage) :=
  [Speak (Text "alpha") (Some 1) (IsLanguage en) false;
   Speak (Text "beta") (Some 2) (IsLanguage en) false].

(** A request for "alpha" superseded by a request of two segments. *)
Definition alphaThenBetaGamma : list (Event SampleLanguage) :=
  [Speak (Text "alpha") (Some 1) (IsLanguage en) false;
   Speak (Segments [mkSegment "beta" en; mkSegment "gamma" en]) (Some 2)
         (IsLanguage en) false].

(** The engine after mute was turned on from the first render. *)
Definition mutedState : State := toggleMute true initial.

Definition threeSegments : TextOrSegments SampleLanguage :=
  Segments [mkSegment "one" en; mkSegment "  " en; mkSegment "two" en;
            mkSegment "three" en].

(** Lifecycle of the first two units of [threeSegments]: the first
    ends, the second fails. *)
Definition twoCompletions : list (Event SampleLanguage) :=
  [OnStart (sampleUtterance "one") 7; Tick 7 3; OnEnd (sampleUtterance "one");
   OnStart (sampleUtterance "two") 8; OnError (sampleUtterance "two") "network"].

(** The engine while the first unit of [threeSegments] plays. *)
Definition playingFirstOfThree : State :=
  sampleSpeak threeSegments (Some 5) (IsLanguage en) false initial.

Definition threeCompletions : list (Event SampleLanguage) :=
  twoCompletions ++ [OnStart (sampleUtterance "three") 9; Tick 9 5;
                     OnEnd (sampleUtterance "three"); Tick 9 1].




(** "alpha" is cut off by mute; then the [speak] of the muted render
    is called, and the end of "alpha" arrives late, with a callback
    that would call [cancel]. *)
Definition mutedWhilePlaying : list (Action SampleLanguage) :=
  [Plain (Speak (Text "alpha") (Some 1) (IsLanguage en) false);
   Plain ToggleMute;
   SpeakFrom (mkCaptured true []) (Text "beta") (Some 2) (IsLanguage en) false;
   OnEndCalling (sampleUtterance "alpha") [CallCancel]].


(** The catalog of the voice selection example.  A platform voice has
    one descriptive string, [name], and that is where the hook looks for
    the gender word: a descriptor's name and label both live in it. *)
Record VoiceDescriptor := mkDescriptor {
  vd_name : string;
  vd_locale : string;
  vd_label : string
}.

Definition voiceOf (d : VoiceDescriptor) : Voice :=
  mkVoice (vd_name d ++ " " ++ vd_label d) (vd_locale d).

Definition descriptorA : VoiceDescriptor := mkDescriptor "A" "en-GB" "male".
Definition descriptorB : VoiceDescriptor := mkDescriptor "B" "en-US" "female".
Definition exampleCatalog : list Voice := [voiceOf descriptorA; voiceOf descriptorB].

(** ** More readings of the state and the log *)

(** Every unit handed to the platform, oldest first. *)
Fixpoint handed (l : list LogEntry) : list Utterance :=
  match l with
  | [] => []
  | SynthSpeak u :: r => u :: handed r
  | _ :: r => handed r
  end.

(** A call made to [window.speechSynthesis]. *)
Definition isPlatformCall (e : LogEntry) : bool :=
  match e with
  | SynthSpeak _ | SynthCancel => true
  | Invoked _ | Completed _ => false
  end.

(** The neutral shape and the shapes the interval draws from. *)
Definition shapeAlphabet : list string := "X" :: MOUTH_SHAPES.

(** What the handlers keep true from the first render on. *)
Definition engineInvariant (st : State) : Prop :=
  (isSpeaking st = false -> utteranceQueue st = [] /\ onEndCallback st = None) /\
  (isMuted st = true -> isSpeaking st = false) /\
  In (mouthShape st) shapeAlphabet.

(** ** The avatar: [AnimatedTutor], [ThreeAvatar], [AvatarModel] *)

(** [<AvatarModel mouthShape={isSpeaking ? mouthShape : 'X'} />] *)
Definition threeAvatarMouthShape (isSpeaking : bool) (mouthShape : string) : string :=
  if isSpeaking then mouthShape else "X".

(** [<ThreeAvatar isSpeaking={isSpeaking || isThinking}
                  mouthShape={isThinking ? 'X' : mouthShape} />] *)
Definition animatedTutorMouthShape (isSpeaking isThinking : bool) (mouthShape : string)
    : string :=
  threeAvatarMouthShape (isSpeaking || isThinking) (if isThinking then "X" else mouthShape).

Module AvatarModel.
Import QArith.
Local Open Scope string_scope.

Record MouthProps := mkMouthProps { openV : Q; openH : Q; curve : Q }.

(** The table of deformation targets, with its decimal literals. *)
Definition mouthShapes : list (string * MouthProps) :=
  [("X", mkMouthProps 0.01 0.3 0.02);
   ("A", mkMouthProps 0.2 0.25 0.01);
   ("B", mkMouthProps 0.05 0.4 0.05);
   ("C", mkMouthProps 0.15 0.15 (-0.05));
   ("D", mkMouthProps 0.08 0.35 0.03);
   ("E", mkMouthProps 0.15 0.4 0.04);
   ("F", mkMouthProps 0.05 0.35 0.01);
   ("G", mkMouthProps 0.12 0.1 (-0.05));
   ("H", mkMouthProps 0.07 0.25 0.02)].

(** [table[key]] where [key] is one of the table's own keys; [None]
    when the table has no such key of its own. *)
Fixpoint ownProperty (table : list (string * MouthProps)) (key : string)
    : option MouthProps :=
  match table with
  | [] => None
  | (k, v) :: rest => if String.eqb k key then Some v else ownProperty rest key
  end.

End AvatarModel.

(** ** [ThreeCanvas]: cleaning the sketch code *)

Fixpoint dropChars (n : nat) (s : string) : string :=
  match n, s with
  | 0, _ => s
  | S _, EmptyString => EmptyString
  | S n', String _ s' => dropChars n' s'
  end.

(** The whole string matches [\s*]. *)
Definition allWhitespace (s : string) : bool := String.eqb (trimStart s) "".

(** [s.replace(/^```(javascript|js)?\s*/, '')]: without the [g] and
    [m] flags the pattern can only match at the start of the string;
    the optional group takes "javascript" if it is there, else "js" if
    it is there, and [\s*] takes all the whitespace that follows. *)
Definition stripLeadingFence (s : string) : string :=
  if startsWith s "```" then
    let r := dropChars 3 s in
    let r := if startsWith r "javascript" then dropChars 10 r
             else if startsWith r "js" then dropChars 2 r
             else r in
    trimStart r
  else s.

(** [s.replace(/```\s*$/, '')]: the leftmost place where a fence is
    followed by nothing but whitespace up to the end of the string; the
    match runs to the end, so what is left is what came before it. *)
Fixpoint stripTrailingFence (s : string) : string :=
  if startsWith s "```" && allWhitespace (dropChars 3 s) then EmptyString
  else match s with
       | EmptyString => EmptyString
       | String c s' => String c (stripTrailingFence s')
       end.

Definition cleanedSketchCode (sketchCode : string) : string :=
  stripTrailingFence (stripLeadingFence sketchCode).

(** [title.replace(/'/g, "\\'")]: a backslash before every quote. *)
Fixpoint escapeQuotes (title : string) : string :=
  match title with
  | EmptyString => EmptyString
  | String c t =>
      if Ascii.eqb c "'"%char
      then String "\"%char (String "'"%char (escapeQuotes t))
      else String c (escapeQuotes t)
  end.

(** Every quote of [s] has a backslash right before it; [prev] tells
    whether a backslash stands right before [s]. *)
Fixpoint quotesEscaped (prev : bool) (s : string) : bool :=
  match s with
  | EmptyString => true
  | String c t =>
      (negb (Ascii.eqb c "'"%char) || prev) && quotesEscaped (Ascii.eqb c "\"%char) t
  end.

(** ** [dbService]: the object stores and the cached connection *)

Record StoreConfig := mkStoreConfig { store_name : string; keyPath : string }.

Definition STORES : list StoreConfig :=
  [mkStoreConfig "lessons" "id";
   mkStoreConfig "solutions" "id";
   mkStoreConfig "libraryCourses" "id";
   mkStoreConfig "visualAids" "id"].

(** [dbInstance.objectStoreNames.contains(name)] *)
Definition containsStore (objectStoreNames : list string) (n : string) : bool :=
  existsb (String.eqb n) objectStoreNames.

(** The [onupgradeneeded] handler, on the names of the stores the
    database has: each store of [STORES] that is not there is created.
    The list keeps the stores in the order they were created; the
    handler only asks whether a name is there. *)
Definition onupgradeneeded (objectStoreNames : list string) : list string :=
  fold_left
    (fun names storeConfig =>
       if containsStore names (store_name storeConfig) then names
       else names ++ [store_name storeConfig])
    STORES objectStoreNames.

(** A cached promise; a rejected one is dropped by [onerror] at once. *)
Inductive PromiseStatus := Pending | Fulfilled.

(** The module variable [dbPromise], with the number of times
    [indexedDB.open] was called and of [onerror] events received. *)
Record DbModule := mkDbModule {
  dbPromise : option PromiseStatus;
  openCalls : nat;
  openErrors : nat
}.

Definition dbInitial : DbModule := mkDbModule None 0 0.

Definition openDB (m : DbModule) : DbModule :=
  match dbPromise m with
  | Some _ => m
  | None => mkDbModule (Some Pending) (S (openCalls m)) (openErrors m)
  end.

(** [reject(...); dbPromise = null] *)
Definition open_onerror (m : DbModule) : DbModule :=
  mkDbModule None (openCalls m) (S (openErrors m)).

(** [resolve(db)]: settles the promise if it is still pending. *)
Definition open_onsuccess (m : DbModule) : DbModule :=
  match dbPromise m with
  | Some Pending => mkDbModule (Some Fulfilled) (openCalls m) (openErrors m)
  | _ => m
  end.

Inductive DbEvent := CallOpenDB | OpenSucceeded | OpenFailed.

(** The platform reports the failure of an open request only while the
    request is pending, and the module has at most one at a time. *)
Definition dbStep (ev : DbEvent) (m : DbModule) : DbModule :=
  match ev with
  | CallOpenDB => openDB m
  | OpenSucceeded => open_onsuccess m
  | OpenFailed =>
      match dbPromise m with
      | Some Pending => open_onerror m
      | _ => m
      end
  end.

Definition dbRun (evs : list DbEvent) (m : DbModule) : DbModule :=
  fold_left (fun m ev => dbStep ev m) evs m.

(** ** [Whiteboard]: tabs, panes and the submit button *)

(** The fields of a [VisualAid] the component reads. *)
Record VisualAid := mkVisualAid {
  va_type : string;
  va_content : string;
  va_title : string
}.

Definition visualAid_eqb (a b : VisualAid) : bool :=
  String.eqb (va_type a) (va_type b) && String.eqb (va_content a) (va_content b) &&
  String.eqb (va_title a) (va_title b).

Inductive Tab := CODE | ANIMATION.

Record WhiteboardProps := mkWhiteboardProps {
  isEditable : bool;
  showSubmitButton : bool;
  displayCode : string;
  userCode : string;
  isLoading : bool;
  visualAid : option VisualAid;
  isVisualAidLoading : bool
}.

(** The component's own state together with the props of its last
    render. *)
Record Whiteboard := mkWhiteboard {
  props : WhiteboardProps;
  activeTab : Tab;
  isFlipped : bool;
  copied : bool;
  clipboard : list string
}.

(** [isEditable && userCode.trim() !== '' && !isLoading] *)
Definition isSubmittable (p : WhiteboardProps) : bool :=
  isEditable p && negb (String.eqb (trim (userCode p)) "") && negb (isLoading p).

(** [visualAid || isVisualAidLoading] *)
Definition hasVisual (p : WhiteboardProps) : bool :=
  match visualAid p with
  | Some _ => true
  | None => isVisualAidLoading p
  end.

(** The effect on [visualAid] and [isVisualAidLoading]. *)
Definition visualAidEffect (w : Whiteboard) : Whiteboard :=
  mkWhiteboard (props w) (if hasVisual (props w) then ANIMATION else CODE) false
               (copied w) (clipboard w).

(** First render with props [p], then its effect. *)
Definition mount (p : WhiteboardProps) : Whiteboard :=
  visualAidEffect (mkWhiteboard p CODE false false []).

(** A render with new props [p]: the state is the one the component
    had; the effect has not run yet. *)
Definition committed (p : WhiteboardProps) (w : Whiteboard) : Whiteboard :=
  mkWhiteboard p (activeTab w) (isFlipped w) (copied w) (clipboard w).

(** The flip and copy buttons are rendered. *)
Definition toolbarShown (w : Whiteboard) : bool :=
  match activeTab w, visualAid (props w) with
  | ANIMATION, Some _ => negb (isVisualAidLoading (props w))
  | _, _ => false
  end.

Inductive Pane :=
| CodePane (value : string) (readOnly : bool) (submitShown submitEnabled : bool)
| LoadingPane
| ThreeCanvasPane (sketchCode title : string) (flipped : bool)
| P5CanvasPane (sketchCode title : string) (flipped : bool)
| EmptyPane.

(** What is rendered below the tab bar. *)
Definition pane (w : Whiteboard) : Pane :=
  let p := props w in
  match activeTab w with
  | CODE =>
      CodePane (if isEditable p then userCode p else displayCode p)
               (negb (isEditable p)) (showSubmitButton p) (isSubmittable p)
  | ANIMATION =>
      if isVisualAidLoading p then LoadingPane
      else match visualAid p with
           | Some va =>
               if String.eqb (va_type va) "threejs"
               then ThreeCanvasPane (va_content va) (va_title va) (isFlipped w)
               else P5CanvasPane (va_content va) (va_title va) (isFlipped w)
           | None => EmptyPane
           end
  end.

(** [identityChanged] tells whether the new [visualAid] is another
    object than the one of the last render, which makes the effect run
    even when its content is the same. *)
Inductive WhiteboardEvent :=
| Render (p : WhiteboardProps) (identityChanged : bool)
| ClickCodeTab
| ClickAnimationTab
| ClickFlip
| ClickCopy
| CopiedTimeout.

Definition sameVisual (p q : WhiteboardProps) : bool :=
  option_eqb visualAid_eqb (visualAid p) (visualAid q) &&
  Bool.eqb (isVisualAidLoading p) (isVisualAidLoading q).

(** One event, up to the point where the component is at rest: a render
    with new props is followed by its effect when a dependency changed
    (the render in between is [committed p w]).  A button that is not
    rendered cannot be clicked. *)
Definition whiteboardStep (ev : WhiteboardEvent) (w : Whiteboard) : Whiteboard :=
  match ev with
  | Render p identityChanged =>
      if identityChanged || negb (sameVisual (props w) p)
      then visualAidEffect (committed p w) else committed p w
  | ClickCodeTab =>
      mkWhiteboard (props w) CODE (isFlipped w) (copied w) (clipboard w)
  | ClickAnimationTab =>
      if hasVisual (props w)
      then mkWhiteboard (props w) ANIMATION (isFlipped w) (copied w) (clipboard w)
      else w
  | ClickFlip =>
      if toolbarShown w
      then mkWhiteboard (props w) (activeTab w) (negb (isFlipped w)) (copied w) (clipboard w)
      else w
  | ClickCopy =>
      if toolbarShown w then
        match visualAid (props w) with
        | Some va =>
            if String.eqb (va_content va) "" then w
            else mkWhiteboard (props w) (activeTab w) (isFlipped w) true
                              (clipboard w ++ [va_content va])
        | None => w
        end
      else w
  | CopiedTimeout =>
      mkWhiteboard (props w) (activeTab w) (isFlipped w) false (clipboard w)
  end.

Definition whiteboardRun (evs : list WhiteboardEvent) (w : Whiteboard) : Whiteboard :=
  fold_left (fun w ev => whiteboardStep ev w) evs w.

(** ** Proof steps that recur *)

(** Reduces field reads through the setters and nothing else. *)
Ltac fields :=
  cbn [isMuted isSpeaking spokenText mouthShape utteranceQueue onEndCallback
       mouthShapeInterval voices log
       setIsMuted setIsSpeaking setSpokenText setMouthShape setUtteranceQueue
       setOnEndCallback setMouthShapeInterval setVoices record] in *.

(** Closes a goal of sums of [occ] once the singleton cases are split. *)
Ltac occ_arith :=
  unfold occ, stored, handleVoicesChanged; fields; cbn;
  repeat match goal with |- context [Nat.eq_dec ?a ?b] => destruct (Nat.eq_dec a b) end;
  lia.

(** Splits an invariant into its parts and closes those that follow
    from the old one, [I1] being its first part. *)
Ltac invariant_done I1 :=
  repeat split; intros;
  try solve [ assumption | reflexivity | discriminate | left; reflexivity | auto
            | apply I1; assumption
            | match goal with
              | H : isSpeaking _ = false |- _ =>
                  destruct (I1 H); solve [assumption | discriminate]
              end ].

(** ** Strings and lists: auxiliary facts *)

Lemma splitDashHead_prefix (s : string) : String.prefix (splitDashHead s) s = true.
Proof.
  induction s as [|c s IH]; simpl; [reflexivity|].
  destruct (Ascii.eqb c "-") eqn:E; simpl; [reflexivity|].
  destruct (ascii_dec c c) as [_|N]; [exact IH|congruence].
Qed.

Lemma exactMatch_is_candidate (target : string) (v : Voice) :
  exactMatch target v = true ->
  startsWith (vlang v) (splitDashHead target) = true.
Proof.
  unfold exactMatch, startsWith. intros H.
  apply String.eqb_eq in H. rewrite H. apply splitDashHead_prefix.
Qed.

Lemma find_filter_weaker {A} (p q : A -> bool) (l : list A) :
  (forall x, p x = true -> q x = true) ->
  find p (filter q l) = find p l.
Proof.
  intros Hpq. induction l as [|x l IH]; simpl; [reflexivity|].
  destruct (q x) eqn:Q; simpl.
  - destruct (p x); [reflexivity|exact IH].
  - destruct (p x) eqn:P; [|exact IH].
    apply Hpq in P. congruence.
Qed.

Lemma find_none_iff {A} (p : A -> bool) (l : list A) :
  find p l = None <-> forall x, In x l -> p x = false.
Proof.
  split.
  - intros H x Hx. exact (find_none p l H x Hx).
  - induction l as [|y l IH]; simpl; intros H; [reflexivity|].
    rewrite (H y (or_introl eq_refl)). apply IH.
    intros x Hx. apply H. right. exact Hx.
Qed.

Local Open Scope string_scope.

Lemma isWhiteSpace_In (s : string) : isWhiteSpace s = true <-> In s whiteSpace.
Proof.
  unfold isWhiteSpace. rewrite existsb_exists. split.
  - intros (w & Hw & E). apply String.eqb_eq in E. subst w. exact Hw.
  - intros H. exists s. split; [exact H|apply String.eqb_refl].
Qed.

Lemma append_empty_r (s : string) : s ++ "" = s.
Proof. induction s as [|c s IH]; [reflexivity|]. cbn. rewrite IH. reflexivity. Qed.

Lemma append_associative (a b c : string) : (a ++ b) ++ c = a ++ b ++ c.
Proof. induction a as [|x a IH]; [reflexivity|]. cbn. rewrite IH. reflexivity. Qed.

Lemma leadingWhiteSpace_sound (s r : string) :
  leadingWhiteSpace s = Some r -> exists w, In w whiteSpace /\ s = w ++ r.
Proof.
  unfold leadingWhiteSpace.
  destruct s as [|a s1]; [discriminate|].
  destruct (isWhiteSpace (String a "")) eqn:W1.
  { intros E. injection E as <-. exists (String a ""). split; [|reflexivity].
    apply isWhiteSpace_In. exact W1. }
  destruct s1 as [|b s2]; [discriminate|].
  destruct (isWhiteSpace (String a (String b ""))) eqn:W2.
  { intros E. injection E as <-. exists (String a (String b "")). split; [|reflexivity].
    apply isWhiteSpace_In. exact W2. }
  destruct s2 as [|c s3]; [discriminate|].
  destruct (isWhiteSpace (String a (String b (String c "")))) eqn:W3; [|discriminate].
  intros E. injection E as <-. exists (String a (String b (String c ""))).
  split; [|reflexivity]. apply isWhiteSpace_In. exact W3.
Qed.

Lemma leadingWhiteSpace_complete (w r : string) :
  In w whiteSpace -> leadingWhiteSpace (w ++ r) = Some r.
Proof.
  intros H. cbv [whiteSpace map utf8] in H. cbn in H.
  repeat (destruct H as [<-|H]; [reflexivity|]). destruct H.
Qed.

Lemma trimStart_step (s : string) :
  trimStart s = match leadingWhiteSpace s with
                | Some r => trimStart r
                | None => s
                end.
Proof.
  destruct s as [|a [|b [|c s]]]; cbn [trimStart leadingWhiteSpace]; try reflexivity.
  - destruct (isWhiteSpace (String a "")); reflexivity.
  - destruct (isWhiteSpace (String a "")); [reflexivity|].
    destruct (isWhiteSpace (String a (String b ""))); reflexivity.
  - destruct (isWhiteSpace (String a "")); [reflexivity|].
    destruct (isWhiteSpace (String a (String b ""))); [reflexivity|].
    destruct (isWhiteSpace (String a (String b (String c "")))); reflexivity.
Qed.

Lemma whiteSpace_not_empty (w : string) : In w whiteSpace -> w <> "".
Proof.
  intros H. cbv [whiteSpace map utf8] in H. cbn in H.
  repeat (destruct H as [<-|H]; [discriminate|]). destruct H.
Qed.

Lemma length_of_append (a b : string) :
  String.length (a ++ b) = String.length a + String.length b.
Proof. induction a as [|c a IH]; [reflexivity|]. cbn. rewrite IH. reflexivity. Qed.

Lemma leadingWhiteSpace_shorter (s r : string) :
  leadingWhiteSpace s = Some r -> String.length r < String.length s.
Proof.
  intros H. destruct (leadingWhiteSpace_sound s r H) as (w & Hw & ->).
  rewrite length_of_append. pose proof (whiteSpace_not_empty w Hw).
  destruct w; [congruence|]. cbn. lia.
Qed.

(** What [trimStart] takes off is white space, and what it leaves
    does not begin with white space. *)
Lemma trimStart_spec (s : string) :
  exists ws,
    OnlyWhiteSpace ws /\ s = ws ++ trimStart s /\ leadingWhiteSpace (trimStart s) = None.
Proof.
  remember (String.length s) as n eqn:N. revert s N.
  induction n as [n IH] using lt_wf_ind. intros s N.
  rewrite trimStart_step. destruct (leadingWhiteSpace s) as [r|] eqn:L.
  - destruct (leadingWhiteSpace_sound s r L) as (w & Hw & E).
    destruct (IH (String.length r)) with (s := r) as (ws & Hws & E' & L');
      [subst n; apply leadingWhiteSpace_shorter; exact L|reflexivity|].
    exists (w ++ ws). split; [constructor; assumption|]. split; [|exact L'].
    rewrite append_associative, <- E'. exact E.
  - exists "". split; [constructor|]. split; [reflexivity|exact L].
Qed.

Lemma trimStart_OnlyWhiteSpace (ws rest : string) :
  OnlyWhiteSpace ws -> trimStart (ws ++ rest) = trimStart rest.
Proof.
  induction 1 as [|w s Hw _ IH]; [reflexivity|].
  rewrite append_associative, trimStart_step, (leadingWhiteSpace_complete w _ Hw). exact IH.
Qed.

Lemma OnlyWhiteSpace_leading (s : string) :
  OnlyWhiteSpace s -> leadingWhiteSpace s = None -> s = "".
Proof.
  intros [|w r Hw _]; [reflexivity|].
  rewrite (leadingWhiteSpace_complete w r Hw). discriminate.
Qed.

(** What [trimEnd] takes off is white space, and what it leaves does
    not end with white space. *)
Lemma trimEnd_spec (s : string) :
  (exists ws, OnlyWhiteSpace ws /\ s = trimEnd s ++ ws) /\
  (forall x w, In w whiteSpace -> trimEnd s <> x ++ w).
Proof.
  induction s as [|c s [(ws & Hws & E) IH]].
  - split; [exists ""; split; [constructor|reflexivity]|].
    intros x w Hw E. destruct x; cbn in E; [|discriminate].
    exact (whiteSpace_not_empty w Hw (eq_sym E)).
  - cbn [trimEnd]. destruct (isWhiteSpace (String c (trimEnd s))) eqn:W.
    + split.
      * exists (String c (trimEnd s) ++ ws). split.
        -- constructor; [apply isWhiteSpace_In; exact W|exact Hws].
        -- cbn. rewrite <- E. reflexivity.
      * intros x w Hw E'. destruct x; cbn in E'; [|discriminate].
        exact (whiteSpace_not_empty w Hw (eq_sym E')).
    + split.
      * exists ws. split; [exact Hws|]. cbn. rewrite <- E. reflexivity.
      * intros x w Hw E'. destruct x as [|d x]; cbn in E'.
        -- rewrite E' in W. apply isWhiteSpace_In in Hw. congruence.
        -- injection E' as -> E'. exact (IH x w Hw E').
Qed.

(** [trim] leaves nothing exactly of the strings made of white space. *)
Lemma trim_empty_iff (s : string) : trim s = "" <-> OnlyWhiteSpace s.
Proof.
  unfold trim. split.
  - intros E.
    destruct (trimStart_spec s) as (ws & Hws & Es & L).
    destruct (proj1 (trimEnd_spec (trimStart s))) as (ws' & Hws' & E').
    rewrite E in E'. cbn in E'.
    assert (T : trimStart s = "").
    { apply OnlyWhiteSpace_leading; [rewrite E'; exact Hws'|exact L]. }
    rewrite T, append_empty_r in Es. rewrite Es. exact Hws.
  - intros H. rewrite <- (append_empty_r s), (trimStart_OnlyWhiteSpace s "" H). reflexivity.
Qed.

Lemma allWhitespace_iff (s : string) : allWhitespace s = true <-> OnlyWhiteSpace s.
Proof.
  unfold allWhitespace. rewrite String.eqb_eq. split.
  - intros T. destruct (trimStart_spec s) as (ws & Hws & Es & _).
    rewrite T, append_empty_r in Es. rewrite Es. exact Hws.
  - intros H. rewrite <- (append_empty_r s), (trimStart_OnlyWhiteSpace s "" H). reflexivity.
Qed.

Lemma hasText_trim (t : string) : hasText t = negb (String.eqb (trim t) "").
Proof.
  unfold hasText. destruct t as [|c r]; [reflexivity|].
  cbn [String.eqb negb andb].
  destruct (trim (String c r)); reflexivity.
Qed.

(** A text survives normalization exactly when it is not made of white
    space only; the empty text is. *)
Lemma hasText_iff (t : string) : hasText t = true <-> ~ OnlyWhiteSpace t.
Proof.
  rewrite hasText_trim, negb_true_iff, <- trim_empty_iff.
  destruct (String.eqb_spec (trim t) ""); split; congruence.
Qed.

Lemma OnlyWhiteSpace_bytes (s : string) :
  OnlyWhiteSpace s -> forall c, In c (list_ascii_of_string s) -> whiteSpaceByte c = true.
Proof.
  induction 1 as [|w s Hw _ IH]; intros c Hc; [destruct Hc|].
  assert (A : forall a b, list_ascii_of_string (a ++ b)
                          = (list_ascii_of_string a ++ list_ascii_of_string b)%list).
  { intros a b. induction a as [|x a IHa]; [reflexivity|]. cbn. rewrite IHa. reflexivity. }
  rewrite A in Hc. apply in_app_or in Hc. destruct Hc as [Hc|Hc]; [|exact (IH c Hc)].
  unfold whiteSpaceByte. apply existsb_exists. exists w. split; [exact Hw|].
  apply existsb_exists. exists c. split; [exact Hc|apply Ascii.eqb_refl].
Qed.

Local Open Scope list_scope.

(** ** Voice selection *)

(** C3, as amended.  With no gender hint the selected voice is the first
    voice of the primary-subtag candidates whose locale equals the
    target, which is also the first such voice of the whole catalog; a
    selected voice is always a candidate with exactly the target locale;
    and no voice is selected (platform default) exactly when no
    candidate has the target locale, whether or not there are
    candidates. *)
Theorem bestVoice_without_gender (vs : list Voice) (target : string) :
  bestVoice vs target None = find (exactMatch target) (voiceCandidates vs target) /\
  bestVoice vs target None = find (exactMatch target) vs /\
  (forall v, bestVoice vs target None = Some v ->
             In v (voiceCandidates vs target) /\ vlang v = target) /\
  (bestVoice vs target None = None <->
   forall v, In v (voiceCandidates vs target) -> vlang v <> target).
Proof.
  assert (E : bestVoice vs target None =
              find (exactMatch target) (voiceCandidates vs target)) by reflexivity.
  split; [exact E|]. split; [|split].
  - rewrite E. unfold voiceCandidates.
    apply find_filter_weaker. apply exactMatch_is_candidate.
  - intros v Hv. rewrite E in Hv. apply find_some in Hv.
    destruct Hv as [Hin Hex]. split; [exact Hin|].
    apply String.eqb_eq. exact Hex.
  - rewrite E, find_none_iff. unfold exactMatch. split.
    + intros H v Hin Heq. specialize (H v Hin).
      apply String.eqb_neq in H. contradiction.
    + intros H v Hin. apply String.eqb_neq. exact (H v Hin).
Qed.

(** C3, counterexample.  One en-GB voice and target en-US: the candidate
    set is not empty, yet no voice is selected, where the rule "else the
    first candidate" would select the en-GB voice. *)
Lemma no_first_candidate_fallback :
  voiceCandidates [mkVoice "A" "en-GB"] "en-US" = [mkVoice "A" "en-GB"] /\
  bestVoice [mkVoice "A" "en-GB"] "en-US" None = None /\
  bestVoice_exact_else_first [mkVoice "A" "en-GB"] "en-US" = Some (mkVoice "A" "en-GB") /\
  ~ (forall vs target,
       bestVoice vs target None = bestVoice_exact_else_first vs target).
Proof.
  split; [reflexivity|]. split; [reflexivity|]. split; [reflexivity|].
  intros H. specialize (H [mkVoice "A" "en-GB"] "en-US"). discriminate H.
Qed.

(** C4, as amended.  For an en-GB voice A and an en-US voice B:
    selecting en-US with no hint returns B; selecting en-GB with the
    hint "female" returns B whenever B's name (lower-cased) contains
    "female" and A's does not, because the hint narrows the whole
    primary-subtag candidate set before the locale is compared; the hint
    is dropped and A returned only when it is in neither name, and A is
    returned as well when the hint is in A's own name. *)
Theorem gender_hint_precedence (nameA nameB : string) :
  bestVoice [mkVoice nameA "en-GB"; mkVoice nameB "en-US"] "en-US" None
    = Some (mkVoice nameB "en-US") /\
  bestVoice [mkVoice nameA "en-GB"; mkVoice nameB "en-US"] "en-GB" (Some female)
    = Some (if negb (includes (toLowerCase nameA) "female") &&
               includes (toLowerCase nameB) "female"
            then mkVoice nameB "en-US"
            else mkVoice nameA "en-GB").
Proof.
  split; [reflexivity|].
  unfold bestVoice, genderFiltered, voiceCandidates. cbn [genderWord].
  change (filter (fun v => startsWith (vlang v) (splitDashHead "en-GB"))
                 [mkVoice nameA "en-GB"; mkVoice nameB "en-US"])
    with [mkVoice nameA "en-GB"; mkVoice nameB "en-US"].
  cbn [filter name].
  destruct (includes (toLowerCase nameA) "female");
    destruct (includes (toLowerCase nameB) "female"); reflexivity.
Qed.

(** C4, counterexample.  On the example catalog, en-US without a hint
    selects B as stated, but en-GB with the hint "female" selects B, not
    A: B carries the gender word and shares the primary subtag "en". *)
Lemma gender_hint_beats_exact_locale :
  bestVoice exampleCatalog "en-US" None = Some (voiceOf descriptorB) /\
  bestVoice exampleCatalog "en-GB" (Some female) = Some (voiceOf descriptorB) /\
  bestVoice exampleCatalog "en-GB" (Some female) <> Some (voiceOf descriptorA).
Proof.
  split; [reflexivity|]. split; [reflexivity|]. discriminate.
Qed.

(** ** The log: auxiliary facts *)

Lemma invoked_app (l l' : list LogEntry) :
  invoked (l ++ l') = invoked l ++ invoked l'.
Proof.
  induction l as [|e l IH]; simpl; [reflexivity|].
  destruct e; simpl; congruence.
Qed.

Lemma invoked_onEndLog (onEnd : option Callback) :
  invoked (onEndLog onEnd) = match onEnd with Some cb => [cb] | None => [] end.
Proof. destruct onEnd; reflexivity. Qed.

Lemma voice_eqb_eq (a b : Voice) : voice_eqb a b = true <-> a = b.
Proof.
  unfold voice_eqb. destruct a as [n1 l1], b as [n2 l2]. cbn [name vlang].
  rewrite andb_true_iff, !String.eqb_eq. split; [intros [-> ->]; reflexivity|].
  intros H; inversion H; split; reflexivity.
Qed.

Lemma utterance_eqb_eq (a b : Utterance) : utterance_eqb a b = true <-> a = b.
Proof.
  unfold utterance_eqb. destruct a as [t1 l1 v1], b as [t2 l2 v2].
  cbn [utext ulang uvoice].
  rewrite !andb_true_iff, !String.eqb_eq. split.
  - intros [[-> ->] H]. destruct v1 as [v1|], v2 as [v2|]; cbn in H; try discriminate.
    + apply voice_eqb_eq in H. subst. reflexivity.
    + reflexivity.
  - intros H; inversion H; subst. repeat split.
    destruct v2 as [v2|]; cbn; [apply voice_eqb_eq|]; reflexivity.
Qed.

Lemma utterance_eqb_refl (u : Utterance) : utterance_eqb u u = true.
Proof. apply utterance_eqb_eq. reflexivity. Qed.

Lemma inFlight_app (l l' : list LogEntry) :
  inFlight (l ++ l') = fold_left inFlightStep l' (inFlight l).
Proof. unfold inFlight. apply fold_left_app. Qed.

Lemma sequentialFrom_app (l l' : list LogEntry) (open : option Utterance) :
  sequentialFrom open (l ++ l') =
  sequentialFrom open l && sequentialFrom (fold_left inFlightStep l open) l'.
Proof.
  revert open. induction l as [|e l IH]; intros open; [reflexivity|].
  destruct e as [u| |cb|u]; cbn [app sequentialFrom fold_left]; try apply IH.
  destruct open; [reflexivity|]. apply IH.
Qed.

Lemma played_app (us us' : list Utterance) : played (us ++ us') = played us ++ played us'.
Proof. unfold played. apply flat_map_app. Qed.

Lemma played_closed (us : list Utterance) :
  fold_left inFlightStep (played us) None = None /\
  sequentialFrom None (played us) = true.
Proof.
  induction us as [|u us [IH1 IH2]]; [split; reflexivity|].
  cbn [played flat_map app fold_left sequentialFrom inFlightStep].
  rewrite utterance_eqb_refl. split; assumption.
Qed.

Lemma firstn_succ_nth {A} (l : list A) (j : nat) (d : A) :
  j < List.length l -> firstn (S j) l = firstn j l ++ [nth j l d].
Proof.
  revert j. induction l as [|x l IH]; intros j H; cbn in H; [lia|].
  destruct j; [reflexivity|]. cbn [firstn nth app]. f_equal. apply IH. lia.
Qed.

Lemma skipn_cons_nth {A} (l : list A) (j : nat) (d : A) :
  j < List.length l -> skipn j l = nth j l d :: skipn (S j) l.
Proof.
  revert j. induction l as [|x l IH]; intros j H; cbn in H; [lia|].
  destruct j; [reflexivity|]. cbn [skipn nth]. apply IH. lia.
Qed.

Lemma invokeIfProvided_fields (onEnd : option Callback) (st : State) :
  isMuted (invokeIfProvided onEnd st) = isMuted st /\
  isSpeaking (invokeIfProvided onEnd st) = isSpeaking st /\
  spokenText (invokeIfProvided onEnd st) = spokenText st /\
  mouthShape (invokeIfProvided onEnd st) = mouthShape st /\
  utteranceQueue (invokeIfProvided onEnd st) = utteranceQueue st /\
  onEndCallback (invokeIfProvided onEnd st) = onEndCallback st /\
  mouthShapeInterval (invokeIfProvided onEnd st) = mouthShapeInterval st.
Proof. destruct onEnd; repeat split. Qed.

(** ** The handlers, one by one *)

Section Properties.

Variable Language : Type.
Variable bcp47LanguageMap : Language -> string.
Variable globalLanguage : Language.
Variable hasSpeechSynthesis : bool.

Local Abbreviation speak' := (speak Language bcp47LanguageMap globalLanguage hasSpeechSynthesis).
Local Abbreviation speakFrom' :=
  (speakFrom Language bcp47LanguageMap globalLanguage hasSpeechSynthesis).
Local Abbreviation call' := (call Language bcp47LanguageMap globalLanguage hasSpeechSynthesis).
Local Abbreviation calls' := (calls Language bcp47LanguageMap globalLanguage hasSpeechSynthesis).
Local Abbreviation act' := (act Language bcp47LanguageMap globalLanguage hasSpeechSynthesis).
Local Abbreviation perform' :=
  (perform Language bcp47LanguageMap globalLanguage hasSpeechSynthesis).
Local Abbreviation step' := (step Language bcp47LanguageMap globalLanguage hasSpeechSynthesis).
Local Abbreviation run' := (run Language bcp47LanguageMap globalLanguage hasSpeechSynthesis).
Local Abbreviation normalize' := (normalize Language globalLanguage).
Local Abbreviation requestSegments' := (requestSegments Language globalLanguage).
Local Abbreviation makeUtterance' := (makeUtterance Language bcp47LanguageMap).
Local Abbreviation requestUtterances' :=
  (requestUtterances Language bcp47LanguageMap globalLanguage).
Local Abbreviation cancel' := (cancel hasSpeechSynthesis).
Local Abbreviation toggleMute' := (toggleMute hasSpeechSynthesis).
Local Abbreviation speakSucceeds' := (speakSucceeds Language globalLanguage hasSpeechSynthesis).
Local Abbreviation undisturbed' :=
  (undisturbed Language bcp47LanguageMap globalLanguage hasSpeechSynthesis).

Lemma invokeIfProvided_log onEnd st :
  log (invokeIfProvided onEnd st) = log st ++ onEndLog onEnd.
Proof. destruct onEnd; simpl; [reflexivity|]. rewrite app_nil_r. reflexivity. Qed.

Lemma cancel_fields st :
  isMuted (cancel' st) = isMuted st /\
  isSpeaking (cancel' st) = false /\
  spokenText (cancel' st) = spokenText st /\
  mouthShape (cancel' st) = "X" /\
  utteranceQueue (cancel' st) = [] /\
  onEndCallback (cancel' st) = None /\
  mouthShapeInterval (cancel' st) = None /\
  voices (cancel' st) = voices st /\
  log (cancel' st) = log st ++ (if hasSpeechSynthesis then [SynthCancel] else []).
Proof.
  unfold cancel, clearMouthShapeInterval. cbn [setOnEndCallback setUtteranceQueue mouthShapeInterval].
  destruct hasSpeechSynthesis, (mouthShapeInterval st) eqn:E; simpl;
    rewrite ?E, ?app_nil_r; repeat split; reflexivity.
Qed.

Lemma processQueue_cases st :
  match utteranceQueue st with
  | u :: rest =>
      isSpeaking (processQueue st) = isSpeaking st /\
      mouthShape (processQueue st) = mouthShape st /\
      utteranceQueue (processQueue st) = rest /\
      onEndCallback (processQueue st) = onEndCallback st /\
      mouthShapeInterval (processQueue st) = mouthShapeInterval st /\
      log (processQueue st) = log st ++ [SynthSpeak u]
  | [] =>
      isSpeaking (processQueue st) = false /\
      mouthShape (processQueue st) = "X" /\
      utteranceQueue (processQueue st) = [] /\
      onEndCallback (processQueue st) = None /\
      mouthShapeInterval (processQueue st) = None /\
      log (processQueue st) = log st ++ onEndLog (onEndCallback st)
  end /\
  isMuted (processQueue st) = isMuted st /\
  spokenText (processQueue st) = spokenText st /\
  voices (processQueue st) = voices st.
Proof.
  unfold processQueue, processQueueWith, clearMouthShapeInterval.
  destruct (utteranceQueue st) eqn:Q.
  - cbn [setIsSpeaking setMouthShape mouthShapeInterval].
    destruct (mouthShapeInterval st) eqn:I, (onEndCallback st) eqn:C; simpl;
      rewrite ?C, ?app_nil_r; simpl; rewrite ?Q, ?C, ?I; repeat split; reflexivity.
  - simpl. repeat split; reflexivity.
Qed.

(** The guard of [speak], taken because the render that created it
    was muted or because the platform is missing. *)
Lemma speakFrom_rejected r t onEnd lg speaking st :
  captured_isMuted r = true \/ hasSpeechSynthesis = false ->
  speakFrom' r t onEnd lg speaking st = invokeIfProvided onEnd st /\
  log (speakFrom' r t onEnd lg speaking st) = log st ++ onEndLog onEnd /\
  isSpeaking (speakFrom' r t onEnd lg speaking st) = isSpeaking st /\
  mouthShape (speakFrom' r t onEnd lg speaking st) = mouthShape st /\
  spokenText (speakFrom' r t onEnd lg speaking st) = spokenText st /\
  utteranceQueue (speakFrom' r t onEnd lg speaking st) = utteranceQueue st /\
  onEndCallback (speakFrom' r t onEnd lg speaking st) = onEndCallback st.
Proof.
  intros G.
  assert (E : speakFrom' r t onEnd lg speaking st = invokeIfProvided onEnd st).
  { unfold speakFrom. destruct G as [-> | ->]; [reflexivity|].
    rewrite orb_true_r. reflexivity. }
  rewrite E. split; [reflexivity|]. split; [apply invokeIfProvided_log|].
  destruct onEnd; repeat split; reflexivity.
Qed.

Lemma speak_muted_fields t onEnd lg speaking st :
  isMuted st = true ->
  speak' t onEnd lg speaking st = invokeIfProvided onEnd st /\
  log (speak' t onEnd lg speaking st) = log st ++ onEndLog onEnd /\
  isSpeaking (speak' t onEnd lg speaking st) = isSpeaking st /\
  mouthShape (speak' t onEnd lg speaking st) = mouthShape st /\
  spokenText (speak' t onEnd lg speaking st) = spokenText st /\
  utteranceQueue (speak' t onEnd lg speaking st) = utteranceQueue st /\
  onEndCallback (speak' t onEnd lg speaking st) = onEndCallback st.
Proof.
  intros M. apply (speakFrom_rejected (lastRender st)). left. exact M.
Qed.

(** C5, as amended.  The guard of [speak] reads the [isMuted] of the
    render that created the [speak] that is called.  When that render
    was muted, the call does nothing but run the [onEnd] it was given,
    before it returns: [isSpeaking], [mouthShape], [spokenText], the
    queue and the stored callback are left as they were and nothing
    reaches the platform.  While [isMuted] is true the [speak] of the
    latest render is such a [speak]. *)
Theorem speak_while_muted r t onEnd lg speaking st :
  captured_isMuted r = true ->
  speakFrom' r t onEnd lg speaking st = invokeIfProvided onEnd st /\
  log (speakFrom' r t onEnd lg speaking st) = log st ++ onEndLog onEnd /\
  isSpeaking (speakFrom' r t onEnd lg speaking st) = isSpeaking st /\
  mouthShape (speakFrom' r t onEnd lg speaking st) = mouthShape st /\
  spokenText (speakFrom' r t onEnd lg speaking st) = spokenText st /\
  utteranceQueue (speakFrom' r t onEnd lg speaking st) = utteranceQueue st /\
  onEndCallback (speakFrom' r t onEnd lg speaking st) = onEndCallback st /\
  (isMuted st = true ->
   speak' t onEnd lg speaking st = speakFrom' r t onEnd lg speaking st).
Proof.
  intros M.
  destruct (speakFrom_rejected r t onEnd lg speaking st (or_introl M))
    as (E & L & S & Sh & T & Q & C).
  repeat (split; [assumption|]).
  intros M'. rewrite E. apply speak_muted_fields. exact M'.
Qed.

(** C6.  A second [cancel] leaves [isSpeaking], [mouthShape],
    [spokenText], [isMuted], the queue, the stored callback and the
    interval handle as the first one left them; and on an idle engine
    (not speaking, neutral mouth) [cancel] changes none of the four
    observable fields. *)
Theorem cancel_idempotent st :
  (observable (cancel' (cancel' st)) = observable (cancel' st) /\
   utteranceQueue (cancel' (cancel' st)) = utteranceQueue (cancel' st) /\
   onEndCallback (cancel' (cancel' st)) = onEndCallback (cancel' st) /\
   mouthShapeInterval (cancel' (cancel' st)) = mouthShapeInterval (cancel' st) /\
   invoked (log (cancel' (cancel' st))) = invoked (log (cancel' st))) /\
  (isSpeaking st = false -> mouthShape st = "X" ->
   observable (cancel' st) = observable st).
Proof.
  pose proof (cancel_fields st) as
    (M & S & T & Sh & Q & C & I & _ & L).
  pose proof (cancel_fields (cancel' st)) as
    (M2 & S2 & T2 & Sh2 & Q2 & C2 & I2 & _ & L2).
  split.
  - unfold observable. rewrite M2, S2, T2, Sh2, Q2, C2, I2, S, Sh, Q, C, I, L2.
    repeat split.
    rewrite invoked_app.
    destruct hasSpeechSynthesis; simpl; rewrite app_nil_r; reflexivity.
  - intros Hs Hm. unfold observable. rewrite M, S, T, Sh, Hs, Hm. reflexivity.
Qed.

(** C8.  The error handler of a unit does exactly what its end handler
    does.  With a unit still queued, it hands that unit to the
    platform and keeps the rest of the queue, [isSpeaking], the stored
    callback and [spokenText]; no callback runs, and the error value
    reaches neither state nor caller. *)
Theorem error_is_treated_as_end u e st :
  utterance_onerror e st = utterance_onend st /\
  step' (OnError u e) st = step' (OnEnd u) st /\
  (forall next rest,
     utteranceQueue st = next :: rest ->
     utteranceQueue (step' (OnError u e) st) = rest /\
     log (step' (OnError u e) st) = log st ++ [Completed u; SynthSpeak next] /\
     invoked (log (step' (OnError u e) st)) = invoked (log st) /\
     isSpeaking (step' (OnError u e) st) = isSpeaking st /\
     mouthShape (step' (OnError u e) st) = mouthShape st /\
     spokenText (step' (OnError u e) st) = spokenText st /\
     onEndCallback (step' (OnError u e) st) = onEndCallback st).
Proof.
  split; [reflexivity|]. split; [reflexivity|].
  intros next rest Q. cbn [step]. unfold utterance_onerror.
  pose proof (processQueue_cases (record (Completed u) st)) as [H [_ [T _]]].
  cbn [record utteranceQueue] in H. rewrite Q in H.
  destruct H as (S & Sh & Q' & C & _ & L).
  rewrite Q', L, S, Sh, T, C. cbn [record log isSpeaking mouthShape spokenText onEndCallback].
  rewrite <- app_assoc, !invoked_app, app_nil_r. repeat split.
Qed.

Lemma speakFrom_guard_open r t onEnd lg speaking st :
  captured_isMuted r = false -> hasSpeechSynthesis = true ->
  speakFrom' r t onEnd lg speaking st =
  match normalize' t lg with
  | [] => invokeIfProvided onEnd (cancel' st)
  | _ :: _ =>
      let st1 := setUtteranceQueue
                   (map (makeUtterance' (captured_voices r) lg) (normalize' t lg))
                   (setOnEndCallback onEnd
                      (setMouthShape "A"
                         (setIsSpeaking true
                            (setSpokenText (joinSpace (map text (normalize' t lg)))
                                           (cancel' st))))) in
      if speaking then st1 else processQueue st1
  end.
Proof.
  intros M A. unfold speakFrom. rewrite M, A. cbn [orb negb].
  destruct (normalize' t lg) as [|s segs] eqn:N; [reflexivity|].
  pose proof (cancel_fields st) as (_ & _ & _ & _ & Q & _).
  rewrite A in Q. cbn zeta.
  cbn [utteranceQueue setOnEndCallback setMouthShape setIsSpeaking setSpokenText].
  rewrite Q. cbn [app]. destruct speaking; reflexivity.
Qed.

Lemma speak_guard_open t onEnd lg speaking st :
  isMuted st = false -> hasSpeechSynthesis = true ->
  speak' t onEnd lg speaking st =
  match normalize' t lg with
  | [] => invokeIfProvided onEnd (cancel' st)
  | _ :: _ =>
      let st1 := setUtteranceQueue
                   (map (makeUtterance' (voices st) lg) (normalize' t lg))
                   (setOnEndCallback onEnd
                      (setMouthShape "A"
                         (setIsSpeaking true
                            (setSpokenText (joinSpace (map text (normalize' t lg)))
                                           (cancel' st))))) in
      if speaking then st1 else processQueue st1
  end.
Proof. exact (speakFrom_guard_open (lastRender st) t onEnd lg speaking st). Qed.

(** What a call that gets past the guard with at least one segment
    left leaves behind. *)
Lemma speakFrom_success_fields r t onEnd lg speaking st s segs :
  captured_isMuted r = false -> hasSpeechSynthesis = true ->
  normalize' t lg = s :: segs ->
  let st' := speakFrom' r t onEnd lg speaking st in
  isMuted st' = isMuted st /\
  isSpeaking st' = true /\
  spokenText st' = joinSpace (map text (s :: segs)) /\
  mouthShape st' = "A" /\
  onEndCallback st' = onEnd /\
  mouthShapeInterval st' = None /\
  voices st' = voices st /\
  utteranceQueue st' =
    (if speaking
     then makeUtterance' (captured_voices r) lg s
            :: map (makeUtterance' (captured_voices r) lg) segs
     else map (makeUtterance' (captured_voices r) lg) segs) /\
  log st' = log st ++ SynthCancel ::
    (if speaking then [] else [SynthSpeak (makeUtterance' (captured_voices r) lg s)]).
Proof.
  intros M A N st'. subst st'. rewrite (speakFrom_guard_open _ _ _ _ _ _ M A), N.
  pose proof (cancel_fields st) as (M' & _ & _ & _ & _ & _ & I & V & L).
  rewrite A in *.
  destruct speaking.
  - fields. rewrite M', I, V, L. repeat split.
  - unfold processQueue, processQueueWith. fields. cbn [map]. fields.
    rewrite M', I, V, L, <- app_assoc. repeat split.
Qed.

Lemma speak_success_fields t onEnd lg speaking st s segs :
  isMuted st = false -> hasSpeechSynthesis = true ->
  normalize' t lg = s :: segs ->
  let st' := speak' t onEnd lg speaking st in
  isMuted st' = false /\
  isSpeaking st' = true /\
  spokenText st' = joinSpace (map text (s :: segs)) /\
  mouthShape st' = "A" /\
  onEndCallback st' = onEnd /\
  mouthShapeInterval st' = None /\
  voices st' = voices st /\
  utteranceQueue st' =
    (if speaking
     then makeUtterance' (voices st) lg s :: map (makeUtterance' (voices st) lg) segs
     else map (makeUtterance' (voices st) lg) segs) /\
  log st' = log st ++ SynthCancel ::
    (if speaking then [] else [SynthSpeak (makeUtterance' (voices st) lg s)]).
Proof.
  intros M A N.
  pose proof (speakFrom_success_fields (lastRender st) t onEnd lg speaking st s segs M A N)
    as H.
  cbn zeta in *. rewrite <- M at 1. exact H.
Qed.

(** A call that got past the guard and has no segment left. *)
Lemma speakFrom_nothing_left r t onEnd lg speaking st :
  captured_isMuted r = false -> hasSpeechSynthesis = true -> normalize' t lg = [] ->
  speakFrom' r t onEnd lg speaking st = invokeIfProvided onEnd (cancel' st) /\
  log (speakFrom' r t onEnd lg speaking st) = log st ++ SynthCancel :: onEndLog onEnd /\
  spokenText (speakFrom' r t onEnd lg speaking st) = spokenText st /\
  isSpeaking (speakFrom' r t onEnd lg speaking st) = false /\
  mouthShape (speakFrom' r t onEnd lg speaking st) = "X" /\
  utteranceQueue (speakFrom' r t onEnd lg speaking st) = [] /\
  onEndCallback (speakFrom' r t onEnd lg speaking st) = None.
Proof.
  intros M A N. rewrite (speakFrom_guard_open _ _ _ _ _ _ M A), N.
  pose proof (cancel_fields st) as (_ & S & T & Sh & Q & C & _ & _ & L).
  rewrite A in *.
  split; [reflexivity|]. rewrite invokeIfProvided_log, L, <- app_assoc.
  split; [reflexivity|].
  destruct onEnd; cbn [invokeIfProvided]; fields; rewrite S, T, Sh, Q, C; repeat split.
Qed.

Lemma speak_nothing_left t onEnd lg speaking st :
  isMuted st = false -> hasSpeechSynthesis = true -> normalize' t lg = [] ->
  speak' t onEnd lg speaking st = invokeIfProvided onEnd (cancel' st) /\
  log (speak' t onEnd lg speaking st) = log st ++ SynthCancel :: onEndLog onEnd /\
  spokenText (speak' t onEnd lg speaking st) = spokenText st /\
  isSpeaking (speak' t onEnd lg speaking st) = false /\
  mouthShape (speak' t onEnd lg speaking st) = "X" /\
  utteranceQueue (speak' t onEnd lg speaking st) = [] /\
  onEndCallback (speak' t onEnd lg speaking st) = None.
Proof. exact (speakFrom_nothing_left (lastRender st) t onEnd lg speaking st). Qed.

(** C9, as amended.  The segments [speak] works with are those of the
    request whose text is not made of white space only (the empty text
    is), in their original order.  A call that gets past the guard
    runs [cancel] before it normalizes.  When no segment is left, it
    has done that [cancel], runs the [onEnd] it was given before
    returning, and sets nothing else: [spokenText] is as before,
    [isSpeaking] is false, [mouthShape] is the neutral "X", nothing is
    queued or stored, and no unit reaches the platform; on an engine
    that was not speaking and had the neutral mouth, nothing the hook
    returns has changed. *)
Theorem speak_drops_blank_segments r t onEnd lg speaking st :
  normalize' t lg = filter (fun s => hasText (text s)) (requestSegments' t lg) /\
  (forall s, In s (normalize' t lg) <->
             In s (requestSegments' t lg) /\ ~ OnlyWhiteSpace (text s)) /\
  (captured_isMuted r = false -> hasSpeechSynthesis = true -> normalize' t lg = [] ->
   speakFrom' r t onEnd lg speaking st = invokeIfProvided onEnd (cancel' st) /\
   log (speakFrom' r t onEnd lg speaking st) = log st ++ SynthCancel :: onEndLog onEnd /\
   spokenText (speakFrom' r t onEnd lg speaking st) = spokenText st /\
   isSpeaking (speakFrom' r t onEnd lg speaking st) = false /\
   mouthShape (speakFrom' r t onEnd lg speaking st) = "X" /\
   utteranceQueue (speakFrom' r t onEnd lg speaking st) = [] /\
   onEndCallback (speakFrom' r t onEnd lg speaking st) = None /\
   (isSpeaking st = false -> mouthShape st = "X" ->
    observable (speakFrom' r t onEnd lg speaking st) = observable st)).
Proof.
  split; [reflexivity|]. split.
  - intros s. unfold normalize. rewrite filter_In, hasText_iff. reflexivity.
  - intros M A N.
    destruct (speakFrom_nothing_left r t onEnd lg speaking st M A N)
      as (E & L & T & S & Sh & Q & C).
    repeat (split; [assumption|]).
    intros S0 Sh0. unfold observable. rewrite T, S, Sh, S0, Sh0, E.
    destruct (invokeIfProvided_fields onEnd (cancel' st)) as (-> & _).
    destruct (cancel_fields st) as (-> & _). reflexivity.
Qed.

Lemma toggleMute_spokenText st : spokenText (toggleMute' st) = spokenText st.
Proof.
  unfold toggleMute. destruct (negb (isMuted st)); cbn; [|reflexivity].
  apply cancel_fields.
Qed.

Lemma step_spokenText ev st :
  spokenText (step' ev st) =
  match ev with
  | Speak t _ lg _ =>
      if speakSucceeds' t lg st
      then joinSpace (map text (normalize' t lg))
      else spokenText st
  | _ => spokenText st
  end.
Proof.
  destruct ev as [t onEnd lg speaking| | | |vs|u timer|u|u e|timer r]; cbn [step].
  - unfold speakSucceeds.
    destruct (isMuted st) eqn:M.
    { cbn. apply (speak_muted_fields t onEnd lg speaking st M). }
    destruct hasSpeechSynthesis eqn:A.
    2:{ unfold speak, speakFrom. cbn [lastRender captured_isMuted]. rewrite M. cbn. destruct onEnd; reflexivity. }
    cbn [negb andb].
    destruct (normalize' t lg) as [|s segs] eqn:N.
    + pose proof (speak_nothing_left t onEnd lg speaking st) as H.
      rewrite A in H. apply (H M eq_refl N).
    + pose proof (speak_success_fields t onEnd lg speaking st s segs M) as H.
      rewrite A in H. apply (H eq_refl N).
  - apply cancel_fields.
  - apply toggleMute_spokenText.
  - apply cancel_fields.
  - reflexivity.
  - unfold utterance_onstart, clearMouthShapeInterval.
    destruct (mouthShapeInterval st); reflexivity.
  - unfold utterance_onend.
    pose proof (processQueue_cases (record (Completed u) st)) as [_ [_ [T _]]].
    exact T.
  - unfold utterance_onerror.
    pose proof (processQueue_cases (record (Completed u) st)) as [_ [_ [T _]]].
    exact T.
  - unfold interval_tick. destruct (mouthShapeInterval st) as [t|]; [|reflexivity].
    destruct (Nat.eqb t timer); reflexivity.
Qed.

(** C10.  [cancel], [processQueue] (whether it advances or drains),
    [toggleMute] and every platform callback leave [spokenText] as it
    is; the only event that changes it is a call to [speak] that gets
    past the guard with at least one segment left, which sets it to
    the space-joined text of those segments; so it survives any run of
    events that holds no call to [speak]. *)
Theorem spokenText_only_set_by_speak :
  (forall st, spokenText (cancel' st) = spokenText st) /\
  (forall st, spokenText (processQueue st) = spokenText st) /\
  (forall st, spokenText (toggleMute' st) = spokenText st) /\
  (forall ev st,
     spokenText (step' ev st) =
     match ev with
     | Speak t _ lg _ =>
         if speakSucceeds' t lg st
         then joinSpace (map text (normalize' t lg))
         else spokenText st
     | _ => spokenText st
     end) /\
  (forall evs st,
     forallb (fun ev => negb (isSpeakCall ev)) evs = true ->
     spokenText (run' evs st) = spokenText st).
Proof.
  split; [intros st; apply cancel_fields|].
  split; [intros st; apply processQueue_cases|].
  split; [exact toggleMute_spokenText|].
  split; [exact step_spokenText|].
  induction evs as [|ev evs IH]; intros st H; [reflexivity|].
  cbn [forallb] in H. apply andb_true_iff in H. destruct H as [Hev Hevs].
  cbn [run]. rewrite (IH _ Hevs), step_spokenText.
  destruct ev; try reflexivity. discriminate Hev.
Qed.

(** *** Callbacks along a run *)

Lemma toggleMute_unfold st :
  toggleMute' st =
  if isMuted st then setIsMuted false st else setIsMuted true (cancel' st).
Proof. unfold toggleMute. destruct (isMuted st); reflexivity. Qed.

Lemma occ_app c l l' : occ c (l ++ l') = occ c l + occ c l'.
Proof. apply count_occ_app. Qed.

Lemma occ_option c (o : option Callback) :
  occ c (match o with Some cb => [cb] | None => [] end) <= 1.
Proof. destruct o; occ_arith. Qed.

(** Every event appends the callbacks it runs to the log, and a
    callback it runs or leaves stored was stored before or came with
    the event. *)
Lemma step_callback_effect ev st :
  exists fired : list Callback,
    invoked (log (step' ev st)) = invoked (log st) ++ fired /\
    forall c, occ c fired + occ c (stored (step' ev st))
              <= occ c (stored st) + occ c (callbackOf ev).
Proof.
  destruct ev as [t onEnd lg speaking| | | |vs|u timer|u|u e|timer r]; cbn [step].
  - exists (match isMuted st || negb hasSpeechSynthesis, normalize' t lg with
            | true, _ | false, [] => match onEnd with Some cb => [cb] | None => [] end
            | false, _ :: _ => []
            end).
    destruct (isMuted st) eqn:M.
    { destruct (speak_muted_fields t onEnd lg speaking st M) as (_ & L & _ & _ & _ & _ & C).
      unfold stored. rewrite L, C, invoked_app, invoked_onEndLog. cbn [orb].
      split; [reflexivity|]. intros c. destruct onEnd; occ_arith. }
    destruct hasSpeechSynthesis eqn:A.
    2:{ unfold speak, speakFrom. cbn [lastRender captured_isMuted]. rewrite M. cbn [orb negb].
        rewrite invokeIfProvided_log, invoked_app, invoked_onEndLog.
        split; [reflexivity|]. intros c. unfold stored.
        destruct onEnd; occ_arith. }
    cbn [orb negb].
    destruct (normalize' t lg) as [|s segs] eqn:N.
    + pose proof (speak_nothing_left t onEnd lg speaking st) as H.
      rewrite A in H. destruct (H M eq_refl N) as (_ & L & _ & _ & _ & _ & C).
      unfold stored. rewrite L, C, invoked_app. cbn [invoked]. rewrite invoked_onEndLog.
      split; [reflexivity|]. intros c. destruct onEnd; occ_arith.
    + pose proof (speak_success_fields t onEnd lg speaking st s segs M) as H.
      rewrite A in H. destruct (H eq_refl N) as (_ & _ & _ & _ & C & _ & _ & _ & L).
      unfold stored. rewrite L, C, invoked_app.
      split; [destruct speaking; reflexivity|].
      intros c. destruct onEnd; occ_arith.
  - exists []. pose proof (cancel_fields st) as (_ & _ & _ & _ & _ & C & _ & _ & L).
    unfold stored. rewrite L, C, invoked_app.
    split; [destruct hasSpeechSynthesis; reflexivity|]. intros c. occ_arith.
  - exists []. rewrite toggleMute_unfold. destruct (isMuted st).
    + fields. rewrite app_nil_r. split; [reflexivity|]. intros c. unfold stored. fields. occ_arith.
    + pose proof (cancel_fields st) as (_ & _ & _ & _ & _ & C & _ & _ & L).
      unfold stored. fields. rewrite L, C, invoked_app.
      split; [destruct hasSpeechSynthesis; reflexivity|]. intros c. occ_arith.
  - exists []. pose proof (cancel_fields st) as (_ & _ & _ & _ & _ & C & _ & _ & L).
    unfold stored. rewrite L, C, invoked_app.
    split; [destruct hasSpeechSynthesis; reflexivity|]. intros c. occ_arith.
  - exists []. rewrite app_nil_r. split; [reflexivity|]. intros c. occ_arith.
  - exists []. rewrite app_nil_r. unfold utterance_onstart, clearMouthShapeInterval, stored.
    destruct (mouthShapeInterval st); fields; (split; [reflexivity|]); intros c; occ_arith.
  - exists (match utteranceQueue st with [] => stored st | _ :: _ => [] end).
    unfold utterance_onend.
    pose proof (processQueue_cases (record (Completed u) st)) as [H _].
    fields. unfold stored.
    destruct (utteranceQueue st); destruct H as (_ & _ & _ & C & _ & L);
      rewrite L, C, !invoked_app; cbn [invoked]; rewrite ?invoked_onEndLog, ?app_nil_r;
      (split; [reflexivity|]); intros c; occ_arith.
  - exists (match utteranceQueue st with [] => stored st | _ :: _ => [] end).
    unfold utterance_onerror.
    pose proof (processQueue_cases (record (Completed u) st)) as [H _].
    fields. unfold stored.
    destruct (utteranceQueue st); destruct H as (_ & _ & _ & C & _ & L);
      rewrite L, C, !invoked_app; cbn [invoked]; rewrite ?invoked_onEndLog, ?app_nil_r;
      (split; [reflexivity|]); intros c; occ_arith.
  - exists []. rewrite app_nil_r. unfold interval_tick, stored.
    destruct (mouthShapeInterval st) as [t|];
      [destruct (Nat.eqb t timer)|]; fields; (split; [reflexivity|]); intros c; occ_arith.
Qed.

Lemma run_callback_budget evs : forall st c,
  timesFired c st <= timesFired c (run' evs st) /\
  timesFired c (run' evs st) + occ c (stored (run' evs st))
    <= timesFired c st + occ c (stored st) + occ c (callbacksOf evs).
Proof.
  unfold timesFired.
  induction evs as [|ev evs IH]; intros st c; cbn [run callbacksOf flat_map]; [cbn; lia|].
  destruct (step_callback_effect ev st) as (fired & L & B).
  specialize (IH (step' ev st) c). specialize (B c).
  fold (callbacksOf evs) in *.
  rewrite L, !occ_app in IH. rewrite occ_app. lia.
Qed.

(** A callback that is neither stored nor passed to a later [speak]
    is never run. *)
Lemma unstored_callback_never_fires evs st c :
  onEndCallback st <> Some c ->
  ~ In c (callbacksOf evs) ->
  timesFired c (run' evs st) = timesFired c st.
Proof.
  intros Hst Hev.
  destruct (run_callback_budget evs st c) as [Lo Hi].
  assert (S0 : occ c (stored st) = 0).
  { unfold stored. destruct (onEndCallback st) as [cb|]; [|reflexivity].
    cbn. destruct (Nat.eq_dec cb c); [congruence|reflexivity]. }
  assert (E0 : occ c (callbacksOf evs) = 0) by (apply count_occ_not_In; exact Hev).
  lia.
Qed.

(** *** Callbacks along a run of actions *)

(** The three outcomes of a call to [speak]. *)
Lemma speakFrom_cases r t onEnd lg speaking st :
  ((captured_isMuted r = true \/ hasSpeechSynthesis = false) /\
   speakFrom' r t onEnd lg speaking st = invokeIfProvided onEnd st)
  \/
  (captured_isMuted r = false /\ hasSpeechSynthesis = true /\ normalize' t lg = [] /\
   speakFrom' r t onEnd lg speaking st = invokeIfProvided onEnd (cancel' st))
  \/
  (captured_isMuted r = false /\ hasSpeechSynthesis = true /\
   exists s segs, normalize' t lg = s :: segs).
Proof.
  destruct (captured_isMuted r) eqn:M.
  { left. split; [left; reflexivity|]. apply speakFrom_rejected. left. exact M. }
  assert (A : hasSpeechSynthesis = true \/ hasSpeechSynthesis = false)
    by (destruct hasSpeechSynthesis; [left|right]; reflexivity).
  destruct A as [A|A].
  2:{ left. split; [right; exact A|]. apply speakFrom_rejected. right. exact A. }
  right. destruct (normalize' t lg) as [|s segs] eqn:N.
  - left. repeat split; try assumption. apply speakFrom_nothing_left; assumption.
  - right. repeat split; try assumption. exists s, segs. reflexivity.
Qed.

(** A call to [speak] runs no callback but the one it was given, and
    a callback it runs or leaves stored was stored before or came
    with the call. *)
Lemma speakFrom_callback_effect r t onEnd lg speaking st :
  isMuted (speakFrom' r t onEnd lg speaking st) = isMuted st /\
  exists fired : list Callback,
    invoked (log (speakFrom' r t onEnd lg speaking st)) = invoked (log st) ++ fired /\
    forall c,
      occ c fired <= occ c (match onEnd with Some cb => [cb] | None => [] end) /\
      occ c fired + occ c (stored (speakFrom' r t onEnd lg speaking st))
        <= occ c (stored st) + occ c (match onEnd with Some cb => [cb] | None => [] end).
Proof.
  destruct (speakFrom_cases r t onEnd lg speaking st)
    as [(_ & E)|[(M & A & N & E)|(M & A & s & segs & N)]].
  - rewrite E. destruct (invokeIfProvided_fields onEnd st) as (Mu & _ & _ & _ & _ & C & _).
    split; [exact Mu|].
    exists (match onEnd with Some cb => [cb] | None => [] end).
    rewrite invokeIfProvided_log, invoked_app, invoked_onEndLog.
    split; [reflexivity|]. intros c. unfold stored. rewrite C. lia.
  - rewrite E.
    destruct (invokeIfProvided_fields onEnd (cancel' st)) as (Mu & _ & _ & _ & _ & C & _).
    destruct (cancel_fields st) as (Mu' & _ & _ & _ & _ & C' & _ & _ & L).
    split; [congruence|].
    exists (match onEnd with Some cb => [cb] | None => [] end).
    rewrite invokeIfProvided_log, L, !invoked_app, invoked_onEndLog.
    split; [destruct hasSpeechSynthesis; cbn [invoked]; rewrite app_nil_r; reflexivity|].
    intros c. unfold stored. rewrite C, C'. cbn [occ count_occ]. lia.
  - destruct (speakFrom_success_fields r t onEnd lg speaking st s segs M A N)
      as (Mu & _ & _ & _ & C & _ & _ & _ & L).
    split; [exact Mu|]. exists [].
    rewrite L, invoked_app. split; [destruct speaking; reflexivity|].
    intros c. unfold stored. rewrite C. cbn [occ count_occ]. lia.
Qed.

Lemma call_callback_effect k st :
  isMuted (call' k st) = isMuted st /\
  exists fired : list Callback,
    invoked (log (call' k st)) = invoked (log st) ++ fired /\
    forall c,
      occ c fired <= occ c (callbackOfCall k) /\
      occ c fired + occ c (stored (call' k st)) <= occ c (stored st) + occ c (callbackOfCall k).
Proof.
  destruct k as [r t onEnd lg speaking|]; cbn [call].
  - destruct (speakFrom_callback_effect r t onEnd lg speaking st) as (Mu & fired & L & B).
    split; [exact Mu|]. exists fired. split; [exact L|].
    intros c. destruct onEnd; exact (B c).
  - destruct (cancel_fields st) as (Mu & _ & _ & _ & _ & C & _ & _ & L).
    split; [exact Mu|]. exists [].
    unfold stored. rewrite L, C, invoked_app.
    split; [destruct hasSpeechSynthesis; reflexivity|]. intros c. cbn. lia.
Qed.

Lemma calls_callback_effect ks : forall st,
  isMuted (calls' ks st) = isMuted st /\
  exists fired : list Callback,
    invoked (log (calls' ks st)) = invoked (log st) ++ fired /\
    forall c,
      occ c fired <= occ c (callbacksOfCalls ks) /\
      occ c fired + occ c (stored (calls' ks st))
        <= occ c (stored st) + occ c (callbacksOfCalls ks).
Proof.
  induction ks as [|k ks IH]; intros st.
  - split; [reflexivity|]. exists []. rewrite app_nil_r. split; [reflexivity|].
    intros c. cbn. lia.
  - change (calls' (k :: ks) st) with (calls' ks (call' k st)).
    destruct (call_callback_effect k st) as (Mu & f1 & L1 & B1).
    destruct (IH (call' k st)) as (Mu' & f2 & L2 & B2).
    split; [congruence|]. exists (f1 ++ f2).
    rewrite L2, L1, app_assoc. split; [reflexivity|].
    intros c. specialize (B1 c). specialize (B2 c).
    change (callbacksOfCalls (k :: ks)) with (callbackOfCall k ++ callbacksOfCalls ks).
    rewrite !occ_app. lia.
Qed.

(** With units still queued, or with no callback stored, the calls a
    callback would make do not matter. *)
Lemma processQueueWith_no_callback running st :
  utteranceQueue st <> [] \/ onEndCallback st = None ->
  processQueueWith running st = processQueue st.
Proof.
  unfold processQueue, processQueueWith, clearMouthShapeInterval.
  destruct (utteranceQueue st); [|reflexivity].
  intros [Q|C]; [congruence|].
  destruct (mouthShapeInterval st) eqn:I; fields; rewrite ?I; fields; rewrite C; reflexivity.
Qed.

(** The drain when a callback is stored: the callback is run, the
    calls it makes are made, and only then is the stored callback
    cleared. *)
Lemma processQueueWith_drain running st cb :
  utteranceQueue st = [] -> onEndCallback st = Some cb ->
  processQueueWith running st =
  setOnEndCallback None
    (running cb
       (record (Invoked cb)
          (setMouthShapeInterval None (setMouthShape "X" (setIsSpeaking false st))))).
Proof.
  intros Q C. unfold processQueueWith, clearMouthShapeInterval. rewrite Q.
  destruct (mouthShapeInterval st) eqn:I; fields; rewrite ?I; fields; rewrite C; [reflexivity|].
  destruct st; cbn in *; subst; reflexivity.
Qed.

Lemma act_callback_effect a st :
  exists fired : list Callback,
    invoked (log (act' a st)) = invoked (log st) ++ fired /\
    forall c, occ c fired + occ c (stored (act' a st))
              <= occ c (stored st) + occ c (callbackOfAction a).
Proof.
  assert (G : forall u during,
            exists fired : list Callback,
              invoked (log (processQueueWith (fun _ => calls' during)
                                             (record (Completed u) st)))
                = invoked (log st) ++ fired /\
              forall c,
                occ c fired +
                occ c (stored (processQueueWith (fun _ => calls' during)
                                                (record (Completed u) st)))
                  <= occ c (stored st) + occ c (callbacksOfCalls during)).
  { intros u during.
    destruct (utteranceQueue st) as [|next rest] eqn:Q.
    - destruct (onEndCallback st) as [cb|] eqn:C.
      + rewrite (processQueueWith_drain _ _ cb) by (fields; assumption).
        destruct (calls_callback_effect during
                    (record (Invoked cb)
                       (setMouthShapeInterval None
                          (setMouthShape "X"
                             (setIsSpeaking false (record (Completed u) st))))))
          as (_ & fired & L & B).
        exists (cb :: fired). split.
        * fields. rewrite L. fields. rewrite !invoked_app. cbn [invoked].
          rewrite app_nil_r, <- app_assoc. reflexivity.
        * intros c. destruct (B c) as [B1 _]. unfold stored. fields. rewrite C.
          change (cb :: fired) with ([cb] ++ fired). rewrite occ_app.
          cbn [occ count_occ]. lia.
      + destruct (step_callback_effect (OnEnd u) st) as (fired & L & B).
        exists fired. rewrite processQueueWith_no_callback by (right; exact C).
        split; [exact L|]. intros c. specialize (B c). cbn [callbackOf] in B.
        cbn [step] in B. unfold utterance_onend in B. cbn [occ count_occ] in *. lia.
    - destruct (step_callback_effect (OnEnd u) st) as (fired & L & B).
      exists fired. rewrite processQueueWith_no_callback by (left; fields; congruence).
      split; [exact L|]. intros c. specialize (B c). cbn [callbackOf] in B.
      cbn [step] in B. unfold utterance_onend in B. cbn [occ count_occ] in *. lia. }
  destruct a as [ev|r t onEnd lg speaking|u during|u e during]; cbn [act callbackOfAction].
  - apply step_callback_effect.
  - destruct (speakFrom_callback_effect r t onEnd lg speaking st) as (_ & fired & L & B).
    exists fired. split; [exact L|]. intros c. destruct onEnd; apply B.
  - apply G.
  - apply G.
Qed.

Lemma perform_callback_budget acts : forall st c,
  timesFired c st <= timesFired c (perform' acts st) /\
  timesFired c (perform' acts st) + occ c (stored (perform' acts st))
    <= timesFired c st + occ c (stored st) + occ c (callbacksOfActions acts).
Proof.
  unfold timesFired.
  induction acts as [|a acts IH]; intros st c;
    cbn [perform callbacksOfActions flat_map]; [cbn; lia|].
  destruct (act_callback_effect a st) as (fired & L & B).
  specialize (IH (act' a st) c). specialize (B c).
  fold (callbacksOfActions acts) in *.
  rewrite L, !occ_app in IH. rewrite occ_app. lia.
Qed.

(** A callback that is neither stored nor passed to a later [speak],
    by the caller or by a callback, is never run. *)
Lemma unstored_callback_never_runs acts st c :
  onEndCallback st <> Some c ->
  ~ In c (callbacksOfActions acts) ->
  timesFired c (perform' acts st) = timesFired c st.
Proof.
  intros Hst Hev.
  destruct (perform_callback_budget acts st c) as [Lo Hi].
  assert (S0 : occ c (stored st) = 0).
  { unfold stored. destruct (onEndCallback st) as [cb|]; [|reflexivity].
    cbn. destruct (Nat.eq_dec cb c); [congruence|reflexivity]. }
  assert (E0 : occ c (callbacksOfActions acts) = 0) by (apply count_occ_not_In; exact Hev).
  lia.
Qed.

Lemma perform_Plain evs : forall st, perform' (map Plain evs) st = run' evs st.
Proof. induction evs as [|ev evs IH]; intros st; [reflexivity|]. cbn. apply IH. Qed.

(** *** A request played without disturbance *)

Lemma inFlight_after_handing (l : list LogEntry) (u : Utterance) :
  inFlight (l ++ [SynthSpeak u]) = Some u.
Proof. rewrite inFlight_app. reflexivity. Qed.

Lemma completion_advances us base d st j :
  S j < List.length us ->
  log st = base ++ played (firstn j us) ++ [SynthSpeak (nth j us d)] ->
  utteranceQueue st = skipn (S j) us ->
  let st' := processQueue (record (Completed (nth j us d)) st) in
  log st' = base ++ played (firstn (S j) us) ++ [SynthSpeak (nth (S j) us d)] /\
  utteranceQueue st' = skipn (S (S j)) us /\
  onEndCallback st' = onEndCallback st /\
  isSpeaking st' = isSpeaking st.
Proof.
  intros Hj L Q st'. subst st'.
  pose proof (processQueue_cases (record (Completed (nth j us d)) st)) as [H _].
  fields. rewrite Q, (skipn_cons_nth us (S j) d Hj) in H.
  destruct H as (S' & _ & Q' & C & _ & L').
  rewrite L', Q', C, S', L. repeat split.
  rewrite (firstn_succ_nth us j d) by lia.
  rewrite played_app. cbn [played flat_map app].
  rewrite <- !app_assoc. reflexivity.
Qed.

Lemma completion_drains us base d st j :
  S j = List.length us ->
  log st = base ++ played (firstn j us) ++ [SynthSpeak (nth j us d)] ->
  utteranceQueue st = skipn (S j) us ->
  let st' := processQueue (record (Completed (nth j us d)) st) in
  log st' = base ++ played us ++ onEndLog (onEndCallback st) /\
  inFlight (log st') = None /\
  utteranceQueue st' = [] /\
  onEndCallback st' = None /\
  isSpeaking st' = false /\
  mouthShape st' = "X" /\
  mouthShapeInterval st' = None.
Proof.
  intros Hj L Q st'. subst st'.
  pose proof (processQueue_cases (record (Completed (nth j us d)) st)) as [H _].
  fields. rewrite Q, Hj, skipn_all in H.
  destruct H as (S' & Sh & Q' & C & I & L').
  rewrite L', Q', C, S', Sh, I.
  assert (E : log st ++ [Completed (nth j us d)] = base ++ played us).
  { assert (P : played us =
                played (firstn j us) ++ [SynthSpeak (nth j us d); Completed (nth j us d)]).
    { rewrite <- (firstn_all us) at 1. rewrite <- Hj.
      rewrite (firstn_succ_nth us j d) by lia.
      rewrite played_app. reflexivity. }
    rewrite L, P, <- !app_assoc. reflexivity. }
  split; [rewrite E, <- app_assoc; reflexivity|].
  split; [|repeat split].
  rewrite inFlight_app, inFlight_app, L.
  replace (base ++ played (firstn j us) ++ [SynthSpeak (nth j us d)])
    with ((base ++ played (firstn j us)) ++ [SynthSpeak (nth j us d)])
    by (rewrite <- app_assoc; reflexivity).
  rewrite inFlight_after_handing. cbn [fold_left inFlightStep].
  rewrite utterance_eqb_refl. destruct (onEndCallback st); reflexivity.
Qed.

(** Once nothing is in flight, the platform has no lifecycle event
    left to deliver and the engine stays as it is. *)
Lemma undisturbed_when_idle evs : forall st,
  inFlight (log st) = None ->
  mouthShapeInterval st = None ->
  undisturbed' evs st = true ->
  completions evs = 0 /\
  log (run' evs st) = log st /\
  utteranceQueue (run' evs st) = utteranceQueue st /\
  onEndCallback (run' evs st) = onEndCallback st /\
  isSpeaking (run' evs st) = isSpeaking st /\
  mouthShape (run' evs st) = mouthShape st.
Proof.
  induction evs as [|ev evs IH]; intros st F I U; [repeat split|].
  cbn [undisturbed] in U. apply andb_true_iff in U. destruct U as [Uev U].
  destruct ev as [t onEnd lg speaking| | | |vs|u timer|u|u e|timer r];
    cbn [undisturbedEvent] in Uev; rewrite ?F in Uev; try discriminate Uev.
  - specialize (IH (step' (VoicesChanged vs) st) F I U). exact IH.
  - assert (E : step' (Tick timer r) st = st)
      by (cbn [step]; unfold interval_tick; rewrite I; reflexivity).
    rewrite E in U. cbn [run]. rewrite E. exact (IH st F I U).
Qed.

Lemma undisturbed_request us base onEnd d evs : forall st j,
  j < List.length us ->
  log st = base ++ played (firstn j us) ++ [SynthSpeak (nth j us d)] ->
  utteranceQueue st = skipn (S j) us ->
  onEndCallback st = onEnd ->
  isSpeaking st = true ->
  undisturbed' evs st = true ->
  (j + completions evs < List.length us /\
   log (run' evs st) =
     base ++ played (firstn (j + completions evs) us)
          ++ [SynthSpeak (nth (j + completions evs) us d)] /\
   utteranceQueue (run' evs st) = skipn (S (j + completions evs)) us /\
   onEndCallback (run' evs st) = onEnd /\
   isSpeaking (run' evs st) = true)
  \/
  (j + completions evs = List.length us /\
   log (run' evs st) = base ++ played us ++ onEndLog onEnd /\
   utteranceQueue (run' evs st) = [] /\
   onEndCallback (run' evs st) = None /\
   isSpeaking (run' evs st) = false /\
   mouthShape (run' evs st) = "X").
Proof.
  induction evs as [|ev evs IH]; intros st j Hj L Q C S' U.
  { left. cbn [run completions filter List.length]. rewrite Nat.add_0_r. repeat split; assumption. }
  cbn [undisturbed] in U. apply andb_true_iff in U. destruct U as [Uev U].
  assert (F : inFlight (log st) = Some (nth j us d)).
  { rewrite L, app_assoc. apply inFlight_after_handing. }
  assert (Step : forall u,
            utterance_eqb u (nth j us d) = true ->
            undisturbed' evs (processQueue (record (Completed u) st)) = true ->
            (j + S (completions evs) < List.length us /\
             log (run' evs (processQueue (record (Completed u) st))) =
               base ++ played (firstn (j + S (completions evs)) us)
                    ++ [SynthSpeak (nth (j + S (completions evs)) us d)] /\
             utteranceQueue (run' evs (processQueue (record (Completed u) st)))
               = skipn (S (j + S (completions evs))) us /\
             onEndCallback (run' evs (processQueue (record (Completed u) st))) = onEnd /\
             isSpeaking (run' evs (processQueue (record (Completed u) st))) = true)
            \/
            (j + S (completions evs) = List.length us /\
             log (run' evs (processQueue (record (Completed u) st)))
               = base ++ played us ++ onEndLog onEnd /\
             utteranceQueue (run' evs (processQueue (record (Completed u) st))) = [] /\
             onEndCallback (run' evs (processQueue (record (Completed u) st))) = None /\
             isSpeaking (run' evs (processQueue (record (Completed u) st))) = false /\
             mouthShape (run' evs (processQueue (record (Completed u) st))) = "X")).
  { intros u Hu U'. apply utterance_eqb_eq in Hu. subst u.
    destruct (Nat.eq_dec (S j) (List.length us)) as [Last|More].
    - right.
      destruct (completion_drains us base d st j Last L Q)
        as (L' & F' & Q' & C' & S'' & Sh & I).
      destruct (undisturbed_when_idle evs _ F' I U') as (K & L2 & Q2 & C2 & S2 & Sh2).
      rewrite K, L2, Q2, C2, S2, Sh2, L', Q', C', S'', Sh, C.
      repeat split. lia.
    - destruct (completion_advances us base d st j ltac:(lia) L Q)
        as (L' & Q' & C' & S'').
      rewrite C in C'. rewrite S' in S''.
      specialize (IH _ (S j) ltac:(lia) L' Q' C' S'' U').
      replace (j + S (completions evs)) with (S j + completions evs) by lia.
      exact IH. }
  destruct ev as [t onEnd' lg speaking| | | |vs|u timer|u|u e|timer r];
    cbn [undisturbedEvent] in Uev; try discriminate Uev.
  - exact (IH (step' (VoicesChanged vs) st) j Hj L Q C S' U).
  - refine (IH (step' (OnStart u timer) st) j Hj _ _ _ _ U);
      cbn [step]; unfold utterance_onstart, clearMouthShapeInterval;
      destruct (mouthShapeInterval st); assumption.
  - rewrite F in Uev. exact (Step u Uev U).
  - rewrite F in Uev. exact (Step u Uev U).
  - refine (IH (step' (Tick timer r) st) j Hj _ _ _ _ U);
      cbn [step]; unfold interval_tick;
      destruct (mouthShapeInterval st) as [t|];
      try destruct (Nat.eqb t timer); assumption.
Qed.

Lemma speakSucceeds_inv t lg st :
  speakSucceeds' t lg st = true ->
  isMuted st = false /\ hasSpeechSynthesis = true /\
  exists s segs, normalize' t lg = s :: segs.
Proof.
  unfold speakSucceeds. intros H.
  apply andb_true_iff in H. destruct H as [H N].
  apply andb_true_iff in H. destruct H as [M A].
  apply negb_true_iff in M.
  destruct (normalize' t lg) as [|s segs]; [discriminate|].
  repeat split; try assumption. exists s, segs. reflexivity.
Qed.

(** A request that got past the guard with the platform silent, then
    left undisturbed: the log is the cancel, the units played so far
    and either the unit in flight or, at the end, the callback. *)
Lemma requestFrom_timeline r t onEnd lg st evs :
  captured_isMuted r = false -> hasSpeechSynthesis = true -> normalize' t lg <> [] ->
  undisturbed' evs (speakFrom' r t onEnd lg false st) = true ->
  completions evs <= List.length (requestUtterances' (captured_voices r) t lg) /\
  log (run' evs (speakFrom' r t onEnd lg false st)) =
    log st ++ SynthCancel ::
      played (firstn (completions evs) (requestUtterances' (captured_voices r) t lg)) ++
      map SynthSpeak
          (firstn 1 (skipn (completions evs)
                           (requestUtterances' (captured_voices r) t lg))) ++
      (if completions evs =? List.length (requestUtterances' (captured_voices r) t lg)
       then onEndLog onEnd else [])%nat /\
  utteranceQueue (run' evs (speakFrom' r t onEnd lg false st)) =
    skipn (S (completions evs)) (requestUtterances' (captured_voices r) t lg) /\
  onEndCallback (run' evs (speakFrom' r t onEnd lg false st)) =
    (if completions evs =? List.length (requestUtterances' (captured_voices r) t lg)
     then None else onEnd)%nat /\
  isSpeaking (run' evs (speakFrom' r t onEnd lg false st)) =
    negb (completions evs =? List.length (requestUtterances' (captured_voices r) t lg))%nat.
Proof.
  intros M A Ne0 U.
  destruct (normalize' t lg) as [|s segs] eqn:N; [congruence|].
  destruct (speakFrom_success_fields r t onEnd lg false st s segs M A N)
    as (_ & S' & _ & _ & C & _ & _ & Q & L).
  unfold requestUtterances. rewrite N. cbn [map].
  set (u0 := makeUtterance' (captured_voices r) lg s) in *.
  set (rest := map (makeUtterance' (captured_voices r) lg) segs) in *.
  destruct (undisturbed_request (u0 :: rest) (log st ++ [SynthCancel]) onEnd u0 evs
              (speakFrom' r t onEnd lg false st) 0) as [H|H].
  - cbn. lia.
  - rewrite L. cbn [firstn played flat_map nth app]. rewrite <- app_assoc. reflexivity.
  - exact Q.
  - exact C.
  - exact S'.
  - exact U.
  - cbn [Nat.add] in H. destruct H as (K & L' & Q' & C' & S'').
    assert (Ne : (completions evs =? List.length (u0 :: rest))%nat = false)
      by (apply Nat.eqb_neq; lia).
    rewrite Ne, L', Q', C', S'', app_nil_r.
    rewrite (skipn_cons_nth (u0 :: rest) (completions evs) u0 K).
    cbn [firstn map]. rewrite <- app_assoc. repeat split. lia.
  - cbn [Nat.add] in H. destruct H as (K & L' & Q' & C' & S'' & _).
    rewrite K, Nat.eqb_refl, L', Q', C', S'', firstn_all, !skipn_all.
    rewrite (skipn_all2 (u0 :: rest)) by lia.
    cbn [firstn map app negb]. rewrite <- app_assoc. repeat split. lia.
Qed.

Lemma request_timeline t onEnd lg st evs :
  speakSucceeds' t lg st = true ->
  undisturbed' evs (speak' t onEnd lg false st) = true ->
  completions evs <= List.length (requestUtterances' (voices st) t lg) /\
  log (run' evs (speak' t onEnd lg false st)) =
    log st ++ SynthCancel ::
      played (firstn (completions evs) (requestUtterances' (voices st) t lg)) ++
      map SynthSpeak
          (firstn 1 (skipn (completions evs) (requestUtterances' (voices st) t lg))) ++
      (if completions evs =? List.length (requestUtterances' (voices st) t lg)
       then onEndLog onEnd else [])%nat /\
  utteranceQueue (run' evs (speak' t onEnd lg false st)) =
    skipn (S (completions evs)) (requestUtterances' (voices st) t lg) /\
  onEndCallback (run' evs (speak' t onEnd lg false st)) =
    (if completions evs =? List.length (requestUtterances' (voices st) t lg)
     then None else onEnd)%nat /\
  isSpeaking (run' evs (speak' t onEnd lg false st)) =
    negb (completions evs =? List.length (requestUtterances' (voices st) t lg))%nat.
Proof.
  intros Ok U.
  destruct (speakSucceeds_inv t lg st Ok) as (M & A & s & segs & N).
  apply (requestFrom_timeline (lastRender st) t onEnd lg st evs M A);
    [rewrite N; discriminate|exact U].
Qed.

(** C7, as amended.  Take a request that got past the guard with the
    platform silent, and let the platform deliver only events of the
    unit in flight (its start, its end or its error), interval ticks
    and voice list changes.  Then, as long as fewer units have ended
    or failed than the request has, the platform was handed exactly
    the first [k + 1] units in queue order, where [k] counts the ends
    and errors so far, each of the first [k] followed by its own end
    or error before the next was handed over; the units after those
    are still queued, in order. *)
Theorem segments_play_in_order t onEnd lg st evs :
  speakSucceeds' t lg st = true ->
  undisturbed' evs (speak' t onEnd lg false st) = true ->
  completions evs < List.length (requestUtterances' (voices st) t lg) ->
  log (run' evs (speak' t onEnd lg false st)) =
    log st ++ SynthCancel ::
      played (firstn (completions evs) (requestUtterances' (voices st) t lg)) ++
      map SynthSpeak
          (firstn 1 (skipn (completions evs) (requestUtterances' (voices st) t lg))) /\
  utteranceQueue (run' evs (speak' t onEnd lg false st)) =
    skipn (S (completions evs)) (requestUtterances' (voices st) t lg) /\
  isSpeaking (run' evs (speak' t onEnd lg false st)) = true /\
  (sequential (log st) = true ->
   sequential (log (run' evs (speak' t onEnd lg false st))) = true).
Proof.
  intros Ok U K.
  destruct (request_timeline t onEnd lg st evs Ok U) as (_ & L & Q & _ & S').
  assert (Ne : (completions evs =? List.length (requestUtterances' (voices st) t lg))%nat
               = false) by (apply Nat.eqb_neq; lia).
  rewrite Ne in L, S'. rewrite app_nil_r in L.
  split; [exact L|]. split; [exact Q|]. split; [exact S'|].
  intros Seq. rewrite L. unfold sequential in *.
  rewrite sequentialFrom_app, Seq. cbn [andb sequentialFrom inFlightStep].
  rewrite sequentialFrom_app.
  destruct (played_closed (firstn (completions evs) (requestUtterances' (voices st) t lg)))
    as [F Sq].
  rewrite F, Sq. cbn [andb].
  destruct (firstn 1 (skipn (completions evs) (requestUtterances' (voices st) t lg)))
    as [|u [|u' l]] eqn:E; try reflexivity.
  apply (f_equal (@List.length _)) in E. rewrite length_firstn in E. cbn [List.length] in E. lia.
Qed.


(** C2, as amended.  The end handler runs [processQueue] on the
    current state whatever unit the event belongs to: no generation
    or identity check exists.  An end event of a stale unit therefore
    leaves [isSpeaking] and [mouthShape] alone while units are still
    queued (it hands the next one to the platform) and when the
    engine is idle; with an empty queue it sets [isSpeaking] to false
    and [mouthShape] to "X" and runs the stored callback, also when a
    unit of the current request is still in flight. *)
Theorem stale_end_event_runs_processQueue u st :
  (forall u',
     observable (step' (OnEnd u) st) = observable (step' (OnEnd u') st) /\
     utteranceQueue (step' (OnEnd u) st) = utteranceQueue (step' (OnEnd u') st) /\
     onEndCallback (step' (OnEnd u) st) = onEndCallback (step' (OnEnd u') st) /\
     invoked (log (step' (OnEnd u) st)) = invoked (log (step' (OnEnd u') st))) /\
  (utteranceQueue st <> [] ->
   isSpeaking (step' (OnEnd u) st) = isSpeaking st /\
   mouthShape (step' (OnEnd u) st) = mouthShape st /\
   map SynthSpeak (firstn 1 (utteranceQueue st)) =
     skipn (S (List.length (log st))) (log (step' (OnEnd u) st))) /\
  (isSpeaking st = false -> mouthShape st = "X" ->
   isSpeaking (step' (OnEnd u) st) = isSpeaking st /\
   mouthShape (step' (OnEnd u) st) = mouthShape st) /\
  (utteranceQueue st = [] ->
   isSpeaking (step' (OnEnd u) st) = false /\
   mouthShape (step' (OnEnd u) st) = "X" /\
   onEndCallback (step' (OnEnd u) st) = None /\
   invoked (log (step' (OnEnd u) st)) = invoked (log st) ++ stored st).
Proof.
  assert (G : forall v,
            match utteranceQueue st with
            | next :: rest =>
                isSpeaking (step' (OnEnd v) st) = isSpeaking st /\
                mouthShape (step' (OnEnd v) st) = mouthShape st /\
                utteranceQueue (step' (OnEnd v) st) = rest /\
                onEndCallback (step' (OnEnd v) st) = onEndCallback st /\
                log (step' (OnEnd v) st) = log st ++ [Completed v; SynthSpeak next]
            | [] =>
                isSpeaking (step' (OnEnd v) st) = false /\
                mouthShape (step' (OnEnd v) st) = "X" /\
                utteranceQueue (step' (OnEnd v) st) = [] /\
                onEndCallback (step' (OnEnd v) st) = None /\
                log (step' (OnEnd v) st)
                  = log st ++ Completed v :: onEndLog (onEndCallback st)
            end /\
            isMuted (step' (OnEnd v) st) = isMuted st /\
            spokenText (step' (OnEnd v) st) = spokenText st).
  { intros v. cbn [step]. unfold utterance_onend.
    pose proof (processQueue_cases (record (Completed v) st)) as (H & M & T & _).
    fields. split; [|split; assumption].
    destruct (utteranceQueue st); destruct H as (S' & Sh & Q & C & _ & L);
      rewrite L, <- app_assoc; repeat split; assumption. }
  split; [|split; [|split]].
  - intros u'. destruct (G u) as (Hu & Mu & Tu), (G u') as (Hu' & Mu' & Tu').
    unfold observable. rewrite Mu, Mu', Tu, Tu'.
    destruct (utteranceQueue st);
      destruct Hu as (S1 & Sh1 & Q1 & C1 & L1), Hu' as (S2 & Sh2 & Q2 & C2 & L2);
      rewrite S1, S2, Sh1, Sh2, Q1, Q2, C1, C2, L1, L2, !invoked_app; repeat split.
  - intros Q. destruct (G u) as (Hu & _).
    destruct (utteranceQueue st) as [|next rest]; [congruence|].
    destruct Hu as (S1 & Sh1 & _ & _ & L1).
    rewrite S1, Sh1, L1. repeat split.
    change (log st ++ [Completed u; SynthSpeak next])
      with (log st ++ [Completed u] ++ [SynthSpeak next]).
    rewrite app_assoc, skipn_app.
    rewrite skipn_all2 by (rewrite length_app; cbn; lia).
    rewrite length_app. cbn [List.length].
    replace (S (List.length (log st)) - (List.length (log st) + 1)) with 0 by lia.
    reflexivity.
  - intros S0 Sh0. destruct (G u) as (Hu & _).
    destruct (utteranceQueue st); destruct Hu as (S1 & Sh1 & _);
      rewrite S1, Sh1; split; congruence.
  - intros Q. destruct (G u) as (Hu & _). rewrite Q in Hu.
    destruct Hu as (S1 & Sh1 & _ & C1 & L1).
    rewrite S1, Sh1, C1, L1, invoked_app. cbn [invoked]. rewrite invoked_onEndLog.
    repeat split.
Qed.

End Properties.

(** ** Closed instances *)


(** C2, counterexample.  "alpha" is superseded by "beta"; "beta" is in
    flight and the engine is speaking.  The end event of the cancelled
    "alpha" then switches [isSpeaking] off, resets [mouthShape] and runs
    the callback of the "beta" request. *)
Lemma stale_end_event_not_discarded :
  isStale (sampleUtterance "alpha") (log (sampleRun alphaThenBeta initial)) = true /\
  inFlight (log (sampleRun alphaThenBeta initial)) = Some (sampleUtterance "beta") /\
  isSpeaking (sampleRun alphaThenBeta initial) = true /\
  mouthShape (sampleRun alphaThenBeta initial) = "A" /\
  isSpeaking (sampleStep (OnEnd (sampleUtterance "alpha")) (sampleRun alphaThenBeta initial))
    = false /\
  mouthShape (sampleStep (OnEnd (sampleUtterance "alpha")) (sampleRun alphaThenBeta initial))
    = "X" /\
  timesFired 2 (sampleStep (OnEnd (sampleUtterance "alpha")) (sampleRun alphaThenBeta initial))
    = 1 /\
  ~ staleEventsDiscarded SampleLanguage sampleMap en true.
Proof.
  repeat (split; [vm_compute; reflexivity|]).
  intros H. unfold staleEventsDiscarded in H.
  specialize (H alphaThenBeta (sampleUtterance "alpha")).
  vm_compute in H. destruct (H eq_refl) as [S' _]. discriminate S'.
Qed.

(** C7, counterexample.  "alpha" is superseded by the request "beta",
    "gamma"; the late end event of "alpha" makes the engine hand "gamma"
    to the platform while "beta" has neither ended nor failed. *)
Lemma segment_started_before_previous_ended :
  log (sampleRun (alphaThenBetaGamma ++ [OnEnd (sampleUtterance "alpha")]) initial) =
    [SynthCancel; SynthSpeak (sampleUtterance "alpha");
     SynthCancel; SynthSpeak (sampleUtterance "beta");
     Completed (sampleUtterance "alpha"); SynthSpeak (sampleUtterance "gamma")] /\
  sequential
    (log (sampleRun (alphaThenBetaGamma ++ [OnEnd (sampleUtterance "alpha")]) initial))
    = false /\
  ~ alwaysSequential SampleLanguage sampleMap en true.
Proof.
  split; [vm_compute; reflexivity|]. split; [vm_compute; reflexivity|].
  intros H. unfold alwaysSequential in H.
  specialize (H (alphaThenBetaGamma ++ [OnEnd (sampleUtterance "alpha")])).
  vm_compute in H. discriminate H.
Qed.

(** C5, counterexample.  Mute is on.  The [speak] that the first
    render created is called: it gets past the guard, sets
    [isSpeaking], [mouthShape] and [spokenText], hands "hello" to the
    platform and does not run its callback. *)
Lemma speak_of_earlier_render_is_not_held_back :
  isMuted mutedState = true /\
  isSpeaking mutedState = false /\
  isSpeaking (sampleSpeakFrom (lastRender initial) (Text "hello") (Some 3) (IsLanguage en)
                              false mutedState) = true /\
  mouthShape (sampleSpeakFrom (lastRender initial) (Text "hello") (Some 3) (IsLanguage en)
                              false mutedState) = "A" /\
  spokenText (sampleSpeakFrom (lastRender initial) (Text "hello") (Some 3) (IsLanguage en)
                              false mutedState) = "hello" /\
  handed (log (sampleSpeakFrom (lastRender initial) (Text "hello") (Some 3) (IsLanguage en)
                               false mutedState)) = [sampleUtterance "hello"] /\
  invoked (log (sampleSpeakFrom (lastRender initial) (Text "hello") (Some 3) (IsLanguage en)
                                false mutedState)) = [] /\
  isMuted (sampleSpeakFrom (lastRender initial) (Text "hello") (Some 3) (IsLanguage en)
                           false mutedState) = true.
Proof. repeat split; vm_compute; reflexivity. Qed.

(** C9, counterexample.  A request plays: the engine is speaking, the
    mouth is not neutral, two units are queued and callback 5 is
    stored.  A call to [speak] with blank text then sets [isSpeaking]
    to false and [mouthShape] to "X", empties the queue and drops
    callback 5, which never runs. *)
Lemma blank_request_stops_the_speech :
  isSpeaking playingFirstOfThree = true /\
  mouthShape playingFirstOfThree = "A" /\
  normalize SampleLanguage en (Text "  ") (IsLanguage en) = [] /\
  isSpeaking (sampleSpeak (Text "  ") None (IsLanguage en) false playingFirstOfThree)
    = false /\
  mouthShape (sampleSpeak (Text "  ") None (IsLanguage en) false playingFirstOfThree)
    = "X" /\
  utteranceQueue (sampleSpeak (Text "  ") None (IsLanguage en) false playingFirstOfThree)
    = [] /\
  onEndCallback (sampleSpeak (Text "  ") None (IsLanguage en) false playingFirstOfThree)
    = None /\
  timesFired 5 (sampleSpeak (Text "  ") None (IsLanguage en) false playingFirstOfThree) = 0.
Proof. repeat split; vm_compute; reflexivity. Qed.

(** C3, witness: in a catalog with an en-GB and an en-US voice, the
    voice selected for en-US is a candidate with exactly that locale. *)
Lemma bestVoice_without_gender_witness :
  In (mkVoice "B" "en-US")
     (voiceCandidates [mkVoice "A" "en-GB"; mkVoice "B" "en-US"] "en-US") /\
  vlang (mkVoice "B" "en-US") = "en-US".
Proof.
  destruct (bestVoice_without_gender [mkVoice "A" "en-GB"; mkVoice "B" "en-US"] "en-US")
    as (_ & _ & H & _).
  exact (H (mkVoice "B" "en-US") eq_refl).
Defined.

(** C5, witness: the [speak] of the muted render, called on the muted
    engine. *)
Lemma speak_while_muted_witness :
  captured_isMuted (lastRender mutedState) = true /\
  log (sampleSpeakFrom (lastRender mutedState) (Text "hello") (Some 3) (IsLanguage en)
                       false mutedState)
    = log mutedState ++ onEndLog (Some 3) /\
  isSpeaking (sampleSpeakFrom (lastRender mutedState) (Text "hello") (Some 3)
                              (IsLanguage en) false mutedState)
    = isSpeaking mutedState /\
  mouthShape (sampleSpeakFrom (lastRender mutedState) (Text "hello") (Some 3)
                              (IsLanguage en) false mutedState)
    = mouthShape mutedState /\
  spokenText (sampleSpeakFrom (lastRender mutedState) (Text "hello") (Some 3)
                              (IsLanguage en) false mutedState)
    = spokenText mutedState.
Proof.
  assert (M : captured_isMuted (lastRender mutedState) = true) by (vm_compute; reflexivity).
  destruct (speak_while_muted SampleLanguage sampleMap en true (lastRender mutedState)
              (Text "hello") (Some 3) (IsLanguage en) false mutedState M)
    as (_ & L & S' & Sh & T & _).
  exact (conj M (conj L (conj S' (conj Sh T)))).
Defined.

(** C6, witness: [cancel] on the engine as first rendered. *)
Lemma cancel_idempotent_witness :
  observable (cancel true initial) = observable initial.
Proof.
  exact (proj2 (cancel_idempotent true initial) eq_refl eq_refl).
Defined.

(** C8, witness: the first of three units fails; the second is handed
    over and the third stays queued. *)
Lemma error_is_treated_as_end_witness :
  utteranceQueue playingFirstOfThree = [sampleUtterance "two"; sampleUtterance "three"] /\
  utteranceQueue (sampleStep (OnError (sampleUtterance "one") "network") playingFirstOfThree)
    = [sampleUtterance "three"] /\
  log (sampleStep (OnError (sampleUtterance "one") "network") playingFirstOfThree)
    = log playingFirstOfThree ++
      [Completed (sampleUtterance "one"); SynthSpeak (sampleUtterance "two")] /\
  isSpeaking (sampleStep (OnError (sampleUtterance "one") "network") playingFirstOfThree)
    = isSpeaking playingFirstOfThree.
Proof.
  assert (Q0 : utteranceQueue playingFirstOfThree
               = [sampleUtterance "two"; sampleUtterance "three"])
    by (vm_compute; reflexivity).
  destruct (error_is_treated_as_end SampleLanguage sampleMap en true
              (sampleUtterance "one") "network" playingFirstOfThree) as (_ & _ & H).
  destruct (H (sampleUtterance "two") [sampleUtterance "three"] Q0)
    as (Q & L & _ & S' & _).
  exact (conj Q0 (conj Q (conj L S'))).
Defined.

(** C9, witness: a request of blank segments, one of them a
    no-break space, arrives while another request plays. *)
Lemma speak_drops_blank_segments_witness :
  spokenText (sampleSpeakFrom (lastRender playingFirstOfThree)
                (Segments [mkSegment "  " en; mkSegment "" en; mkSegment (utf8 [194; 160]) en])
                (Some 6) (IsLanguage en) false playingFirstOfThree)
    = spokenText playingFirstOfThree /\
  isSpeaking (sampleSpeakFrom (lastRender playingFirstOfThree)
                (Segments [mkSegment "  " en; mkSegment "" en; mkSegment (utf8 [194; 160]) en])
                (Some 6) (IsLanguage en) false playingFirstOfThree)
    = false /\
  log (sampleSpeakFrom (lastRender playingFirstOfThree)
         (Segments [mkSegment "  " en; mkSegment "" en; mkSegment (utf8 [194; 160]) en])
         (Some 6) (IsLanguage en) false playingFirstOfThree)
    = log playingFirstOfThree ++ SynthCancel :: onEndLog (Some 6).
Proof.
  assert (M : captured_isMuted (lastRender playingFirstOfThree) = false)
    by (vm_compute; reflexivity).
  assert (N : normalize SampleLanguage en
                (Segments [mkSegment "  " en; mkSegment "" en;
                           mkSegment (utf8 [194; 160]) en])
                (IsLanguage en) = [])
    by (vm_compute; reflexivity).
  destruct (speak_drops_blank_segments SampleLanguage sampleMap en true
              (lastRender playingFirstOfThree)
              (Segments [mkSegment "  " en; mkSegment "" en; mkSegment (utf8 [194; 160]) en])
              (Some 6) (IsLanguage en) false playingFirstOfThree) as (_ & _ & H).
  destruct (H M eq_refl N) as (_ & L & T & S' & _).
  exact (conj T (conj S' L)).
Defined.

(** C10, witness: three units complete, then [cancel] and mute; the
    text of the request is still there. *)
Lemma spokenText_only_set_by_speak_witness :
  spokenText (sampleRun (threeCompletions ++ [Cancel; ToggleMute]) playingFirstOfThree)
    = spokenText playingFirstOfThree.
Proof.
  assert (F : forallb (fun ev : Event SampleLanguage => negb (isSpeakCall ev))
                      (threeCompletions ++ [Cancel; ToggleMute]) = true)
    by (vm_compute; reflexivity).
  destruct (spokenText_only_set_by_speak SampleLanguage sampleMap en true)
    as (_ & _ & _ & _ & H).
  exact (H (threeCompletions ++ [Cancel; ToggleMute]) playingFirstOfThree F).
Defined.

(** C7, witness: of three units the first has ended and the second has
    failed; the third is in flight and nothing is queued. *)
Lemma segments_play_in_order_witness :
  log (sampleRun twoCompletions
         (sampleSpeak threeSegments (Some 5) (IsLanguage en) false initial)) =
    log initial ++ SynthCancel ::
      played (firstn (completions twoCompletions)
                     (sampleUtterances (voices initial) threeSegments (IsLanguage en))) ++
      map SynthSpeak
          (firstn 1 (skipn (completions twoCompletions)
                           (sampleUtterances (voices initial) threeSegments
                                             (IsLanguage en)))) /\
  utteranceQueue (sampleRun twoCompletions
                    (sampleSpeak threeSegments (Some 5) (IsLanguage en) false initial)) =
    skipn (S (completions twoCompletions))
          (sampleUtterances (voices initial) threeSegments (IsLanguage en)).
Proof.
  assert (Ok : speakSucceeds SampleLanguage en true threeSegments (IsLanguage en) initial
               = true) by (vm_compute; reflexivity).
  assert (U : undisturbed SampleLanguage sampleMap en true twoCompletions
                (sampleSpeak threeSegments (Some 5) (IsLanguage en) false initial) = true)
    by (vm_compute; reflexivity).
  assert (K : completions twoCompletions <
              List.length (sampleUtterances (voices initial) threeSegments (IsLanguage en)))
    by (vm_compute; lia).
  destruct (segments_play_in_order SampleLanguage sampleMap en true
              threeSegments (Some 5) (IsLanguage en) initial twoCompletions
              Ok U K) as (L & Q & _).
  exact (conj L Q).
Defined.


(** C2, witness: with "gamma" still queued, the late end event of
    "alpha" leaves [isSpeaking] and [mouthShape] alone; with nothing
    queued it resets both. *)
Lemma stale_end_event_runs_processQueue_witness :
  (isSpeaking (sampleStep (OnEnd (sampleUtterance "alpha"))
                          (sampleRun alphaThenBetaGamma initial))
     = isSpeaking (sampleRun alphaThenBetaGamma initial) /\
   mouthShape (sampleStep (OnEnd (sampleUtterance "alpha"))
                          (sampleRun alphaThenBetaGamma initial))
     = mouthShape (sampleRun alphaThenBetaGamma initial)) /\
  isSpeaking (sampleStep (OnEnd (sampleUtterance "alpha")) (sampleRun alphaThenBeta initial))
    = false.
Proof.
  assert (Q1 : utteranceQueue (sampleRun alphaThenBetaGamma initial) <> [])
    by (vm_compute; discriminate).
  assert (Q2 : utteranceQueue (sampleRun alphaThenBeta initial) = [])
    by (vm_compute; reflexivity).
  destruct (stale_end_event_runs_processQueue SampleLanguage sampleMap en true
              (sampleUtterance "alpha") (sampleRun alphaThenBetaGamma initial))
    as (_ & H1 & _).
  destruct (stale_end_event_runs_processQueue SampleLanguage sampleMap en true
              (sampleUtterance "alpha") (sampleRun alphaThenBeta initial))
    as (_ & _ & _ & H2).
  exact (conj (conj (proj1 (H1 Q1)) (proj1 (proj2 (H1 Q1)))) (proj1 (H2 Q2))).
Defined.

(** ** Further properties of the hook *)

Lemma handed_app (l l' : list LogEntry) : handed (l ++ l') = handed l ++ handed l'.
Proof.
  induction l as [|e l IH]; [reflexivity|].
  destruct e; cbn [app handed]; rewrite IH; reflexivity.
Qed.

Lemma handed_onEndLog (onEnd : option Callback) : handed (onEndLog onEnd) = [].
Proof. destruct onEnd; reflexivity. Qed.

Lemma handed_played (us : list Utterance) : handed (played us) = us.
Proof.
  induction us as [|u us IH]; [reflexivity|].
  change (played (u :: us)) with (SynthSpeak u :: Completed u :: played us).
  cbn [handed]. rewrite IH. reflexivity.
Qed.

Lemma handed_map_SynthSpeak (us : list Utterance) : handed (map SynthSpeak us) = us.
Proof. induction us as [|u us IH]; [reflexivity|]. cbn. rewrite IH. reflexivity. Qed.

Lemma tick_shape_in_MOUTH_SHAPES (r : nat) :
  In (nth (r mod List.length MOUTH_SHAPES) MOUTH_SHAPES "X") MOUTH_SHAPES.
Proof. apply nth_In. apply Nat.mod_upper_bound. discriminate. Qed.

Lemma initial_engineInvariant : engineInvariant initial.
Proof.
  unfold engineInvariant, initial. cbn.
  split; [intros _; split; reflexivity|]. split; [discriminate|]. left. reflexivity.
Qed.

Section MoreProperties.

Variable Language : Type.
Variable bcp47LanguageMap : Language -> string.
Variable globalLanguage : Language.
Variable hasSpeechSynthesis : bool.

Local Abbreviation speak' := (speak Language bcp47LanguageMap globalLanguage hasSpeechSynthesis).
Local Abbreviation speakFrom' :=
  (speakFrom Language bcp47LanguageMap globalLanguage hasSpeechSynthesis).
Local Abbreviation call' := (call Language bcp47LanguageMap globalLanguage hasSpeechSynthesis).
Local Abbreviation calls' := (calls Language bcp47LanguageMap globalLanguage hasSpeechSynthesis).
Local Abbreviation act' := (act Language bcp47LanguageMap globalLanguage hasSpeechSynthesis).
Local Abbreviation perform' :=
  (perform Language bcp47LanguageMap globalLanguage hasSpeechSynthesis).
Local Abbreviation step' := (step Language bcp47LanguageMap globalLanguage hasSpeechSynthesis).
Local Abbreviation run' := (run Language bcp47LanguageMap globalLanguage hasSpeechSynthesis).
Local Abbreviation normalize' := (normalize Language globalLanguage).
Local Abbreviation requestUtterances' :=
  (requestUtterances Language bcp47LanguageMap globalLanguage).
Local Abbreviation cancel' := (cancel hasSpeechSynthesis).
Local Abbreviation toggleMute' := (toggleMute hasSpeechSynthesis).
Local Abbreviation speakSucceeds' := (speakSucceeds Language globalLanguage hasSpeechSynthesis).
Local Abbreviation undisturbed' :=
  (undisturbed Language bcp47LanguageMap globalLanguage hasSpeechSynthesis).

(** The three outcomes of a call to [speak]. *)
Lemma speak_cases t onEnd lg speaking st :
  (speakSucceeds' t lg st = false /\
   (isMuted st = true \/ hasSpeechSynthesis = false) /\
   speak' t onEnd lg speaking st = invokeIfProvided onEnd st)
  \/
  (speakSucceeds' t lg st = false /\
   isMuted st = false /\ hasSpeechSynthesis = true /\ normalize' t lg = [] /\
   speak' t onEnd lg speaking st = invokeIfProvided onEnd (cancel' st))
  \/
  (speakSucceeds' t lg st = true /\
   isMuted st = false /\ hasSpeechSynthesis = true /\
   exists s segs, normalize' t lg = s :: segs).
Proof.
  unfold speakSucceeds.
  destruct (isMuted st) eqn:M.
  { left. unfold speak, speakFrom. cbn [lastRender captured_isMuted]. rewrite M. cbn. repeat split. left. reflexivity. }
  destruct hasSpeechSynthesis eqn:A.
  2:{ left. unfold speak, speakFrom. cbn [lastRender captured_isMuted]. rewrite M. cbn. repeat split. right. reflexivity. }
  destruct (normalize' t lg) as [|s segs] eqn:N.
  - right. left. cbn. repeat split.
    pose proof (speak_nothing_left Language bcp47LanguageMap globalLanguage
                  hasSpeechSynthesis t onEnd lg speaking st) as H.
    rewrite A in H. exact (proj1 (H M eq_refl N)).
  - right. right. cbn. repeat split. exists s, segs. reflexivity.
Qed.

Lemma step_keeps_engineInvariant ev st :
  engineInvariant st -> engineInvariant (step' ev st).
Proof.
  unfold engineInvariant. intros (I1 & I2 & I3).
  destruct ev as [t onEnd lg speaking| | | |vs|u timer|u|u e|timer r]; cbn [step].
  - destruct (speak_cases t onEnd lg speaking st)
      as [(_ & _ & E)|[(_ & M & A & _ & E)|(Ok & M & A & s & segs & N)]].
    + rewrite E.
      destruct (invokeIfProvided_fields onEnd st) as (-> & -> & _ & -> & -> & -> & _).
      invariant_done I1.
    + rewrite E.
      destruct (invokeIfProvided_fields onEnd (cancel' st)) as (-> & -> & _ & -> & -> & -> & _).
      destruct (cancel_fields hasSpeechSynthesis st) as (-> & -> & _ & -> & -> & -> & _).
      invariant_done I1.
    + destruct (speak_success_fields Language bcp47LanguageMap globalLanguage
                  hasSpeechSynthesis t onEnd lg speaking st s segs M A N)
        as (M' & S' & _ & Sh & _).
      rewrite M', S', Sh. invariant_done I1. right. left. reflexivity.
  - destruct (cancel_fields hasSpeechSynthesis st) as (-> & -> & _ & -> & -> & -> & _).
    invariant_done I1.
  - rewrite (toggleMute_unfold hasSpeechSynthesis). destruct (isMuted st) eqn:M; fields.
    + invariant_done I1.
    + destruct (cancel_fields hasSpeechSynthesis st) as (_ & -> & _ & -> & -> & -> & _).
      invariant_done I1.
  - destruct (cancel_fields hasSpeechSynthesis st) as (-> & -> & _ & -> & -> & -> & _).
    invariant_done I1.
  - unfold handleVoicesChanged. fields. invariant_done I1.
  - unfold utterance_onstart, clearMouthShapeInterval.
    destruct (mouthShapeInterval st); fields; invariant_done I1.
  - unfold utterance_onend.
    pose proof (processQueue_cases (record (Completed u) st)) as (H & M & _).
    fields. rewrite M.
    destruct (utteranceQueue st) as [|next rest] eqn:Q;
      destruct H as (-> & -> & -> & -> & _); invariant_done I1.
  - unfold utterance_onerror.
    pose proof (processQueue_cases (record (Completed u) st)) as (H & M & _).
    fields. rewrite M.
    destruct (utteranceQueue st) as [|next rest] eqn:Q;
      destruct H as (-> & -> & -> & -> & _); invariant_done I1.
  - unfold interval_tick. destruct (mouthShapeInterval st) as [t|];
      [destruct (Nat.eqb t timer)|]; fields; invariant_done I1.
    right. apply tick_shape_in_MOUTH_SHAPES.
Qed.

Lemma run_keeps_engineInvariant evs : forall st,
  engineInvariant st -> engineInvariant (run' evs st).
Proof.
  induction evs as [|ev evs IH]; intros st I; [exact I|].
  cbn [run]. apply IH. apply step_keeps_engineInvariant. exact I.
Qed.

(** What a call to [speak] leaves of the engine: nothing changed, or
    the engine cancelled, or the engine speaking. *)
Lemma speakFrom_outcome r t onEnd lg speaking st :
  isMuted (speakFrom' r t onEnd lg speaking st) = isMuted st /\
  ((isSpeaking (speakFrom' r t onEnd lg speaking st) = isSpeaking st /\
    mouthShape (speakFrom' r t onEnd lg speaking st) = mouthShape st /\
    utteranceQueue (speakFrom' r t onEnd lg speaking st) = utteranceQueue st /\
    onEndCallback (speakFrom' r t onEnd lg speaking st) = onEndCallback st /\
    handed (log (speakFrom' r t onEnd lg speaking st)) = handed (log st))
   \/
   (isSpeaking (speakFrom' r t onEnd lg speaking st) = false /\
    mouthShape (speakFrom' r t onEnd lg speaking st) = "X" /\
    utteranceQueue (speakFrom' r t onEnd lg speaking st) = [] /\
    onEndCallback (speakFrom' r t onEnd lg speaking st) = None /\
    handed (log (speakFrom' r t onEnd lg speaking st)) = handed (log st))
   \/
   (captured_isMuted r = false /\
    isSpeaking (speakFrom' r t onEnd lg speaking st) = true /\
    mouthShape (speakFrom' r t onEnd lg speaking st) = "A")).
Proof.
  split.
  { apply (speakFrom_callback_effect Language bcp47LanguageMap globalLanguage
             hasSpeechSynthesis). }
  destruct (speakFrom_cases Language bcp47LanguageMap globalLanguage hasSpeechSynthesis
              r t onEnd lg speaking st)
    as [(G & _)|[(M & A & N & _)|(M & A & s & segs & N)]].
  - left.
    destruct (speakFrom_rejected Language bcp47LanguageMap globalLanguage
                hasSpeechSynthesis r t onEnd lg speaking st G)
      as (_ & L & S' & Sh & _ & Q & C).
    rewrite L, handed_app, handed_onEndLog, app_nil_r. repeat split; assumption.
  - right. left.
    destruct (speakFrom_nothing_left Language bcp47LanguageMap globalLanguage
                hasSpeechSynthesis r t onEnd lg speaking st M A N)
      as (_ & L & _ & S' & Sh & Q & C).
    rewrite L, handed_app. cbn [handed]. rewrite handed_onEndLog, app_nil_r.
    repeat split; assumption.
  - right. right.
    destruct (speakFrom_success_fields Language bcp47LanguageMap globalLanguage
                hasSpeechSynthesis r t onEnd lg speaking st s segs M A N)
      as (_ & S' & _ & Sh & _).
    repeat split; assumption.
Qed.

Lemma calls_outcome ks : forall st,
  isMuted (calls' ks st) = isMuted st /\
  ((isSpeaking (calls' ks st) = isSpeaking st /\
    mouthShape (calls' ks st) = mouthShape st /\
    utteranceQueue (calls' ks st) = utteranceQueue st)
   \/
   (isSpeaking (calls' ks st) = false /\
    mouthShape (calls' ks st) = "X" /\
    utteranceQueue (calls' ks st) = [])
   \/
   (isSpeaking (calls' ks st) = true /\ mouthShape (calls' ks st) = "A")).
Proof.
  induction ks as [|k ks IH]; intros st.
  - split; [reflexivity|]. left. repeat split.
  - change (calls' (k :: ks) st) with (calls' ks (call' k st)).
    destruct (IH (call' k st)) as (Mu & O).
    assert (K : isMuted (call' k st) = isMuted st /\
                ((isSpeaking (call' k st) = isSpeaking st /\
                  mouthShape (call' k st) = mouthShape st /\
                  utteranceQueue (call' k st) = utteranceQueue st)
                 \/
                 (isSpeaking (call' k st) = false /\
                  mouthShape (call' k st) = "X" /\
                  utteranceQueue (call' k st) = [])
                 \/
                 (isSpeaking (call' k st) = true /\ mouthShape (call' k st) = "A"))).
    { destruct k as [r t onEnd lg speaking|]; cbn [call].
      - destruct (speakFrom_outcome r t onEnd lg speaking st)
          as (M & [(A & B & C & _)|[(A & B & C & _)|(_ & A & B)]]); split; auto.
      - destruct (cancel_fields hasSpeechSynthesis st) as (M & A & _ & B & C & _).
        split; auto. }
    destruct K as (Mu' & K). split; [congruence|].
    destruct O as [(A & B & C)|[O|O]]; [|right; left; exact O|right; right; exact O].
    rewrite A, B, C. exact K.
Qed.

(** With units still queued, or with no callback stored, the end of a
    unit is the plain event, whatever a callback would have called. *)
Lemma act_without_callback u during st :
  utteranceQueue st <> [] \/ onEndCallback st = None ->
  act' (OnEndCalling u during) st = step' (OnEnd u) st /\
  (forall e, act' (OnErrorCalling u e during) st = step' (OnEnd u) st).
Proof.
  intros H. cbn [act step]. unfold utterance_onend.
  rewrite processQueueWith_no_callback by (fields; exact H).
  split; reflexivity.
Qed.

Lemma act_keeps_engineInvariant a st :
  actionSeesMute a st = true -> engineInvariant st -> engineInvariant (act' a st).
Proof.
  intros Sees I.
  assert (G : forall u during,
            engineInvariant
              (processQueueWith (fun _ => calls' during) (record (Completed u) st))).
  { intros u during.
    destruct (utteranceQueue st) as [|next rest] eqn:Q.
    - destruct (onEndCallback st) as [cb|] eqn:C.
      + rewrite (processQueueWith_drain _ _ cb) by (fields; assumption).
        destruct I as (I1 & I2 & I3).
        destruct (calls_outcome during
                    (record (Invoked cb)
                       (setMouthShapeInterval None
                          (setMouthShape "X"
                             (setIsSpeaking false (record (Completed u) st))))))
          as (Mu & O).
        unfold engineInvariant. fields. rewrite Mu.
        assert (Un : isMuted st = false).
        { destruct (isMuted st); [|reflexivity].
          destruct (I1 (I2 eq_refl)). congruence. }
        rewrite Un.
        destruct O as [(A & B & D)|[(A & B & D)|(A & B)]]; rewrite ?A, ?B, ?D;
          repeat split; intros; try discriminate; try reflexivity;
          try (left; reflexivity); try (right; left; reflexivity); try assumption.
      + pose proof (step_keeps_engineInvariant (OnEnd u) st I) as H.
        cbn [step] in H. unfold utterance_onend in H.
        rewrite processQueueWith_no_callback by (right; exact C). exact H.
    - pose proof (step_keeps_engineInvariant (OnEnd u) st I) as H.
      cbn [step] in H. unfold utterance_onend in H.
      rewrite processQueueWith_no_callback by (left; fields; congruence). exact H. }
  destruct a as [ev|r t onEnd lg speaking|u during|u e during]; cbn [act].
  - apply step_keeps_engineInvariant. exact I.
  - cbn [actionSeesMute] in Sees. unfold seesMute in Sees. apply Bool.eqb_prop in Sees.
    destruct I as (I1 & I2 & I3). unfold engineInvariant.
    destruct (speakFrom_outcome r t onEnd lg speaking st)
      as (Mu & [(A & B & C & D & _)|[(A & B & C & D & _)|(M & A & B)]]);
      rewrite Mu, ?A, ?B, ?C, ?D.
    + split; [exact I1|]. split; assumption.
    + repeat split; intros; try reflexivity. left. reflexivity.
    + rewrite <- Sees, M.
      repeat split; intros; try discriminate. right. left. reflexivity.
  - apply G.
  - apply G.
Qed.

Lemma perform_keeps_engineInvariant acts : forall st,
  allSeeMute Language bcp47LanguageMap globalLanguage hasSpeechSynthesis acts st = true ->
  engineInvariant st -> engineInvariant (perform' acts st).
Proof.
  induction acts as [|a acts IH]; intros st Sees I; [exact I|].
  cbn [allSeeMute] in Sees. apply andb_true_iff in Sees. destruct Sees as [Sa Sees].
  cbn [perform]. apply IH; [exact Sees|]. apply act_keeps_engineInvariant; assumption.
Qed.



(** X1.  As long as every [speak] that is called, by the caller or by
    a callback, was created by a render that saw the [isMuted] of the
    moment of the call, a muted engine is not speaking, has nothing
    queued and holds no callback; so a speaking engine is not muted. *)
Theorem muted_engine_is_silent acts :
  allSeeMute Language bcp47LanguageMap globalLanguage hasSpeechSynthesis acts initial = true ->
  (isMuted (perform' acts initial) = true ->
   isSpeaking (perform' acts initial) = false /\
   utteranceQueue (perform' acts initial) = [] /\
   onEndCallback (perform' acts initial) = None) /\
  (isSpeaking (perform' acts initial) = true -> isMuted (perform' acts initial) = false).
Proof.
  intros Sees.
  destruct (perform_keeps_engineInvariant acts initial Sees initial_engineInvariant)
    as (I1 & I2 & _).
  split.
  - intros M. split; [exact (I2 M)|]. exact (I1 (I2 M)).
  - intros S'. destruct (isMuted (perform' acts initial)); [|reflexivity].
    rewrite (I2 eq_refl) in S'. discriminate.
Qed.


(** While the engine is muted and idle, no event hands a unit to the
    platform or makes it speak. *)
Lemma muted_step_is_silent ev st :
  isMuted st = true -> isSpeaking st = false -> utteranceQueue st = [] ->
  handed (log (step' ev st)) = handed (log st) /\
  isSpeaking (step' ev st) = false.
Proof.
  intros M S0 Q.
  destruct ev as [t onEnd lg speaking| | | |vs|u timer|u|u e|timer r]; cbn [step].
  - destruct (speak_cases t onEnd lg speaking st)
      as [(_ & _ & E)|[(_ & M' & _)|(_ & M' & _)]]; try congruence.
    rewrite E, invokeIfProvided_log, handed_app, handed_onEndLog, app_nil_r.
    split; [reflexivity|]. destruct onEnd; exact S0.
  - destruct (cancel_fields hasSpeechSynthesis st) as (_ & -> & _ & _ & _ & _ & _ & _ & ->).
    rewrite handed_app. destruct hasSpeechSynthesis; cbn [handed]; rewrite app_nil_r; split; reflexivity.
  - rewrite (toggleMute_unfold hasSpeechSynthesis), M. fields. split; [reflexivity|exact S0].
  - destruct (cancel_fields hasSpeechSynthesis st) as (_ & -> & _ & _ & _ & _ & _ & _ & ->).
    rewrite handed_app. destruct hasSpeechSynthesis; cbn [handed]; rewrite app_nil_r; split; reflexivity.
  - split; [reflexivity|exact S0].
  - unfold utterance_onstart, clearMouthShapeInterval.
    destruct (mouthShapeInterval st); fields; split; reflexivity || exact S0.
  - unfold utterance_onend.
    pose proof (processQueue_cases (record (Completed u) st)) as (H & _).
    fields. rewrite Q in H. destruct H as (-> & _ & _ & _ & _ & ->).
    rewrite !handed_app, handed_onEndLog. cbn [handed]. rewrite !app_nil_r. split; reflexivity.
  - unfold utterance_onerror.
    pose proof (processQueue_cases (record (Completed u) st)) as (H & _).
    fields. rewrite Q in H. destruct H as (-> & _ & _ & _ & _ & ->).
    rewrite !handed_app, handed_onEndLog. cbn [handed]. rewrite !app_nil_r. split; reflexivity.
  - unfold interval_tick. destruct (mouthShapeInterval st) as [t|];
      [destruct (Nat.eqb t timer)|]; fields; split; reflexivity || exact S0.
Qed.

(** X3.  While the engine is muted, nothing that happens hands a unit
    to the platform or makes the engine speak, as long as every
    [speak] that is called was created by a render that saw the
    [isMuted] of the moment of the call. *)
Theorem no_unit_handed_over_while_muted acts a :
  allSeeMute Language bcp47LanguageMap globalLanguage hasSpeechSynthesis acts initial = true ->
  isMuted (perform' acts initial) = true ->
  actionSeesMute a (perform' acts initial) = true ->
  handed (log (act' a (perform' acts initial))) = handed (log (perform' acts initial)) /\
  isSpeaking (act' a (perform' acts initial)) = false.
Proof.
  intros Sees M Sa.
  destruct (perform_keeps_engineInvariant acts initial Sees initial_engineInvariant)
    as (I1 & I2 & _).
  pose proof (I2 M) as S0. destruct (I1 S0) as [Q C].
  set (st := perform' acts initial) in *.
  destruct a as [ev|r t onEnd lg speaking|u during|u e during].
  - cbn [act]. apply muted_step_is_silent; assumption.
  - cbn [act]. cbn [actionSeesMute] in Sa. unfold seesMute in Sa.
    apply Bool.eqb_prop in Sa. rewrite M in Sa.
    destruct (speakFrom_rejected Language bcp47LanguageMap globalLanguage
                hasSpeechSynthesis r t onEnd lg speaking st (or_introl Sa))
      as (_ & L & S' & _).
    rewrite L, S', handed_app, handed_onEndLog, app_nil_r. split; [reflexivity|exact S0].
  - rewrite (proj1 (act_without_callback u during st (or_intror C))).
    apply muted_step_is_silent; assumption.
  - rewrite (proj2 (act_without_callback u during st (or_intror C)) e).
    apply muted_step_is_silent; assumption.
Qed.

(** X21.  A request that a callback makes while [processQueue] runs it
    loses its own callback: the request is taken, the engine speaks
    and the first unit is handed over, but [processQueue] clears the
    stored callback after the running callback has returned, so the
    callback of the new request is never run unless it is passed
    again.  The same call made once the end event has been handled
    keeps its callback. *)
Theorem request_made_by_callback_loses_its_callback u cb r t onEnd lg speaking st :
  utteranceQueue st = [] -> onEndCallback st = Some cb ->
  captured_isMuted r = false -> hasSpeechSynthesis = true -> normalize' t lg <> [] ->
  isSpeaking (act' (OnEndCalling u [CallSpeak r t onEnd lg speaking]) st) = true /\
  spokenText (act' (OnEndCalling u [CallSpeak r t onEnd lg speaking]) st)
    = joinSpace (map text (normalize' t lg)) /\
  handed (log (act' (OnEndCalling u [CallSpeak r t onEnd lg speaking]) st))
    = handed (log st) ++
      (if speaking then [] else firstn 1 (requestUtterances' (captured_voices r) t lg)) /\
  utteranceQueue (act' (OnEndCalling u [CallSpeak r t onEnd lg speaking]) st)
    = (if speaking then requestUtterances' (captured_voices r) t lg
       else skipn 1 (requestUtterances' (captured_voices r) t lg)) /\
  invoked (log (act' (OnEndCalling u [CallSpeak r t onEnd lg speaking]) st))
    = invoked (log st) ++ [cb] /\
  onEndCallback (act' (OnEndCalling u [CallSpeak r t onEnd lg speaking]) st) = None /\
  (forall acts c,
     onEnd = Some c -> ~ In c (callbacksOfActions acts) ->
     timesFired c (perform' acts (act' (OnEndCalling u [CallSpeak r t onEnd lg speaking]) st))
     = timesFired c (act' (OnEndCalling u [CallSpeak r t onEnd lg speaking]) st)) /\
  onEndCallback (speakFrom' r t onEnd lg speaking (step' (OnEnd u) st)) = onEnd.
Proof.
  intros Q C M A Ne.
  destruct (normalize' t lg) as [|s segs] eqn:N; [congruence|].
  assert (E : act' (OnEndCalling u [CallSpeak r t onEnd lg speaking]) st =
              setOnEndCallback None
                (speakFrom' r t onEnd lg speaking
                   (record (Invoked cb)
                      (setMouthShapeInterval None
                         (setMouthShape "X"
                            (setIsSpeaking false (record (Completed u) st))))))).
  { cbn [act]. rewrite (processQueueWith_drain _ _ cb) by (fields; assumption).
    reflexivity. }
  destruct (speakFrom_success_fields Language bcp47LanguageMap globalLanguage
              hasSpeechSynthesis r t onEnd lg speaking
              (record (Invoked cb)
                 (setMouthShapeInterval None
                    (setMouthShape "X" (setIsSpeaking false (record (Completed u) st)))))
              s segs M A N)
    as (_ & S' & T & _ & _ & _ & _ & Q' & L).
  assert (C' : onEndCallback (act' (OnEndCalling u [CallSpeak r t onEnd lg speaking]) st)
               = None) by (rewrite E; reflexivity).
  split; [rewrite E; fields; exact S'|].
  split; [rewrite E; fields; rewrite T; reflexivity|].
  split; [|split; [|split; [|split; [exact C'|split]]]].
  - rewrite E. fields. rewrite L. fields. unfold requestUtterances. rewrite N.
    rewrite !handed_app. cbn [handed map firstn]. rewrite !app_nil_r.
    destruct speaking; cbn [handed]; rewrite ?app_nil_r; reflexivity.
  - rewrite E. fields. rewrite Q'. unfold requestUtterances. rewrite N.
    destruct speaking; reflexivity.
  - rewrite E. fields. rewrite L. fields.
    rewrite !invoked_app. cbn [invoked]. rewrite app_nil_r.
    destruct speaking; cbn [invoked]; rewrite ?app_nil_r; reflexivity.
  - intros acts c _ Out.
    apply (unstored_callback_never_runs Language bcp47LanguageMap globalLanguage
             hasSpeechSynthesis); [rewrite C'; discriminate|exact Out].
  - apply (speakFrom_success_fields Language bcp47LanguageMap globalLanguage
             hasSpeechSynthesis r t onEnd lg speaking (step' (OnEnd u) st) s segs M A N).
Qed.

(** X4.  On every run from the first render [mouthShape] is "X" or one
    of the eight shapes of [MOUTH_SHAPES]; and a tick of the live
    interval always publishes one of the eight, never the neutral "X". *)
Theorem mouthShape_stays_in_alphabet evs :
  In (mouthShape (run' evs initial)) shapeAlphabet /\
  (forall timer r st,
     mouthShapeInterval st = Some timer ->
     In (mouthShape (interval_tick timer r st)) MOUTH_SHAPES /\
     mouthShape (interval_tick timer r st) <> "X").
Proof.
  split.
  - apply (run_keeps_engineInvariant evs initial initial_engineInvariant).
  - intros timer r st I. unfold interval_tick. rewrite I, Nat.eqb_refl. fields.
    pose proof (tick_shape_in_MOUTH_SHAPES r) as H. split; [exact H|].
    intros E. rewrite E in H. cbn in H.
    repeat (destruct H as [H|H]; [discriminate H|]). exact H.
Qed.

(** X5.  Whatever the run and whether or not the tutor is thinking, the
    shape name that reaches [AvatarModel] through [AnimatedTutor] and
    [ThreeAvatar] is one of the keys of its [mouthShapes] table; and it
    is the neutral "X" whenever the tutor is thinking or the hook says
    it is not speaking, whatever [mouthShape] holds. *)
Theorem avatar_mouth_shape_is_a_table_key evs isThinking :
  (exists p,
     AvatarModel.ownProperty AvatarModel.mouthShapes
       (animatedTutorMouthShape (isSpeaking (run' evs initial)) isThinking
                                (mouthShape (run' evs initial))) = Some p) /\
  (isThinking = true \/ isSpeaking (run' evs initial) = false ->
   animatedTutorMouthShape (isSpeaking (run' evs initial)) isThinking
                           (mouthShape (run' evs initial)) = "X").
Proof.
  destruct (run_keeps_engineInvariant evs initial initial_engineInvariant) as (_ & _ & I3).
  assert (K : forall k, In k shapeAlphabet ->
                        exists p, AvatarModel.ownProperty AvatarModel.mouthShapes k = Some p).
  { intros k H. cbn in H.
    repeat (destruct H as [H|H]; [subst k; eexists; reflexivity|]). destruct H. }
  unfold animatedTutorMouthShape, threeAvatarMouthShape. split.
  - destruct isThinking, (isSpeaking (run' evs initial)); cbn [orb];
      try (apply K; left; reflexivity). apply K. exact I3.
  - intros [-> | ->]; [destruct (isSpeaking (run' evs initial)); reflexivity|].
    destruct isThinking; reflexivity.
Qed.

(** X6.  [toggleMute] on an unmuted engine mutes it and cancels: not
    speaking, neutral mouth, nothing queued, the pending callback
    dropped without being run, [spokenText] kept.  On a muted engine
    it flips the flag and does nothing else, [cancel] is not called.
    Two calls in a row give back the flag one started with. *)
Theorem toggleMute_enters_with_cancel st :
  (isMuted st = false ->
   observable (toggleMute' st) = mkEngineState false "X" (spokenText st) true /\
   utteranceQueue (toggleMute' st) = [] /\
   onEndCallback (toggleMute' st) = None /\
   mouthShapeInterval (toggleMute' st) = None /\
   invoked (log (toggleMute' st)) = invoked (log st) /\
   handed (log (toggleMute' st)) = handed (log st)) /\
  (isMuted st = true -> toggleMute' st = setIsMuted false st) /\
  isMuted (toggleMute' (toggleMute' st)) = isMuted st.
Proof.
  split; [|split].
  - intros M. rewrite (toggleMute_unfold hasSpeechSynthesis), M.
    destruct (cancel_fields hasSpeechSynthesis st) as (_ & S' & T & Sh & Q & C & I & _ & L).
    unfold observable. fields. rewrite S', T, Sh, Q, C, I, L, invoked_app, handed_app.
    destruct hasSpeechSynthesis; cbn [invoked handed]; rewrite !app_nil_r; repeat split.
  - intros M. rewrite (toggleMute_unfold hasSpeechSynthesis), M. reflexivity.
  - rewrite !(toggleMute_unfold hasSpeechSynthesis).
    destruct (isMuted st) eqn:M; fields; reflexivity.
Qed.



(** X8.  When [speak] reads [window.speechSynthesis.speaking] as true,
    it hands nothing to the platform: every unit of the request stays
    queued while [isSpeaking] is already true, and the first unit is
    handed over only by the next end or error event, of whatever unit. *)
Theorem request_waits_while_platform_speaks t onEnd lg st u :
  speakSucceeds' t lg st = true ->
  handed (log (speak' t onEnd lg true st)) = handed (log st) /\
  utteranceQueue (speak' t onEnd lg true st) = requestUtterances' (voices st) t lg /\
  isSpeaking (speak' t onEnd lg true st) = true /\
  handed (log (step' (OnEnd u) (speak' t onEnd lg true st)))
    = handed (log st) ++ firstn 1 (requestUtterances' (voices st) t lg) /\
  (forall e,
     handed (log (step' (OnError u e) (speak' t onEnd lg true st)))
       = handed (log st) ++ firstn 1 (requestUtterances' (voices st) t lg)).
Proof.
  intros Ok.
  assert (E : forall e s, step' (OnError u e) s = step' (OnEnd u) s) by reflexivity.
  enough (G : handed (log (speak' t onEnd lg true st)) = handed (log st) /\
              utteranceQueue (speak' t onEnd lg true st)
                = requestUtterances' (voices st) t lg /\
              isSpeaking (speak' t onEnd lg true st) = true /\
              handed (log (step' (OnEnd u) (speak' t onEnd lg true st)))
                = handed (log st) ++ firstn 1 (requestUtterances' (voices st) t lg)).
  { destruct G as (G1 & G2 & G3 & G4). repeat split; try assumption.
    intros e. rewrite E. exact G4. }
  destruct (speakSucceeds_inv Language globalLanguage hasSpeechSynthesis t lg st Ok)
    as (M & A & s & segs & N).
  destruct (speak_success_fields Language bcp47LanguageMap globalLanguage
              hasSpeechSynthesis t onEnd lg true st s segs M A N)
    as (_ & S' & _ & _ & _ & _ & _ & Q & L).
  unfold requestUtterances. rewrite N. cbn [map firstn].
  rewrite L, Q, S', handed_app. cbn [handed]. rewrite app_nil_r.
  repeat split. cbn [step]. unfold utterance_onend.
  pose proof (processQueue_cases
                (record (Completed u) (speak' t onEnd lg true st))) as (H & _).
  fields. rewrite Q in H. destruct H as (_ & _ & _ & _ & _ & ->).
  rewrite L, !handed_app. cbn [handed]. rewrite !app_nil_r. reflexivity.
Qed.

(** X9.  For a request that got past the guard, [spokenText] is the
    space-joined text of exactly the units it queues, each unit
    carries the platform locale of its own segment, and when the
    request has been played undisturbed to the end the units handed to
    the platform are those units, in order. *)
Theorem spoken_text_is_what_is_played t onEnd lg st evs :
  speakSucceeds' t lg st = true ->
  undisturbed' evs (speak' t onEnd lg false st) = true ->
  completions evs = List.length (requestUtterances' (voices st) t lg) ->
  spokenText (run' evs (speak' t onEnd lg false st))
    = joinSpace (map utext (requestUtterances' (voices st) t lg)) /\
  handed (log (run' evs (speak' t onEnd lg false st)))
    = handed (log st) ++ requestUtterances' (voices st) t lg /\
  map ulang (requestUtterances' (voices st) t lg)
    = map (fun s => bcp47LanguageMap (lang s)) (normalize' t lg).
Proof.
  intros Ok U K.
  destruct (request_timeline Language bcp47LanguageMap globalLanguage hasSpeechSynthesis
              t onEnd lg st evs Ok U) as (_ & L & _).
  rewrite K, Nat.eqb_refl, firstn_all, skipn_all in L. cbn [firstn map app] in L.
  destruct (speakSucceeds_inv Language globalLanguage hasSpeechSynthesis t lg st Ok)
    as (M & A & s & segs & N).
  destruct (speak_success_fields Language bcp47LanguageMap globalLanguage
              hasSpeechSynthesis t onEnd lg false st s segs M A N)
    as (_ & _ & T & _).
  split; [|split].
  - assert (F : forallb (fun ev : Event Language => negb (isSpeakCall ev)) evs = true).
    { clear - U. revert U. generalize (speak' t onEnd lg false st).
      induction evs as [|ev evs IH]; intros s0 U; [reflexivity|].
      cbn [undisturbed] in U. apply andb_true_iff in U. destruct U as [Uev U].
      cbn [forallb]. rewrite (IH _ U), andb_true_r.
      destruct ev; try reflexivity. discriminate Uev. }
    assert (Keep : forall evs0 s0,
              forallb (fun ev : Event Language => negb (isSpeakCall ev)) evs0 = true ->
              spokenText (run' evs0 s0) = spokenText s0).
    { induction evs0 as [|ev evs0 IH]; intros s0 H; [reflexivity|].
      cbn [forallb] in H. apply andb_true_iff in H. destruct H as [Hev H].
      cbn [run]. rewrite (IH _ H).
      rewrite (step_spokenText Language bcp47LanguageMap globalLanguage hasSpeechSynthesis).
      destruct ev; try reflexivity. discriminate Hev. }
    rewrite (Keep _ _ F), T. unfold requestUtterances. rewrite N, map_map. reflexivity.
  - rewrite L. rewrite handed_app. cbn [handed]. rewrite handed_app, handed_played, handed_onEndLog.
    rewrite app_nil_r. reflexivity.
  - unfold requestUtterances. rewrite map_map. reflexivity.
Qed.

Lemma step_without_platform ev st :
  hasSpeechSynthesis = false ->
  isSpeaking st = false -> utteranceQueue st = [] -> onEndCallback st = None ->
  isSpeaking (step' ev st) = false /\
  utteranceQueue (step' ev st) = [] /\
  onEndCallback (step' ev st) = None /\
  spokenText (step' ev st) = spokenText st /\
  exists received,
    log (step' ev st) = log st ++ received ++ onEndLog (hd_error (callbackOf ev)) /\
    forallb (fun e => negb (isPlatformCall e)) received = true /\
    invoked received = [].
Proof.
  intros A S0 Q C.
  destruct ev as [t onEnd lg speaking| | | |vs|u timer|u|u e|timer r]; cbn [step callbackOf].
  - destruct (speak_cases t onEnd lg speaking st)
      as [(_ & _ & E)|[(_ & _ & A' & _)|(_ & _ & A' & _)]]; try congruence.
    rewrite E. destruct (invokeIfProvided_fields onEnd st) as (_ & -> & -> & _ & -> & -> & _).
    repeat split; try assumption. exists []. rewrite invokeIfProvided_log.
    destruct onEnd; repeat split.
  - destruct (cancel_fields hasSpeechSynthesis st) as (_ & -> & -> & _ & -> & -> & _ & _ & ->).
    rewrite A. repeat split. exists []. repeat split.
  - rewrite (toggleMute_unfold hasSpeechSynthesis). destruct (isMuted st); fields.
    + repeat split; try assumption. exists []. rewrite app_nil_r. repeat split.
    + destruct (cancel_fields hasSpeechSynthesis st)
        as (_ & -> & -> & _ & -> & -> & _ & _ & ->).
      rewrite A. repeat split. exists []. repeat split.
  - destruct (cancel_fields hasSpeechSynthesis st) as (_ & -> & -> & _ & -> & -> & _ & _ & ->).
    rewrite A. repeat split. exists []. repeat split.
  - unfold handleVoicesChanged. fields. repeat split; try assumption.
    exists []. rewrite app_nil_r. repeat split.
  - unfold utterance_onstart, clearMouthShapeInterval.
    destruct (mouthShapeInterval st); fields; repeat split; try assumption;
      exists []; rewrite app_nil_r; repeat split.
  - unfold utterance_onend.
    pose proof (processQueue_cases (record (Completed u) st)) as (H & _ & T & _).
    fields. rewrite Q, C in H. destruct H as (-> & _ & -> & -> & _ & ->).
    rewrite T. repeat split. exists [Completed u]. rewrite <- !app_assoc. repeat split.
  - unfold utterance_onerror.
    pose proof (processQueue_cases (record (Completed u) st)) as (H & _ & T & _).
    fields. rewrite Q, C in H. destruct H as (-> & _ & -> & -> & _ & ->).
    rewrite T. repeat split. exists [Completed u]. rewrite <- !app_assoc. repeat split.
  - unfold interval_tick. destruct (mouthShapeInterval st) as [t|];
      [destruct (Nat.eqb t timer)|]; fields; repeat split; try assumption;
      exists []; rewrite app_nil_r; repeat split.
Qed.

(** X10.  Where [window.speechSynthesis] does not exist, [speak],
    [cancel], [toggleMute] and the other handlers never report
    speaking, never set [spokenText], never call the platform, and the
    callbacks they have run are exactly those passed to [speak], each
    once and in the order of the calls.  (The effect that reads the
    voice list on mount is not guarded and is not part of this.) *)
Theorem unavailable_platform_degrades evs :
  hasSpeechSynthesis = false ->
  isSpeaking (run' evs initial) = false /\
  spokenText (run' evs initial) = "" /\
  utteranceQueue (run' evs initial) = [] /\
  forallb (fun e => negb (isPlatformCall e)) (log (run' evs initial)) = true /\
  invoked (log (run' evs initial)) = callbacksOf evs.
Proof.
  intros A.
  assert (G : forall evs st,
            isSpeaking st = false -> utteranceQueue st = [] -> onEndCallback st = None ->
            forallb (fun e => negb (isPlatformCall e)) (log st) = true ->
            isSpeaking (run' evs st) = false /\
            spokenText (run' evs st) = spokenText st /\
            utteranceQueue (run' evs st) = [] /\
            forallb (fun e => negb (isPlatformCall e)) (log (run' evs st)) = true /\
            invoked (log (run' evs st)) = invoked (log st) ++ callbacksOf evs).
  { clear evs. induction evs as [|ev evs IH]; intros st S0 Q C P.
    { cbn. rewrite app_nil_r. repeat split; assumption. }
    destruct (step_without_platform ev st A S0 Q C)
      as (S1 & Q1 & C1 & T1 & received & L1 & P1 & I1).
    assert (P' : forallb (fun e => negb (isPlatformCall e)) (log (step' ev st)) = true).
    { rewrite L1, !forallb_app, P, P1. destruct (hd_error (callbackOf ev)); reflexivity. }
    destruct (IH (step' ev st) S1 Q1 C1 P') as (S2 & T2 & Q2 & P2 & I2).
    cbn [run]. rewrite S2, T2, Q2, P2, I2, T1, L1.
    repeat split. rewrite !invoked_app, I1, invoked_onEndLog. cbn [app callbacksOf flat_map].
    rewrite <- app_assoc. f_equal. f_equal.
    destruct ev as [t onEnd lg speaking| | | | | | | |]; try reflexivity.
    destruct onEnd; reflexivity. }
  exact (G evs initial eq_refl eq_refl eq_refl eq_refl).
Qed.

End MoreProperties.

(** ** Further properties of voice selection *)

Lemma exactMatch_true (target : string) (v : Voice) :
  exactMatch target v = true <-> vlang v = target.
Proof. unfold exactMatch. apply String.eqb_eq. Qed.

Lemma genderFiltered_In (vs : list Voice) (target : string) (g : InterviewerGender) (v : Voice) :
  In v (genderFiltered vs target g) <->
  In v vs /\ startsWith (vlang v) (splitDashHead target) = true /\
  includes (toLowerCase (name v)) (genderWord g) = true.
Proof.
  unfold genderFiltered, voiceCandidates. rewrite !filter_In. tauto.
Qed.

(** X11.  A selected voice is always a voice of the catalog whose
    locale starts with the primary subtag of the target.  With a gender
    hint that some candidate's name contains, the selected voice's name
    contains it, and it has exactly the target locale whenever some
    such candidate has; with a hint that no candidate's name contains,
    or with no hint, it has exactly the target locale.  With a hint, no
    voice is selected only if no candidate's name contains the hint and
    no candidate has exactly the target locale. *)
Theorem selected_voice_is_a_candidate (vs : list Voice) (target : string)
    (g : option InterviewerGender) :
  (forall v,
     bestVoice vs target g = Some v ->
     In v vs /\ startsWith (vlang v) (splitDashHead target) = true /\
     match g with
     | None => vlang v = target
     | Some h =>
         (genderFiltered vs target h <> [] ->
          includes (toLowerCase (name v)) (genderWord h) = true) /\
         (genderFiltered vs target h = [] -> vlang v = target) /\
         ((exists w, In w (genderFiltered vs target h) /\ vlang w = target) ->
          vlang v = target)
     end) /\
  (forall h,
     g = Some h ->
     (bestVoice vs target g = None <->
      genderFiltered vs target h = [] /\
      forall v, In v (voiceCandidates vs target) -> vlang v <> target)).
Proof.
  assert (Cand : forall v, find (exactMatch target) (voiceCandidates vs target) = Some v ->
                           In v vs /\ startsWith (vlang v) (splitDashHead target) = true /\
                           vlang v = target).
  { intros v H. apply find_some in H. destruct H as [Hin Hex].
    unfold voiceCandidates in Hin. apply filter_In in Hin. destruct Hin as [Hin Hp].
    repeat split; try assumption. apply exactMatch_true. exact Hex. }
  split.
  - intros v H. unfold bestVoice in H. destruct g as [h|].
    + destruct (genderFiltered vs target h) as [|first rest] eqn:G.
      * destruct (Cand v H) as (Hin & Hp & Hl).
        repeat split; try assumption; try congruence.
      * destruct (find (exactMatch target) (first :: rest)) as [v'|] eqn:F.
        -- inversion H; subst v'. apply find_some in F. destruct F as [Hin Hex].
           rewrite <- G in Hin. apply genderFiltered_In in Hin.
           destruct Hin as (Hin & Hp & Hg). apply exactMatch_true in Hex.
           repeat split; intros; try assumption; try discriminate.
        -- inversion H; subst v.
           assert (Hin : In first (genderFiltered vs target h))
             by (rewrite G; left; reflexivity).
           apply genderFiltered_In in Hin. destruct Hin as (Hin & Hp & Hg).
           repeat split; try assumption; try discriminate; [intros _; exact Hg|].
           intros (w & Hw & Hl). apply (find_none _ _ F) in Hw.
           apply exactMatch_true in Hl. congruence.
    + destruct (Cand v H) as (Hin & Hp & Hl). repeat split; assumption.
  - intros h ->. unfold bestVoice.
    destruct (genderFiltered vs target h) as [|first rest] eqn:G.
    + rewrite find_none_iff. split.
      * intros H. split; [reflexivity|]. intros v Hin Hl.
        specialize (H v Hin). apply exactMatch_true in Hl. congruence.
      * intros [_ H] v Hin. destruct (exactMatch target v) eqn:E; [|reflexivity].
        apply exactMatch_true in E. destruct (H v Hin E).
    + split; [|intros [H _]; discriminate H].
      destruct (find (exactMatch target) (first :: rest)); discriminate.
Qed.

Lemma prefix_cons (a : ascii) (p s : string) :
  String.prefix (String a p) s = true ->
  exists s', s = String a s' /\ String.prefix p s' = true.
Proof.
  destruct s as [|b s']; cbn; [discriminate|].
  destruct (ascii_dec a b) as [<-|]; [|discriminate].
  intros H. exists s'. split; [reflexivity|exact H].
Qed.

Lemma includes_female_male (s : string) :
  includes s "female" = true -> includes s "male" = true.
Proof.
  induction s as [|c s IH].
  - cbn. discriminate.
  - cbn [includes]. intros H. apply orb_true_iff in H. destruct H as [H|H].
    + unfold startsWith in H.
      apply prefix_cons in H. destruct H as (s1 & E1 & H). inversion E1; subst.
      apply prefix_cons in H. destruct H as (s2 & -> & H).
      apply orb_true_iff. right. cbn [includes].
      apply orb_true_iff. right.
      destruct s2 as [|c2 s2]; [discriminate H|].
      cbn [includes]. unfold startsWith. rewrite H. reflexivity.
    + apply orb_true_iff. right. exact (IH H).
Qed.

(** X12.  The hint "male" also matches every voice whose name contains
    "female", since the test is a substring test: a voice kept for the
    hint "female" is kept for the hint "male" as well, so when every
    candidate's name contains "female" the hint "male" narrows nothing
    and the selection is made among all candidates. *)
Theorem male_hint_matches_female_voices (vs : list Voice) (target : string) :
  (forall v, In v (genderFiltered vs target female) -> In v (genderFiltered vs target male)) /\
  ((forall v, In v (voiceCandidates vs target) ->
              includes (toLowerCase (name v)) "female" = true) ->
   genderFiltered vs target male = voiceCandidates vs target).
Proof.
  split.
  - intros v H. apply genderFiltered_In in H. apply genderFiltered_In.
    destruct H as (Hin & Hp & Hg). repeat split; try assumption.
    apply includes_female_male. exact Hg.
  - intros H. unfold genderFiltered.
    induction (voiceCandidates vs target) as [|v l IH]; [reflexivity|].
    cbn [filter genderWord].
    rewrite (includes_female_male _ (H v (or_introl eq_refl))).
    f_equal. apply IH. intros w Hw. apply H. right. exact Hw.
Qed.

(** ** [ThreeCanvas]: properties of the cleaning *)

Local Open Scope string_scope.

Lemma trimStart_length (s : string) : String.length (trimStart s) <= String.length s.
Proof.
  destruct (trimStart_spec s) as (ws & _ & E & _).
  rewrite E at 2. rewrite length_of_append. lia.
Qed.

Lemma trimStart_fixed (s : string) :
  trimStart s = s -> leadingWhiteSpace s = None.
Proof.
  intros H. destruct (trimStart_spec s) as (_ & _ & _ & L). rewrite H in L. exact L.
Qed.

Lemma trimStart_whitespace_then (ws rest : string) :
  allWhitespace ws = true -> trimStart (ws ++ rest) = trimStart rest.
Proof. intros H. apply trimStart_OnlyWhiteSpace, allWhitespace_iff, H. Qed.

Lemma isWhiteSpace_backtick (s : string) :
  In "`"%char (list_ascii_of_string s) -> isWhiteSpace s = false.
Proof.
  intros H. destruct (isWhiteSpace s) eqn:W; [|reflexivity].
  apply isWhiteSpace_In in W.
  assert (O : OnlyWhiteSpace (s ++ "")) by (constructor; [exact W|constructor]).
  rewrite append_empty_r in O.
  pose proof (OnlyWhiteSpace_bytes s O _ H) as B. vm_compute in B. discriminate B.
Qed.

Lemma trimStart_keeps_fenced_tail (body tail : string) :
  trimStart body = body -> trimStart (body ++ "```" ++ tail) = body ++ "```" ++ tail.
Proof.
  intros H. apply trimStart_fixed in H.
  rewrite trimStart_step.
  enough (L : leadingWhiteSpace (body ++ "```" ++ tail) = None) by (rewrite L; reflexivity).
  destruct body as [|a [|b [|c body]]]; cbn [append leadingWhiteSpace] in *.
  - reflexivity.
  - destruct (isWhiteSpace (String a "")); [discriminate|].
    rewrite !isWhiteSpace_backtick by (cbn; tauto). reflexivity.
  - destruct (isWhiteSpace (String a "")); [discriminate|].
    destruct (isWhiteSpace (String a (String b ""))); [discriminate|].
    rewrite !isWhiteSpace_backtick by (cbn; tauto). reflexivity.
  - destruct (isWhiteSpace (String a "")); [discriminate|].
    destruct (isWhiteSpace (String a (String b ""))); [discriminate|].
    destruct (isWhiteSpace (String a (String b (String c "")))); [discriminate|].
    reflexivity.
Qed.

Lemma backtick_left (n : nat) (ws : string) : forall body,
  n <= 2 -> In "`"%char (list_ascii_of_string (dropChars n (body ++ "```" ++ ws))).
Proof.
  intros body. revert n.
  induction body as [|d body IH]; intros n Hn.
  - destruct n as [|[|[|n]]]; try lia; cbn; tauto.
  - destruct n as [|n].
    + cbn [dropChars append list_ascii_of_string]. right. exact (IH 0 ltac:(lia)).
    + cbn [dropChars append]. apply IH. lia.
Qed.

Lemma fence_not_skipped (n : nat) (ws : string) : forall body,
  n <= 2 -> allWhitespace (dropChars n (body ++ "```" ++ ws)) = false.
Proof.
  intros body Hn.
  destruct (allWhitespace (dropChars n (body ++ "```" ++ ws))) eqn:A; [|reflexivity].
  apply allWhitespace_iff in A.
  pose proof (OnlyWhiteSpace_bytes _ A _ (backtick_left n ws body Hn)) as B.
  vm_compute in B. discriminate B.
Qed.

Lemma startsWith_empty (s : string) : startsWith s "" = true.
Proof. destruct s; reflexivity. Qed.

Lemma startsWith_cons_same (a : ascii) (s p : string) :
  startsWith (String a s) (String a p) = startsWith s p.
Proof.
  unfold startsWith. cbn [String.prefix].
  destruct (ascii_dec a a) as [_|N]; [reflexivity|congruence].
Qed.

Lemma startsWith_cons_other (a b : ascii) (s p : string) :
  a <> b -> startsWith (String b s) (String a p) = false.
Proof.
  intros N. unfold startsWith. cbn [String.prefix].
  destruct (ascii_dec a b) as [E|_]; [congruence|reflexivity].
Qed.

Lemma startsWith_longer_when_not_first (a : ascii) (s p : string) :
  startsWith s (String a "") = false -> startsWith s (String a p) = false.
Proof.
  unfold startsWith. destruct s as [|c r]; [reflexivity|].
  cbn [String.prefix]. destruct (ascii_dec a c); [|reflexivity].
  destruct r; discriminate.
Qed.

Lemma stripTrailingFence_unfold (s : string) :
  stripTrailingFence s =
  if startsWith s "```" && allWhitespace (dropChars 3 s) then ""
  else match s with
       | "" => ""
       | String c s' => String c (stripTrailingFence s')
       end.
Proof. destruct s; reflexivity. Qed.

Lemma stripTrailingFence_fenced (ws : string) : forall body,
  allWhitespace ws = true -> stripTrailingFence (body ++ "```" ++ ws) = body.
Proof.
  intros body W. induction body as [|c body IH]; rewrite stripTrailingFence_unfold.
  - cbn [append dropChars].
    rewrite !startsWith_cons_same, startsWith_empty, W. reflexivity.
  - change (dropChars 3 (String c body ++ "```" ++ ws))
      with (dropChars 2 (body ++ "```" ++ ws)).
    rewrite (fence_not_skipped 2 ws body) by lia. rewrite andb_false_r.
    change (String c body ++ "```" ++ ws) with (String c (body ++ "```" ++ ws)).
    cbv iota. rewrite IH. reflexivity.
Qed.

Lemma stripTrailingFence_without_fence (s : string) :
  includes s "```" = false -> stripTrailingFence s = s.
Proof.
  induction s as [|c s IH]; intros H.
  - reflexivity.
  - cbn [includes] in H. apply orb_false_iff in H. destruct H as [P H].
    rewrite stripTrailingFence_unfold, P. cbn [andb]. rewrite (IH H). reflexivity.
Qed.

Lemma stripLeadingFence_javascript (rest : string) :
  stripLeadingFence ("```javascript" ++ rest) = trimStart rest.
Proof.
  unfold stripLeadingFence. cbn [append dropChars].
  rewrite !startsWith_cons_same, !startsWith_empty. reflexivity.
Qed.

Lemma stripLeadingFence_js (rest : string) :
  stripLeadingFence ("```js" ++ rest) = trimStart rest.
Proof.
  unfold stripLeadingFence. cbn [append dropChars].
  rewrite !startsWith_cons_same, !startsWith_empty.
  rewrite (startsWith_cons_other "a" "s") by discriminate. reflexivity.
Qed.

Lemma stripLeadingFence_other (rest : string) :
  startsWith rest "j" = false -> stripLeadingFence ("```" ++ rest) = trimStart rest.
Proof.
  intros J. unfold stripLeadingFence. cbn [append dropChars].
  rewrite !startsWith_cons_same, !startsWith_empty.
  rewrite !(startsWith_longer_when_not_first "j" rest _ J). reflexivity.
Qed.

(** X13.  A sketch wrapped in a fence comes out as its body: for the
    tag "javascript" or "js", or no tag when what follows does not
    begin with "j", with any whitespace after the tag and after the
    closing fence, and a body that does not begin with whitespace. *)
Theorem fenced_sketch_is_unwrapped (tag ws1 body ws2 : string) :
  tag = "javascript" \/ tag = "js" \/
    (tag = "" /\ startsWith (ws1 ++ body ++ "```" ++ ws2) "j" = false) ->
  allWhitespace ws1 = true ->
  allWhitespace ws2 = true ->
  trimStart body = body ->
  cleanedSketchCode ("```" ++ tag ++ ws1 ++ body ++ "```" ++ ws2) = body.
Proof.
  intros T W1 W2 B. unfold cleanedSketchCode.
  assert (E : stripLeadingFence ("```" ++ tag ++ ws1 ++ body ++ "```" ++ ws2)
              = body ++ "```" ++ ws2).
  { destruct T as [->|[->|[-> J]]].
    - change ("```" ++ "javascript" ++ ws1 ++ body ++ "```" ++ ws2)
        with ("```javascript" ++ (ws1 ++ body ++ "```" ++ ws2)).
      rewrite (stripLeadingFence_javascript (ws1 ++ body ++ "```" ++ ws2)).
      rewrite (trimStart_whitespace_then ws1 _ W1).
      apply trimStart_keeps_fenced_tail. exact B.
    - change ("```" ++ "js" ++ ws1 ++ body ++ "```" ++ ws2)
        with ("```js" ++ (ws1 ++ body ++ "```" ++ ws2)).
      rewrite (stripLeadingFence_js (ws1 ++ body ++ "```" ++ ws2)).
      rewrite (trimStart_whitespace_then ws1 _ W1).
      apply trimStart_keeps_fenced_tail. exact B.
    - change ("```" ++ "" ++ ws1 ++ body ++ "```" ++ ws2)
        with ("```" ++ (ws1 ++ body ++ "```" ++ ws2)).
      rewrite (stripLeadingFence_other _ J).
      rewrite (trimStart_whitespace_then ws1 _ W1).
      apply trimStart_keeps_fenced_tail. exact B. }
  rewrite E. apply stripTrailingFence_fenced. exact W2.
Qed.

(** X14.  Sketch code in which no fence occurs is left as it is. *)
Theorem unfenced_sketch_is_unchanged (sketchCode : string) :
  includes sketchCode "```" = false -> cleanedSketchCode sketchCode = sketchCode.
Proof.
  intros H. unfold cleanedSketchCode, stripLeadingFence.
  assert (P : startsWith sketchCode "```" = false).
  { destruct sketchCode; cbn [includes] in H; apply orb_false_iff in H; apply H. }
  rewrite P. apply stripTrailingFence_without_fence. exact H.
Qed.

(** X15.  Of an opening fence only the tags "javascript" and "js" are
    removed with it.  After "js" nothing more of the tag is removed, so
    a longer tag that begins with "js" loses these two letters only;
    any tag that does not begin with "j" stays in the code as its first
    characters.  Code that does not begin with a fence keeps its
    beginning. *)
Theorem only_js_tags_are_removed (rest : string) :
  stripLeadingFence ("```javascript" ++ rest) = trimStart rest /\
  stripLeadingFence ("```js" ++ rest) = trimStart rest /\
  (startsWith rest "j" = false -> stripLeadingFence ("```" ++ rest) = trimStart rest) /\
  (startsWith rest "```" = false -> stripLeadingFence rest = rest).
Proof.
  split; [apply stripLeadingFence_javascript|]. split; [apply stripLeadingFence_js|].
  split; [apply stripLeadingFence_other|].
  intros P. unfold stripLeadingFence. rewrite P. reflexivity.
Qed.

Lemma escapeQuotes_escaped (title : string) : forall prev,
  quotesEscaped prev (escapeQuotes title) = true.
Proof.
  induction title as [|c t IH]; intros prev; [reflexivity|].
  cbn [escapeQuotes]. destruct (Ascii.eqb c "'") eqn:E.
  - cbn. apply IH.
  - cbn [quotesEscaped]. rewrite E. cbn [negb orb andb]. apply IH.
Qed.

Lemma escapeQuotes_append (s t : string) :
  escapeQuotes (s ++ t) = escapeQuotes s ++ escapeQuotes t.
Proof.
  induction s as [|c s IH]; [reflexivity|].
  cbn [append escapeQuotes]. destruct (Ascii.eqb c "'"); cbn [append]; rewrite IH; reflexivity.
Qed.

(** X16.  In the escaped title every quote has a backslash right
    before it; a title without quotes is unchanged; escaping goes
    piece by piece; and a backslash of the title is not escaped
    itself, so a title ending in a backslash still ends in one. *)
Theorem title_quotes_are_escaped (title : string) :
  quotesEscaped false (escapeQuotes title) = true /\
  (includes title "'" = false -> escapeQuotes title = title) /\
  (forall t, escapeQuotes (title ++ t) = escapeQuotes title ++ escapeQuotes t) /\
  escapeQuotes (title ++ "\") = escapeQuotes title ++ "\".
Proof.
  split; [apply escapeQuotes_escaped|]. split; [|split].
  - induction title as [|c t IH]; [reflexivity|].
    cbn [includes escapeQuotes]. intros H. apply orb_false_iff in H. destruct H as [P H].
    destruct (Ascii.eqb c "'") eqn:E.
    + apply Ascii.eqb_eq in E. subst c.
      rewrite startsWith_cons_same, startsWith_empty in P. discriminate P.
    + rewrite (IH H). reflexivity.
  - apply escapeQuotes_append.
  - apply escapeQuotes_append.
Qed.

Local Open Scope list_scope.

(** ** [Whiteboard]: properties *)

(** X17.  The submit button is enabled exactly when the whiteboard is
    editable, nothing is loading, and the user's code is not made of
    white space only (empty code is). *)
Theorem submit_needs_code (p : WhiteboardProps) :
  isSubmittable p = true <->
  isEditable p = true /\ isLoading p = false /\ ~ OnlyWhiteSpace (userCode p).
Proof.
  unfold isSubmittable. rewrite <- hasText_trim, !andb_true_iff, hasText_iff, negb_true_iff.
  tauto.
Qed.

Lemma sameVisual_hasVisual (p q : WhiteboardProps) :
  sameVisual p q = true -> hasVisual q = hasVisual p.
Proof.
  unfold sameVisual, hasVisual. intros H. apply andb_true_iff in H. destruct H as [V L].
  apply Bool.eqb_prop in L.
  destruct (visualAid p), (visualAid q); cbn in V; try discriminate; congruence.
Qed.

Lemma whiteboardStep_keeps_tab_backed (ev : WhiteboardEvent) (w : Whiteboard) :
  (activeTab w = ANIMATION -> hasVisual (props w) = true) ->
  activeTab (whiteboardStep ev w) = ANIMATION ->
  hasVisual (props (whiteboardStep ev w)) = true.
Proof.
  intros I. destruct ev as [p changed| | | | |]; cbn [whiteboardStep].
  - destruct (changed || negb (sameVisual (props w) p)) eqn:E.
    + unfold visualAidEffect, committed. cbn.
      destruct (hasVisual p); [reflexivity|discriminate].
    + unfold committed. cbn. apply orb_false_iff in E. destruct E as [_ E]. apply negb_false_iff in E.
      intros T. rewrite (sameVisual_hasVisual _ _ E). exact (I T).
  - cbn. discriminate.
  - destruct (hasVisual (props w)) eqn:H; cbn; [intros _; exact H|].
    rewrite H. exact I.
  - destruct (toolbarShown w); cbn; exact I.
  - destruct (toolbarShown w); [|exact I].
    destruct (visualAid (props w)) as [va|] eqn:V; [|exact I].
    destruct (String.eqb (va_content va) ""); cbn; exact I.
  - cbn. exact I.
Qed.

Lemma whiteboardRun_keeps_tab_backed (evs : list WhiteboardEvent) : forall w,
  (activeTab w = ANIMATION -> hasVisual (props w) = true) ->
  activeTab (whiteboardRun evs w) = ANIMATION ->
  hasVisual (props (whiteboardRun evs w)) = true.
Proof.
  induction evs as [|ev evs IH]; intros w I; [exact I|].
  cbn [whiteboardRun fold_left]. apply (IH (whiteboardStep ev w)).
  apply whiteboardStep_keeps_tab_backed. exact I.
Qed.

(** X18.  Whatever props arrive and whatever is clicked, once the
    effect has run the animation tab is selected only while there is a
    visual aid or one is loading, so the pane below the tab bar is not
    the empty one; when the flip and copy buttons are there, the pane
    is a canvas of the current visual aid.  The empty pane is rendered
    only between a render and its effect, and exactly when the new
    props have no visual aid and none loading while the animation tab
    is selected. *)
Theorem whiteboard_pane_is_never_empty (p : WhiteboardProps) (evs : list WhiteboardEvent) :
  (activeTab (whiteboardRun evs (mount p)) = ANIMATION ->
   hasVisual (props (whiteboardRun evs (mount p))) = true) /\
  pane (whiteboardRun evs (mount p)) <> EmptyPane /\
  (forall q,
     pane (committed q (whiteboardRun evs (mount p))) = EmptyPane <->
     activeTab (whiteboardRun evs (mount p)) = ANIMATION /\ hasVisual q = false) /\
  (forall q, pane (visualAidEffect (committed q (whiteboardRun evs (mount p)))) <> EmptyPane) /\
  (toolbarShown (whiteboardRun evs (mount p)) = true ->
   exists va,
     visualAid (props (whiteboardRun evs (mount p))) = Some va /\
     (pane (whiteboardRun evs (mount p))
        = ThreeCanvasPane (va_content va) (va_title va)
                          (isFlipped (whiteboardRun evs (mount p))) \/
      pane (whiteboardRun evs (mount p))
        = P5CanvasPane (va_content va) (va_title va)
                       (isFlipped (whiteboardRun evs (mount p))))).
Proof.
  assert (I : activeTab (whiteboardRun evs (mount p)) = ANIMATION ->
              hasVisual (props (whiteboardRun evs (mount p))) = true).
  { apply whiteboardRun_keeps_tab_backed.
    unfold mount, visualAidEffect. cbn. destruct (hasVisual p); [reflexivity|discriminate]. }
  split; [exact I|]. set (w := whiteboardRun evs (mount p)) in *.
  unfold pane, toolbarShown, hasVisual in *.
  split; [|split; [|split]].
  - destruct (activeTab w); [discriminate|].
    specialize (I eq_refl).
    destruct (isVisualAidLoading (props w)); [discriminate|].
    destruct (visualAid (props w)) as [va|]; [|discriminate].
    destruct (String.eqb (va_type va) "threejs"); discriminate.
  - intros q. unfold committed. cbn. split.
    + destruct (activeTab w); [discriminate|].
      destruct (isVisualAidLoading q); [discriminate|].
      destruct (visualAid q) as [va|]; [|intros _; split; reflexivity].
      destruct (String.eqb (va_type va) "threejs"); discriminate.
    + intros [T V]. rewrite T.
      destruct (visualAid q) as [va|]; [discriminate|]. rewrite V. reflexivity.
  - intros q. unfold visualAidEffect, committed, hasVisual. cbn.
    destruct (visualAid q) as [va|] eqn:V; cbn.
    + destruct (isVisualAidLoading q); [discriminate|].
      destruct (String.eqb (va_type va) "threejs"); discriminate.
    + destruct (isVisualAidLoading q) eqn:L; cbn; discriminate.
  - destruct (activeTab w); [discriminate|].
    destruct (visualAid (props w)) as [va|]; [|discriminate].
    intros L. apply negb_true_iff in L. rewrite L.
    exists va. split; [reflexivity|].
    destruct (String.eqb (va_type va) "threejs"); [left|right]; reflexivity.
Qed.

(** ** [dbService]: properties *)

Lemma containsStore_In (names : list string) (n : string) :
  containsStore names n = true <-> In n names.
Proof.
  unfold containsStore. rewrite existsb_exists. split.
  - intros (x & Hx & E). apply String.eqb_eq in E. subst x. exact Hx.
  - intros H. exists n. split; [exact H|apply String.eqb_refl].
Qed.

Lemma createMissing_spec (stores : list StoreConfig) : forall names,
  exists created,
    fold_left
      (fun names storeConfig =>
         if containsStore names (store_name storeConfig) then names
         else names ++ [store_name storeConfig])
      stores names = names ++ created /\
    (forall cfg, In cfg stores -> In (store_name cfg) (names ++ created)) /\
    (forall n, In n created ->
               ~ In n names /\ exists cfg, In cfg stores /\ store_name cfg = n) /\
    NoDup created.
Proof.
  induction stores as [|cfg stores IH]; intros names.
  - exists []. rewrite app_nil_r. split; [reflexivity|].
    split; [intros ? []|]. split; [intros ? []|constructor].
  - cbn [fold_left]. destruct (containsStore names (store_name cfg)) eqn:C.
    + destruct (IH names) as (created & E & All & New & ND).
      exists created. split; [exact E|]. split; [|split; [|exact ND]].
      * intros c [<-|Hc]; [|exact (All c Hc)].
        apply in_or_app. left. apply containsStore_In. exact C.
      * intros n Hn. destruct (New n Hn) as (Nn & c & Hc & Ec).
        split; [exact Nn|]. exists c. split; [right; exact Hc|exact Ec].
    + destruct (IH (names ++ [store_name cfg])) as (created & E & All & New & ND).
      assert (Nc : ~ In (store_name cfg) names).
      { intros H. apply containsStore_In in H. congruence. }
      exists (store_name cfg :: created).
      rewrite E, <- app_assoc. cbn [app]. split; [reflexivity|]. split; [|split].
      * intros c [<-|Hc].
        -- apply in_or_app. right. left. reflexivity.
        -- specialize (All c Hc). rewrite <- app_assoc in All. exact All.
      * intros n [<-|Hn].
        -- split; [exact Nc|]. exists cfg. split; [left|]; reflexivity.
        -- destruct (New n Hn) as (Nn & c & Hc & Ec). split.
           ++ intros H. apply Nn. apply in_or_app. left. exact H.
           ++ exists c. split; [right; exact Hc|exact Ec].
      * constructor; [|exact ND].
        intros H. destruct (New _ H) as (Nn & _). apply Nn.
        apply in_or_app. right. left. reflexivity.
Qed.

Lemma createMissing_nothing_missing (stores : list StoreConfig) : forall names,
  (forall cfg, In cfg stores -> In (store_name cfg) names) ->
  fold_left
    (fun names storeConfig =>
       if containsStore names (store_name storeConfig) then names
       else names ++ [store_name storeConfig])
    stores names = names.
Proof.
  induction stores as [|cfg stores IH]; intros names H; [reflexivity|].
  cbn [fold_left].
  rewrite (proj2 (containsStore_In names (store_name cfg)) (H cfg (or_introl eq_refl))).
  apply IH. intros c Hc. apply H. right. exact Hc.
Qed.

(** X19.  After an upgrade the database has every store of [STORES];
    the stores it had are kept; what is added are stores of [STORES]
    it did not have, each once; and an upgrade of a database that has
    been upgraded changes nothing. *)
Theorem upgrade_creates_the_missing_stores (objectStoreNames : list string) :
  (forall cfg, In cfg STORES -> In (store_name cfg) (onupgradeneeded objectStoreNames)) /\
  (exists created,
     onupgradeneeded objectStoreNames = objectStoreNames ++ created /\
     (forall n, In n created ->
                ~ In n objectStoreNames /\ exists cfg, In cfg STORES /\ store_name cfg = n) /\
     NoDup created) /\
  onupgradeneeded (onupgradeneeded objectStoreNames) = onupgradeneeded objectStoreNames.
Proof.
  unfold onupgradeneeded.
  destruct (createMissing_spec STORES objectStoreNames) as (created & E & All & New & ND).
  split; [rewrite E; exact All|]. split.
  - exists created. split; [exact E|]. split; [exact New|exact ND].
  - apply createMissing_nothing_missing. rewrite E. exact All.
Qed.

Lemma dbStep_budget (ev : DbEvent) (m : DbModule) :
  openCalls m = openErrors m + (match dbPromise m with None => 0 | Some _ => 1 end) ->
  openCalls (dbStep ev m)
    = openErrors (dbStep ev m)
      + (match dbPromise (dbStep ev m) with None => 0 | Some _ => 1 end).
Proof.
  destruct m as [[[|]|] calls errors]; destruct ev; cbn; lia.
Qed.

Lemma dbRun_budget (evs : list DbEvent) : forall m,
  openCalls m = openErrors m + (match dbPromise m with None => 0 | Some _ => 1 end) ->
  openCalls (dbRun evs m)
    = openErrors (dbRun evs m)
      + (match dbPromise (dbRun evs m) with None => 0 | Some _ => 1 end).
Proof.
  induction evs as [|ev evs IH]; intros m H; [exact H|].
  cbn [dbRun fold_left]. apply (IH (dbStep ev m)). apply dbStep_budget. exact H.
Qed.

(** X20.  [indexedDB.open] has been called once for every open that
    failed, and once more if a promise is cached: as long as a promise
    is cached, pending or fulfilled, calls to [openDB] share it and
    open nothing; the first call after a failure opens again. *)
Theorem database_is_opened_once_until_it_fails (evs : list DbEvent) :
  openCalls (dbRun evs dbInitial)
    = openErrors (dbRun evs dbInitial)
      + (match dbPromise (dbRun evs dbInitial) with None => 0 | Some _ => 1 end) /\
  (forall m n, dbPromise m <> None -> dbRun (repeat CallOpenDB n) m = m) /\
  (forall m,
     openCalls (openDB (open_onerror m)) = S (openCalls m) /\
     dbPromise (openDB (open_onerror m)) = Some Pending).
Proof.
  split; [|split].
  - apply dbRun_budget. reflexivity.
  - intros m n H. induction n as [|n IH]; [reflexivity|].
    cbn [repeat dbRun fold_left dbStep]. unfold openDB at 1.
    destruct (dbPromise m) eqn:P; [exact IH|contradiction].
  - intros m. split; reflexivity.
Qed.


(** ** Closed instances of the further properties *)

(** X1, witness: a request is cut off by mute, and what follows on
    the muted engine. *)
Lemma muted_engine_is_silent_witness :
  isSpeaking (samplePerform mutedWhilePlaying initial) = false /\
  utteranceQueue (samplePerform mutedWhilePlaying initial) = [] /\
  onEndCallback (samplePerform mutedWhilePlaying initial) = None.
Proof.
  assert (Sees : allSeeMute SampleLanguage sampleMap en true mutedWhilePlaying initial = true)
    by (vm_compute; reflexivity).
  assert (M : isMuted (samplePerform mutedWhilePlaying initial) = true)
    by (vm_compute; reflexivity).
  exact (proj1 (muted_engine_is_silent SampleLanguage sampleMap en true
                  mutedWhilePlaying Sees) M).
Defined.


(** X3, witness: the [speak] of the muted render, called on the muted
    engine. *)
Lemma no_unit_handed_over_while_muted_witness :
  handed (log (sampleAct (SpeakFrom (mkCaptured true []) (Text "beta") (Some 2)
                                    (IsLanguage en) false)
                 (samplePerform [Plain (Speak (Text "alpha") (Some 1) (IsLanguage en) false);
                                 Plain ToggleMute] initial)))
    = handed (log (samplePerform
                     [Plain (Speak (Text "alpha") (Some 1) (IsLanguage en) false);
                      Plain ToggleMute] initial)) /\
  isSpeaking (sampleAct (SpeakFrom (mkCaptured true []) (Text "beta") (Some 2)
                                   (IsLanguage en) false)
                (samplePerform [Plain (Speak (Text "alpha") (Some 1) (IsLanguage en) false);
                                Plain ToggleMute] initial)) = false.
Proof.
  assert (Sees : allSeeMute SampleLanguage sampleMap en true
                   [Plain (Speak (Text "alpha") (Some 1) (IsLanguage en) false);
                    Plain ToggleMute] initial = true)
    by (vm_compute; reflexivity).
  assert (M : isMuted (samplePerform
                         [Plain (Speak (Text "alpha") (Some 1) (IsLanguage en) false);
                          Plain ToggleMute] initial) = true)
    by (vm_compute; reflexivity).
  assert (Sa : actionSeesMute
                 (SpeakFrom (mkCaptured true []) (Text "beta") (Some 2) (IsLanguage en) false)
                 (samplePerform
                    [Plain (Speak (Text "alpha") (Some 1) (IsLanguage en) false);
                     Plain ToggleMute] initial) = true)
    by (vm_compute; reflexivity).
  exact (no_unit_handed_over_while_muted SampleLanguage sampleMap en true _ _ Sees M Sa).
Defined.

(** X4, witness: a tick of the interval the first unit started. *)
Lemma mouthShape_stays_in_alphabet_witness :
  In (mouthShape (interval_tick 7 3 (sampleStep (OnStart (sampleUtterance "one") 7)
                                                playingFirstOfThree)))
     MOUTH_SHAPES.
Proof.
  assert (I : mouthShapeInterval (sampleStep (OnStart (sampleUtterance "one") 7)
                                             playingFirstOfThree) = Some 7)
    by (vm_compute; reflexivity).
  exact (proj1 (proj2 (mouthShape_stays_in_alphabet SampleLanguage sampleMap en true [])
                      7 3 _ I)).
Defined.

(** X5, witness: the tutor is thinking while the first unit plays. *)
Lemma avatar_mouth_shape_is_a_table_key_witness :
  animatedTutorMouthShape
    (isSpeaking (sampleRun [Speak threeSegments (Some 5) (IsLanguage en) false] initial)) true
    (mouthShape (sampleRun [Speak threeSegments (Some 5) (IsLanguage en) false] initial))
  = "X".
Proof.
  exact (proj2 (avatar_mouth_shape_is_a_table_key SampleLanguage sampleMap en true
                  [Speak threeSegments (Some 5) (IsLanguage en) false] true)
               (or_introl eq_refl)).
Defined.

(** X6, witness: mute while the first of three units plays. *)
Lemma toggleMute_enters_with_cancel_witness :
  observable (toggleMute true playingFirstOfThree)
    = mkEngineState false "X" (spokenText playingFirstOfThree) true /\
  onEndCallback (toggleMute true playingFirstOfThree) = None.
Proof.
  assert (M : isMuted playingFirstOfThree = false) by (vm_compute; reflexivity).
  destruct (proj1 (toggleMute_enters_with_cancel true playingFirstOfThree) M)
    as (O & _ & C & _).
  exact (conj O C).
Defined.


(** X8, witness: three segments requested while the platform says it
    is speaking. *)
Lemma request_waits_while_platform_speaks_witness :
  handed (log (sampleSpeak threeSegments (Some 5) (IsLanguage en) true initial))
    = handed (log initial) /\
  utteranceQueue (sampleSpeak threeSegments (Some 5) (IsLanguage en) true initial)
    = sampleUtterances (voices initial) threeSegments (IsLanguage en).
Proof.
  assert (Ok : speakSucceeds SampleLanguage en true threeSegments (IsLanguage en) initial
               = true) by (vm_compute; reflexivity).
  destruct (request_waits_while_platform_speaks SampleLanguage sampleMap en true
              threeSegments (Some 5) (IsLanguage en) initial (sampleUtterance "late") Ok)
    as (H & Q & _).
  exact (conj H Q).
Defined.

(** X9, witness: three segments, one of them blank, played to the end. *)
Lemma spoken_text_is_what_is_played_witness :
  spokenText (sampleRun threeCompletions
                (sampleSpeak threeSegments (Some 5) (IsLanguage en) false initial))
    = joinSpace (map utext (sampleUtterances (voices initial) threeSegments (IsLanguage en))) /\
  handed (log (sampleRun threeCompletions
                 (sampleSpeak threeSegments (Some 5) (IsLanguage en) false initial)))
    = handed (log initial) ++ sampleUtterances (voices initial) threeSegments (IsLanguage en).
Proof.
  assert (Ok : speakSucceeds SampleLanguage en true threeSegments (IsLanguage en) initial
               = true) by (vm_compute; reflexivity).
  assert (U : undisturbed SampleLanguage sampleMap en true threeCompletions
                (sampleSpeak threeSegments (Some 5) (IsLanguage en) false initial) = true)
    by (vm_compute; reflexivity).
  assert (K : completions threeCompletions =
              List.length (sampleUtterances (voices initial) threeSegments (IsLanguage en)))
    by (vm_compute; reflexivity).
  destruct (spoken_text_is_what_is_played SampleLanguage sampleMap en true
              threeSegments (Some 5) (IsLanguage en) initial threeCompletions Ok U K)
    as (T & H & _).
  exact (conj T H).
Defined.

(** X10, witness: two requests where the platform has no speech. *)
Lemma unavailable_platform_degrades_witness :
  isSpeaking (run SampleLanguage sampleMap en false alphaThenBeta initial) = false /\
  invoked (log (run SampleLanguage sampleMap en false alphaThenBeta initial))
    = callbacksOf alphaThenBeta.
Proof.
  destruct (unavailable_platform_degrades SampleLanguage sampleMap en false
              alphaThenBeta eq_refl) as (S' & _ & _ & _ & I).
  exact (conj S' I).
Defined.

(** X11, witness: the example catalog, en-GB with the hint "female". *)
Lemma selected_voice_is_a_candidate_witness :
  In (voiceOf descriptorB) exampleCatalog /\
  startsWith (vlang (voiceOf descriptorB)) (splitDashHead "en-GB") = true.
Proof.
  assert (B : bestVoice exampleCatalog "en-GB" (Some female) = Some (voiceOf descriptorB))
    by (vm_compute; reflexivity).
  destruct (proj1 (selected_voice_is_a_candidate exampleCatalog "en-GB" (Some female))
                  (voiceOf descriptorB) B) as (I & P & _).
  exact (conj I P).
Defined.

(** X12, witness: B of the example catalog is kept for the hint "male". *)
Lemma male_hint_matches_female_voices_witness :
  In (voiceOf descriptorB) (genderFiltered exampleCatalog "en-GB" male).
Proof.
  assert (F : In (voiceOf descriptorB) (genderFiltered exampleCatalog "en-GB" female))
    by (vm_compute; left; reflexivity).
  exact (proj1 (male_hint_matches_female_voices exampleCatalog "en-GB") _ F).
Defined.

(** X13, witness: a sketch fenced with the tag "js", a line feed and a
    no-break space after the tag, a line separator after the closing
    fence. *)
Lemma fenced_sketch_is_unwrapped_witness :
  cleanedSketchCode ("```" ++ "js" ++ utf8 [10; 194; 160] ++ "export default f;" ++ "```"
                     ++ utf8 [226; 128; 168; 32])%string
    = "export default f;".
Proof.
  assert (W1 : allWhitespace (utf8 [10; 194; 160]) = true) by (vm_compute; reflexivity).
  assert (W2 : allWhitespace (utf8 [226; 128; 168; 32]) = true) by (vm_compute; reflexivity).
  assert (B : trimStart "export default f;" = "export default f;")
    by (vm_compute; reflexivity).
  exact (fenced_sketch_is_unwrapped "js" (utf8 [10; 194; 160]) "export default f;"
           (utf8 [226; 128; 168; 32]) (or_intror (or_introl eq_refl)) W1 W2 B).
Defined.

(** X14, witness: a sketch without fences. *)
Lemma unfenced_sketch_is_unchanged_witness :
  cleanedSketchCode "export default f;" = "export default f;".
Proof.
  assert (H : includes "export default f;" "```" = false) by (vm_compute; reflexivity).
  exact (unfenced_sketch_is_unchanged "export default f;" H).
Defined.

(** X15, witness: the tag "python" stays in the code. *)
Lemma only_js_tags_are_removed_witness :
  stripLeadingFence ("```" ++ "python x")%string = trimStart "python x".
Proof.
  assert (J : startsWith "python x" "j" = false) by (vm_compute; reflexivity).
  exact (proj1 (proj2 (proj2 (only_js_tags_are_removed "python x"))) J).
Defined.

(** X16, witness: a title without quotes. *)
Lemma title_quotes_are_escaped_witness :
  escapeQuotes "Orbits" = "Orbits".
Proof.
  assert (H : includes "Orbits" "'" = false) by (vm_compute; reflexivity).
  exact (proj1 (proj2 (title_quotes_are_escaped "Orbits")) H).
Defined.

(** X17, witness: code can be submitted; a no-break space cannot. *)
Lemma submit_needs_code_witness :
  isSubmittable (mkWhiteboardProps true true "" "x = 1" false None false) = true /\
  isSubmittable (mkWhiteboardProps true true "" (utf8 [194; 160]) false None false) = false.
Proof.
  split.
  - apply (proj2 (submit_needs_code
                    (mkWhiteboardProps true true "" "x = 1" false None false))).
    split; [reflexivity|]. split; [reflexivity|].
    intros O. pose proof (OnlyWhiteSpace_bytes _ O "x"%char (or_introl eq_refl)) as B.
    vm_compute in B. discriminate B.
  - destruct (isSubmittable
                (mkWhiteboardProps true true "" (utf8 [194; 160]) false None false)) eqn:E;
      [|reflexivity].
    apply (proj1 (submit_needs_code
                    (mkWhiteboardProps true true "" (utf8 [194; 160]) false None false)))
      in E.
    destruct E as (_ & _ & N). exfalso. apply N.
    change (OnlyWhiteSpace (utf8 [194; 160] ++ "")%string).
    constructor; [apply isWhiteSpace_In; vm_compute; reflexivity|constructor].
Defined.

(** X18, witness: the visual aid goes away while its tab is selected. *)
Lemma whiteboard_pane_is_never_empty_witness :
  pane (whiteboardRun
          [ClickFlip; Render (mkWhiteboardProps false false "code" "" false None false) false]
          (mount (mkWhiteboardProps false false "code" "" false
                    (Some (mkVisualAid "threejs" "export default f;" "Orbits")) false)))
  <> EmptyPane.
Proof.
  exact (proj1 (proj2 (whiteboard_pane_is_never_empty
                         (mkWhiteboardProps false false "code" "" false
                            (Some (mkVisualAid "threejs" "export default f;" "Orbits")) false)
                         [ClickFlip;
                          Render (mkWhiteboardProps false false "code" "" false None false)
                                 false]))).
Defined.

(** X19, witness: a database that has only the store "solutions". *)
Lemma upgrade_creates_the_missing_stores_witness :
  In "visualAids" (onupgradeneeded ["solutions"]).
Proof.
  exact (proj1 (upgrade_creates_the_missing_stores ["solutions"])
               (mkStoreConfig "visualAids" "id")
               (or_intror (or_intror (or_intror (or_introl eq_refl))))).
Defined.

(** X20, witness: three callers while the first open is pending. *)
Lemma database_is_opened_once_until_it_fails_witness :
  dbRun (repeat CallOpenDB 3) (openDB dbInitial) = openDB dbInitial.
Proof.
  assert (P : dbPromise (openDB dbInitial) <> None) by (vm_compute; discriminate).
  exact (proj1 (proj2 (database_is_opened_once_until_it_fails [])) (openDB dbInitial) 3 P).
Defined.

(** X21, witness: callback 1 of "alpha" asks for "beta" with callback 2
    while it runs; "beta" is spoken, callback 2 is gone, and the end of
    "beta" does not run it. *)
Lemma request_made_by_callback_loses_its_callback_witness :
  isSpeaking (sampleAct (OnEndCalling (sampleUtterance "alpha")
                           [CallSpeak (lastRender initial) (Text "beta") (Some 2)
                                      (IsLanguage en) false])
                (sampleRun [Speak (Text "alpha") (Some 1) (IsLanguage en) false] initial))
    = true /\
  onEndCallback (sampleAct (OnEndCalling (sampleUtterance "alpha")
                              [CallSpeak (lastRender initial) (Text "beta") (Some 2)
                                         (IsLanguage en) false])
                   (sampleRun [Speak (Text "alpha") (Some 1) (IsLanguage en) false] initial))
    = None /\
  timesFired 2
    (samplePerform [Plain (OnEnd (sampleUtterance "beta"))]
       (sampleAct (OnEndCalling (sampleUtterance "alpha")
                     [CallSpeak (lastRender initial) (Text "beta") (Some 2)
                                (IsLanguage en) false])
          (sampleRun [Speak (Text "alpha") (Some 1) (IsLanguage en) false] initial)))
  = timesFired 2
      (sampleAct (OnEndCalling (sampleUtterance "alpha")
                    [CallSpeak (lastRender initial) (Text "beta") (Some 2)
                               (IsLanguage en) false])
         (sampleRun [Speak (Text "alpha") (Some 1) (IsLanguage en) false] initial)).
Proof.
  assert (Q : utteranceQueue
                (sampleRun [Speak (Text "alpha") (Some 1) (IsLanguage en) false] initial) = [])
    by (vm_compute; reflexivity).
  assert (C : onEndCallback
                (sampleRun [Speak (Text "alpha") (Some 1) (IsLanguage en) false] initial)
              = Some 1)
    by (vm_compute; reflexivity).
  assert (M : captured_isMuted (lastRender initial) = false) by reflexivity.
  assert (N : normalize SampleLanguage en (Text "beta") (IsLanguage en) <> [])
    by (vm_compute; discriminate).
  assert (Out : ~ In 2 (callbacksOfActions
                          [Plain (OnEnd (sampleUtterance "beta")) : Action SampleLanguage]))
    by (vm_compute; intros []).
  destruct (request_made_by_callback_loses_its_callback SampleLanguage sampleMap en true
              (sampleUtterance "alpha") 1 (lastRender initial) (Text "beta") (Some 2)
              (IsLanguage en) false
              (sampleRun [Speak (Text "alpha") (Some 1) (IsLanguage en) false] initial)
              Q C M eq_refl N)
    as (S' & _ & _ & _ & _ & C' & Never & _).
  exact (conj S' (conj C' (Never _ 2 eq_refl Out))).
Defined.
